(** * Glow host runtime: partitioner and request queue

    A shallow embedding of
    - [glow/Runtime/RuntimeTypes.h]  (DeviceInfo, DAGNode, DAG, PartitionConfig),
    - [glow/Runtime/HostManager/HostManager.h] (InferRequest and its queue),
    - [glow/Optimizer/GraphOptimizer/CompilationContext.h] (verify),
    - [lib/Partitioner/Partitioner.cpp],
    followed by the properties established about them.

    Conventions.  [unsigned] is a 32-bit and [size_t]/[uint64_t] a 64-bit
    integer, both carried as [Z] with the wrap-around written out.  A
    nullable pointer is an [option].  [std::map<std::string, _>] is a
    [gmap string _].  A C++ function that returns [llvm::Error] or
    [llvm::Expected<T>] returns an [Outcome]; the third constructor of
    [Outcome] records that the execution reached undefined behaviour. *)

From Stdlib Require Import ZArith List Lia.
From Corelib Require Import PrimFloat.
From stdpp Require Import base option list sorting gmap strings pretty.

Local Open Scope string_scope.
Local Open Scope list_scope.
Local Open Scope Z_scope.

(** ** Machine integers *)

Definition wrap32 (z : Z) : Z := z mod 2 ^ 32.
Definition wrap64 (z : Z) : Z := z mod 2 ^ 64.

(** ** Errors and outcomes *)

(** The only member of [GlowErr::ErrorCode] the sources name. *)
Inductive ErrorCode := COMPILE_CONTEXT_MALFORMED.

(** A [GlowErr] as built by [RETURN_ERR_IF_NOT]: the error code when the
    call site passes one, and the message. *)
Record GlowErr := MkErr { errCode : option ErrorCode; errMsg : string }.

Inductive UB := NullDeref | DivByZero | OutOfRange.

Inductive Outcome (A : Type) :=
| Ok (a : A)
| Err (e : GlowErr)
| Undef (u : UB).
Arguments Ok {A} a.
Arguments Err {A} e.
Arguments Undef {A} u.

Definition isErr {A} (o : Outcome A) : bool :=
  match o with Err _ => true | _ => false end.

(** [v[i]] on a [std::vector]: out of range is undefined behaviour. *)
Definition at_ {A} (v : list A) (i : Z) : Outcome A :=
  if i <? 0 then Undef OutOfRange
  else match v !! Z.to_nat i with
       | Some x => Ok x
       | None => Undef OutOfRange
       end.

(** ** RuntimeTypes.h *)

Abbreviation DeviceIDTy := Z (only parsing).

Record DeviceInfo := {
  availableMemory : Z;
  di_backendName : string;
  nonSupportedNodes : string;
  supportedNodes : string;
  di_sramCapacity : Z;
  di_peakCompute : float;
  di_peakDramBw : float;
  di_peakSramBw : float;
  peakPCIeBw : float;
}.

(** A [DAGNode *] inside one [DAG]: the root or the i-th entry of [nodes]. *)
Inductive DAGNodeRef := RootRef | NodeRef (i : nat).

(** [runtimeBundle], [backendHints] and [module] are not touched by the
    code below and are left out. *)
Record DAGNode := {
  children : list DAGNodeRef;
  parents : list DAGNodeRef;
  deviceIDs : list DeviceIDTy;
  backendName : string;
  logicalDevices : list DeviceIDTy;
  currentDeviceIdx : Z;
  name : string;
}.

Definition set_currentDeviceIdx (i : Z) (n : DAGNode) : DAGNode :=
  {| children := children n; parents := parents n; deviceIDs := deviceIDs n;
     backendName := backendName n; logicalDevices := logicalDevices n;
     currentDeviceIdx := i; name := name n |}.

Definition set_logicalDevices (l : list DeviceIDTy) (n : DAGNode) : DAGNode :=
  {| children := children n; parents := parents n; deviceIDs := deviceIDs n;
     backendName := backendName n; logicalDevices := l;
     currentDeviceIdx := currentDeviceIdx n; name := name n |}.

(** [DAGNode::getNextDevice]: the index is incremented first (an [unsigned],
    so modulo 2^32) and the incremented value selects the device. *)
Definition getNextDevice (n : DAGNode) : Outcome (DeviceIDTy * DAGNode) :=
  let idx := wrap32 (currentDeviceIdx n + 1) in
  let n' := set_currentDeviceIdx idx n in
  match deviceIDs n with
  | [] => Undef DivByZero
  | _ :: _ =>
      match at_ (deviceIDs n) (idx mod Z.of_nat (length (deviceIDs n))) with
      | Ok d => Ok (d, n')
      | Err e => Err e
      | Undef u => Undef u
      end
  end.

Record DAG := { root : DAGNode; nodes : list DAGNode }.

Abbreviation DAGListTy := (list DAG) (only parsing).

Record PartitionConfig := {
  funcName : string;
  numOfPartitions : Z;
  backendNames : list string;
  partitionNames : list string;
  nodeToPartition : gmap string Z;
}.

(** [PartitionConfig()] *)
Definition PartitionConfig_default : PartitionConfig :=
  {| funcName := ""; numOfPartitions := 0; backendNames := [];
     partitionNames := []; nodeToPartition := ∅ |}.

Definition enabled (c : PartitionConfig) : bool := numOfPartitions c >? 0.

(** ** HostManager.h: queued inference requests *)

(** [context] and [callback] play no part in the ordering and are left out. *)
Record InferRequest := {
  networkName : string;
  priority : Z;
  requestID : Z;
}.

(** [InferRequest::operator>], on two [uint64_t] fields. *)
Definition gt (a inferReq : InferRequest) : bool :=
  if priority a =? priority inferReq
  then requestID a >? requestID inferReq
  else priority a >? priority inferReq.

(** [inferQueue_] is a [std::priority_queue] whose comparison is
    [std::greater<InferRequest>], that is [gt].  The container is the C++
    standard library's; what it promises is that [top()] is an element [x]
    of the queue such that the comparison [gt x y] holds for no element [y],
    and that [pop()] removes it.  The queue is carried as the list of its
    elements; [pop] selects such an element. *)
Fixpoint pop (q : list InferRequest) : option (InferRequest * list InferRequest) :=
  match q with
  | [] => None
  | x :: xs =>
      match pop xs with
      | None => Some (x, [])
      | Some (m, rest) => if gt x m then Some (m, x :: rest) else Some (x, xs)
      end
  end.

(** The order in which the requests of [q] leave the queue when nothing is
    pushed in between. *)
Fixpoint drain (fuel : nat) (q : list InferRequest) : list InferRequest :=
  match fuel with
  | O => []
  | S fuel' =>
      match pop q with
      | None => []
      | Some (r, q') => r :: drain fuel' q'
      end
  end.

Definition dequeueOrder (q : list InferRequest) : list InferRequest :=
  drain (length q) q.

(** ** CompilationContext.h *)

Inductive QuantizationMode := QM_None | Quantize | Profile.

(** Modelled from the spec: [Kinded::Kind], the closed set of operator
    kinds, is not among the sources, which name [SaveNodeKind] only.  The
    kinds of the spec's scenarios are spelled out; any other is [OtherNodeKind]
    with its number. *)
Inductive Kind :=
| SaveNodeKind
| ConvolutionNodeKind
| ReluNodeKind
| AddNodeKind
| MulNodeKind
| DivNodeKind
| SoftMaxNodeKind
| OtherNodeKind (tag : N).

Global Instance Kind_eq_dec : EqDecision Kind.
Proof. solve_decision. Defined.

Definition Kind_encode (k : Kind) : nat + N :=
  match k with
  | SaveNodeKind => inl 0%nat | ConvolutionNodeKind => inl 1%nat
  | ReluNodeKind => inl 2%nat | AddNodeKind => inl 3%nat
  | MulNodeKind => inl 4%nat | DivNodeKind => inl 5%nat
  | SoftMaxNodeKind => inl 6%nat | OtherNodeKind t => inr t
  end.

Definition Kind_decode (n : nat + N) : Kind :=
  match n with
  | inl 0%nat => SaveNodeKind | inl 1%nat => ConvolutionNodeKind
  | inl 2%nat => ReluNodeKind | inl 3%nat => AddNodeKind
  | inl 4%nat => MulNodeKind | inl 5%nat => DivNodeKind
  | inl _ => SoftMaxNodeKind | inr t => OtherNodeKind t
  end.

Global Instance Kind_countable : Countable Kind.
Proof.
  refine (inj_countable' Kind_encode Kind_decode _).
  intros []; reflexivity.
Defined.

Abbreviation KindSet := (gset Kind) (only parsing).

Record PrecisionConfiguration := {
  quantMode : QuantizationMode;
  convertToFP16 : bool;
  convertFusedToFP16 : bool;
  clipFP16 : bool;
  precisionModeKindSet : KindSet;
  useSetAsWhitelist : bool;
}.

(** The two pointers are nullable; what they point to is opaque here. *)
Record CompilationContext := {
  bindings : option positive;
  loweredInfoMap : option positive;
  precisionConfig : PrecisionConfiguration;
}.

(** [cctx.precisionConfig.quantMode == QuantizationMode::Profile] *)
Definition isProfile (cctx : CompilationContext) : bool :=
  match quantMode (precisionConfig cctx) with
  | Profile => true
  | _ => false
  end.

Definition PrecisionConfiguration_default : PrecisionConfiguration :=
  {| quantMode := QM_None; convertToFP16 := false; convertFusedToFP16 := false;
     clipFP16 := false; precisionModeKindSet := ∅; useSetAsWhitelist := false |}.

Definition CompilationContext_default : CompilationContext :=
  {| bindings := None; loweredInfoMap := None;
     precisionConfig := PrecisionConfiguration_default |}.

(** ** Sequencing of outcomes *)

Definition obind {A B} (o : Outcome A) (k : A -> Outcome B) : Outcome B :=
  match o with
  | Ok a => k a
  | Err e => Err e
  | Undef u => Undef u
  end.

Notation "x <~ c ;; k" := (obind c (fun x => k))
  (at level 100, c at next level, right associativity).

(** Runs [f] on the elements of [l] in order and stops at the first one that
    does not succeed. *)
Fixpoint forEach {A} (f : A -> Outcome unit) (l : list A) : Outcome unit :=
  match l with
  | [] => Ok tt
  | x :: l' => _ <~ f x ;; forEach f l'
  end.

(** [RETURN_ERR_IF_NOT(p, msg)] and [RETURN_ERR_IF_NOT(p, code, msg)]: the
    error carries the code only when the call site passes one. *)
Definition RETURN_ERR_IF_NOT (p : bool) (code : option ErrorCode) (msg : string)
    : Outcome unit :=
  if p then Ok tt else Err (MkErr code msg).

(** [CompilationContext::verify].  The line feed that ends four of the
    messages is left out. *)
Definition verify (c : CompilationContext) : Outcome unit :=
  let pc := precisionConfig c in
  _ <~ RETURN_ERR_IF_NOT (negb (useSetAsWhitelist pc) || convertToFP16 pc) None
         "Can only use the precisionModeKindSet as a whitelist in convertToFP16 mode." ;;
  match quantMode pc with
  | Profile =>
      _ <~ RETURN_ERR_IF_NOT (bool_decide (is_Some (bindings c)))
             (Some COMPILE_CONTEXT_MALFORMED)
             "In Profiling mode, but bindings was not set." ;;
      _ <~ RETURN_ERR_IF_NOT (bool_decide (is_Some (loweredInfoMap c)))
             (Some COMPILE_CONTEXT_MALFORMED)
             "In Profiling mode, but loweredInfoMap was not set." ;;
      _ <~ RETURN_ERR_IF_NOT (negb (convertToFP16 pc))
             (Some COMPILE_CONTEXT_MALFORMED)
             "Converting to FP16 while profiling is unsupported." ;;
      Ok tt
  | Quantize =>
      _ <~ RETURN_ERR_IF_NOT (bool_decide (is_Some (loweredInfoMap c)))
             (Some COMPILE_CONTEXT_MALFORMED)
             "In Quantization mode, but loweredInfoMap was not set." ;;
      Ok tt
  | QM_None => Ok tt
  end.

(** ** Graph.h, Backend.h and PartitionerTypes.h (interfaces) *)

(** Modelled from the spec: the graph classes are not among the sources.  A
    Node has a name, a kind and inputs; an input is a Placeholder, whose size
    in bytes is known, or anything else.  A Function is an ordered
    collection of Nodes and a Module a list of Functions.  A [Node *] is
    carried as the Node's name and a [Function *] as the Function's name:
    Glow keeps both unique within a Module. *)
Inductive NodeValue :=
| PlaceholderInput (phName : string) (sizeInBytes : Z)
| OtherInput (producer : string).

Record Node := {
  getNodeName : string;
  getKind : Kind;
  getInputs : list NodeValue;
}.

Record Function := { getName : string; getNodes : list Node }.

Record Module := { getFunctions : list Function; getConstantsSize : Z }.

Definition getFunction (m : Module) (nm : string) : option Function :=
  find (fun F => bool_decide (getName F = nm)) (getFunctions m).

(** Modelled from the spec: [Module::createFunction] is not among the
    sources; it adds a new, empty Function of the given name to the Module. *)
Definition createFunction (nm : string) (m : Module) : Module :=
  {| getFunctions := getFunctions m ++ [{| getName := nm; getNodes := [] |}];
     getConstantsSize := getConstantsSize m |}.

(** Modelled from the spec: [Module::eraseFunction] removes the Function. *)
Definition eraseFunction (nm : string) (m : Module) : Module :=
  {| getFunctions :=
       List.filter (fun F => negb (bool_decide (getName F = nm))) (getFunctions m);
     getConstantsSize := getConstantsSize m |}.

(** The Backend collaborator: its name and its two support predicates. *)
Record Backend := {
  getBackendName : string;
  shouldLower : Node -> bool;
  isOpSupported : Node -> bool;
}.

(** Modelled from the spec: [BackendInfo] is declared in PartitionerTypes.h,
    which is not among the sources.  It holds the count of devices of a
    backend, the memory size and bandwidths, the two kind sets and the
    Backend. *)
Record BackendInfo := {
  num : Z;
  memSize : Z;
  sramCapacity : Z;
  peakCompute : float;
  peakDramBw : float;
  peakSramBw : float;
  backend : option Backend;
  nonSupportedNodesKinds : KindSet;
  supportedNodesKinds : KindSet;
}.

Definition set_num (n : Z) (b : BackendInfo) : BackendInfo :=
  {| num := n; memSize := memSize b; sramCapacity := sramCapacity b;
     peakCompute := peakCompute b; peakDramBw := peakDramBw b;
     peakSramBw := peakSramBw b; backend := backend b;
     nonSupportedNodesKinds := nonSupportedNodesKinds b;
     supportedNodesKinds := supportedNodesKinds b |}.

(** What [backendMap[name]] yields for a name that is not in the map: a
    default-constructed entry, with empty kind sets and no Backend. *)
Definition BackendInfo_default : BackendInfo :=
  {| num := 0; memSize := 0; sramCapacity := 0; peakCompute := 0%float;
     peakDramBw := 0%float; peakSramBw := 0%float; backend := None;
     nonSupportedNodesKinds := ∅; supportedNodesKinds := ∅ |}.

Definition backendInfoOf (m : gmap string BackendInfo) (nm : string) : BackendInfo :=
  default BackendInfo_default (m !! nm).

(** [backendMap[name]] is [std::map::operator[]]: when the name is not a key,
    a default-constructed entry is inserted under it before the reference is
    handed out.  [backendInfoOf] is the entry that the read yields and
    [withEntry] the map that it leaves.  The entry inserted is the one that
    a read of an absent name yields, so a read sees the same values before
    and after an insertion. *)
Definition withEntry (nm : string) (m : gmap string BackendInfo) : gmap string BackendInfo :=
  match m !! nm with
  | Some _ => m
  | None => <[nm := BackendInfo_default]> m
  end.

(** Modelled from the spec: [GraphMemInfo] holds input, output and constant
    bytes; its total is their sum. *)
Record GraphMemInfo := {
  inMemSize : Z;
  outMemSize : Z;
  constMemSize : Z;
}.

Definition getTotalMemSize (g : GraphMemInfo) : Z :=
  wrap64 (inMemSize g + outMemSize g + constMemSize g).

(** [GraphMemInfo{}] *)
Definition GraphMemInfo_empty : GraphMemInfo :=
  {| inMemSize := 0; outMemSize := 0; constMemSize := 0 |}.

Abbreviation NodesSet := (gset string) (only parsing).

(** Modelled from the spec: [NodeToFunctionMap] is declared in
    PartitionerTypes.h.  It maps each Node to the sub-Function that owns it
    and keeps, per sub-Function, the backend name, the logical device IDs
    and the memory footprint, together with the list of the sub-Functions in
    the order of their creation. *)
Record NodeToFunctionMap := {
  functions_ : list string;
  nodeToFunction_ : gmap string string;
  partitionCost_ : gmap string GraphMemInfo;
  backendName_ : gmap string string;
  logicalDeviceIDMap_ : gmap string (list DeviceIDTy);
}.

Definition NodeToFunctionMap_empty : NodeToFunctionMap :=
  {| functions_ := []; nodeToFunction_ := ∅; partitionCost_ := ∅;
     backendName_ := ∅; logicalDeviceIDMap_ := ∅ |}.

Definition createPartition (F backendName : string) (m : NodeToFunctionMap) : NodeToFunctionMap :=
  {| functions_ := functions_ m ++ [F];
     nodeToFunction_ := nodeToFunction_ m;
     partitionCost_ := partitionCost_ m;
     backendName_ := <[F := backendName]> (backendName_ m);
     logicalDeviceIDMap_ := logicalDeviceIDMap_ m |}.

Definition add (N F : string) (m : NodeToFunctionMap) : NodeToFunctionMap :=
  {| functions_ := functions_ m;
     nodeToFunction_ := <[N := F]> (nodeToFunction_ m);
     partitionCost_ := partitionCost_ m;
     backendName_ := backendName_ m;
     logicalDeviceIDMap_ := logicalDeviceIDMap_ m |}.

Definition setGraphMemInfo (F : string) (cost : GraphMemInfo) (m : NodeToFunctionMap)
    : NodeToFunctionMap :=
  {| functions_ := functions_ m;
     nodeToFunction_ := nodeToFunction_ m;
     partitionCost_ := <[F := cost]> (partitionCost_ m);
     backendName_ := backendName_ m;
     logicalDeviceIDMap_ := logicalDeviceIDMap_ m |}.

Definition appendLogicalDeviceID (F : string) (id : DeviceIDTy) (m : NodeToFunctionMap)
    : NodeToFunctionMap :=
  {| functions_ := functions_ m;
     nodeToFunction_ := nodeToFunction_ m;
     partitionCost_ := partitionCost_ m;
     backendName_ := backendName_ m;
     logicalDeviceIDMap_ :=
       <[F := default [] (logicalDeviceIDMap_ m !! F) ++ [id]]> (logicalDeviceIDMap_ m) |}.

Definition getPartitions (m : NodeToFunctionMap) : list string := functions_ m.

Abbreviation FunctionToBackendNameMap := (gmap string string) (only parsing).
Abbreviation FunctionToNodesMap := (gmap string (gset string)) (only parsing).

(** ** Partitioner.cpp *)

(** The fields of a [Partitioner]. *)
Record Partitioner := {
  module_ : Module;
  deviceInfo_ : list DeviceInfo;
  backends_ : list Backend;
  backendHolder : list Backend;
  F_ : option string;
  backendMap_ : gmap string BackendInfo;
  memSize_ : Z;
  logicalDeviceID_ : Z;
  multiBackendNames_ : bool;
  saturateHost_ : bool;
  optimized_ : bool;
  partitionConfig_ : PartitionConfig;
}.

Definition set_module_ (m : Module) (P : Partitioner) : Partitioner :=
  {| module_ := m; deviceInfo_ := deviceInfo_ P; backends_ := backends_ P;
     backendHolder := backendHolder P; F_ := F_ P; backendMap_ := backendMap_ P;
     memSize_ := memSize_ P; logicalDeviceID_ := logicalDeviceID_ P;
     multiBackendNames_ := multiBackendNames_ P; saturateHost_ := saturateHost_ P;
     optimized_ := optimized_ P; partitionConfig_ := partitionConfig_ P |}.

Definition set_backendMap_ (bm : gmap string BackendInfo) (holder : list Backend)
    (P : Partitioner) : Partitioner :=
  {| module_ := module_ P; deviceInfo_ := deviceInfo_ P; backends_ := backends_ P;
     backendHolder := holder; F_ := F_ P; backendMap_ := bm;
     memSize_ := memSize_ P; logicalDeviceID_ := logicalDeviceID_ P;
     multiBackendNames_ := multiBackendNames_ P; saturateHost_ := saturateHost_ P;
     optimized_ := optimized_ P; partitionConfig_ := partitionConfig_ P |}.

Definition set_F_ (F : option string) (sz : Z) (P : Partitioner) : Partitioner :=
  {| module_ := module_ P; deviceInfo_ := deviceInfo_ P; backends_ := backends_ P;
     backendHolder := backendHolder P; F_ := F; backendMap_ := backendMap_ P;
     memSize_ := sz; logicalDeviceID_ := logicalDeviceID_ P;
     multiBackendNames_ := multiBackendNames_ P; saturateHost_ := saturateHost_ P;
     optimized_ := optimized_ P; partitionConfig_ := partitionConfig_ P |}.

(** A member function that may fail: it runs on the Partitioner's fields and
    leaves them as they are at the point of return, error or not. *)
Definition PM (A : Type) : Type := Partitioner -> Outcome A * Partitioner.

Definition ret {A} (a : A) : PM A := fun P => (Ok a, P).

Definition bind {A B} (c : PM A) (k : A -> PM B) : PM B :=
  fun P =>
    match c P with
    | (Ok a, P') => k a P'
    | (Err e, P') => (Err e, P')
    | (Undef u, P') => (Undef u, P')
    end.

Definition get : PM Partitioner := fun P => (Ok P, P).
Definition modify (f : Partitioner -> Partitioner) : PM unit := fun P => (Ok tt, f P).
Definition lift {A} (o : Outcome A) : PM A := fun P => (o, P).

Declare Scope pm_scope.
Delimit Scope pm_scope with pm.
Notation "x <- c ;; k" := (bind c (fun x => k))
  (at level 100, c at next level, right associativity) : pm_scope.

Local Open Scope pm_scope.

(** [Partitioner::init] *)
Definition init (P : Partitioner) : Partitioner :=
  {| module_ := module_ P; deviceInfo_ := deviceInfo_ P; backends_ := backends_ P;
     backendHolder := backendHolder P; F_ := F_ P; backendMap_ := backendMap_ P;
     memSize_ := getConstantsSize (module_ P);
     logicalDeviceID_ := 0;
     multiBackendNames_ :=
       match deviceInfo_ P with
       | [] => false
       | d0 :: rest =>
           existsb (fun d => negb (bool_decide (di_backendName d = di_backendName d0))) rest
       end;
     saturateHost_ := saturateHost_ P; optimized_ := optimized_ P;
     partitionConfig_ := partitionConfig_ P |}.

(** The two constructors: both fill in the fields they are given, leave the
    others default-constructed, and call [init]. *)
Definition Partitioner_withBackends (parent : Module) (devices : list DeviceInfo)
    (backends : list Backend) (saturateHost optimized : bool) : Partitioner :=
  init {| module_ := parent; deviceInfo_ := devices; backends_ := backends;
          backendHolder := []; F_ := None; backendMap_ := ∅; memSize_ := 0;
          logicalDeviceID_ := 0; multiBackendNames_ := false;
          saturateHost_ := saturateHost; optimized_ := optimized;
          partitionConfig_ := PartitionConfig_default |}.

Definition Partitioner_withConfig (parent : Module) (devices : list DeviceInfo)
    (saturateHost optimized : bool) (partitionConfig : PartitionConfig) : Partitioner :=
  init {| module_ := parent; deviceInfo_ := devices; backends_ := [];
          backendHolder := []; F_ := None; backendMap_ := ∅; memSize_ := 0;
          logicalDeviceID_ := 0; multiBackendNames_ := false;
          saturateHost_ := saturateHost; optimized_ := optimized;
          partitionConfig_ := partitionConfig |}.

(** [Partitioner::selectRepFunc]: the size a Function adds to [memSize] is
    that of the distinct Placeholders read by its nodes, save nodes apart. *)
Definition addPlaceholders (acc : Z * gset string) (node : Node) : Z * gset string :=
  if bool_decide (getKind node = SaveNodeKind) then acc
  else
    fold_left
      (fun '(curSize, pSet) input =>
         match input with
         | PlaceholderInput nm sz =>
             if bool_decide (nm ∈ pSet) then (curSize, pSet)
             else (wrap64 (curSize + sz), {[nm]} ∪ pSet)
         | OtherInput _ => (curSize, pSet)
         end)
      (getInputs node) acc.

Definition selectRepFunc (parent : Module) (memSize : Z) : option string * Z :=
  fold_left
    (fun '(ret, maxMemSize) F =>
       let curSize := fst (fold_left addPlaceholders (getNodes F) (memSize, ∅)) in
       if bool_decide (ret = None) || (curSize >? maxMemSize)
       then (Some (getName F), curSize)
       else (ret, maxMemSize))
    (getFunctions parent) (None, 0).

(** [Partitioner::saturateHost].  [duplications] and the new IDs are
    [unsigned]; [logical] is a [size_t]. *)
Definition newLogicalDevices (logicalDeviceCount duplications : Z)
    (logicalDevices : list DeviceIDTy) : list DeviceIDTy :=
  flat_map
    (fun logical =>
       map (fun i => wrap32 (wrap64 (logical + wrap32 (i * logicalDeviceCount))))
           (seqZ 1 (duplications - 1)))
    logicalDevices.

Definition saturateHost (deviceInfo_ : list DeviceInfo) (logicalDeviceCount : Z)
    (partitions : DAGListTy) : Outcome DAGListTy :=
  if logicalDeviceCount =? 0 then Undef DivByZero
  else
    let duplications := wrap32 (Z.of_nat (length deviceInfo_) / logicalDeviceCount) in
    if duplications <? 2 then Ok partitions
    else
      Ok (map
            (fun network =>
               {| root := root network;
                  nodes :=
                    map (fun node =>
                           set_logicalDevices
                             (logicalDevices node ++
                              newLogicalDevices logicalDeviceCount duplications
                                (logicalDevices node))
                             node)
                        (nodes network) |})
            partitions).

(** Splits a membership in an explicit list into its cases. *)
Ltac elem_cases H :=
  repeat (apply elem_of_cons in H as [->|H]); try (exfalso; inversion H; fail).

Section Flows.

Set Default Proof Using "Type".

(** The collaborators and switches that the Partitioner reaches outside the
    sources: the kind-list parser, the Backend factory, the optimizer (which
    rewrites the Function it is given and may report an error),
    [Function::verify], the BFS levelling, the memory accounting, the two
    adjustment passes, [doPartitioning], and the command-line flags. *)
Variable generateNodeKindsSet : string -> KindSet.
Variable createBackend : string -> Backend.
Variable optimizeFunction :
  Function -> Backend -> CompilationContext -> Function * option GlowErr.
Variable verifyFunction : Function -> bool.
Variable getBFSLevel : Function -> list (list Node).
Variable updateGraphMemInfoByAddingNode : NodesSet -> GraphMemInfo -> Node -> GraphMemInfo.
Variable optimizeCommunicationCost partitionsCombine :
  NodeToFunctionMap -> FunctionToNodesMap -> Module -> Z ->
  NodeToFunctionMap * FunctionToNodesMap * Module.
Variable doPartitioning :
  string -> list string -> Module -> NodeToFunctionMap -> bool -> DAGListTy * Module.
Variable profilingBackend : string.
Variable GlowEnableLoadBalancedPartitioning : bool.
Variable dumpPartition : bool.

(** [Partitioner::genBackendMap].  [i] is the index of the device at the head
    of [devs]; [n] counts the Backends created so far. *)
Fixpoint genBackendMap_loop (backends_ : list Backend) (i : Z) (devs : list DeviceInfo)
    (backendMap : gmap string BackendInfo) (backendsHolder backends : list Backend)
    (n : Z) : Outcome (gmap string BackendInfo * list Backend * list Backend) :=
  match devs with
  | [] => Ok (backendMap, backendsHolder, backends)
  | d :: devs' =>
      let backendName := di_backendName d in
      match backendMap !! backendName with
      | None =>
          let backendInfo b :=
            {| num := 1;
               memSize := availableMemory d;
               sramCapacity := di_sramCapacity d;
               peakCompute := di_peakCompute d;
               peakDramBw := di_peakDramBw d;
               peakSramBw := di_peakSramBw d;
               backend := Some b;
               nonSupportedNodesKinds := generateNodeKindsSet (nonSupportedNodes d);
               supportedNodesKinds := generateNodeKindsSet (supportedNodes d) |} in
          if negb (length backends_ =? 0)%nat then
            b <~ at_ backends_ i ;;
            genBackendMap_loop backends_ (i + 1) devs'
              (<[backendName := backendInfo b]> backendMap)
              backendsHolder (backends ++ [b]) n
          else
            let backendsHolder' := backendsHolder ++ [createBackend backendName] in
            b <~ at_ backendsHolder' n ;;
            genBackendMap_loop backends_ (i + 1) devs'
              (<[backendName := backendInfo b]> backendMap)
              backendsHolder' (backends ++ [b]) (n + 1)
      | Some info =>
          genBackendMap_loop backends_ (i + 1) devs'
            (<[backendName := set_num (wrap64 (num info + 1)) info]> backendMap)
            backendsHolder backends n
      end
  end.

Definition genBackendMap (backends_ : list Backend) (deviceInfo_ : list DeviceInfo)
    (backendMap : gmap string BackendInfo) (backendsHolder : list Backend)
    : Outcome (gmap string BackendInfo * list Backend * list Backend) :=
  genBackendMap_loop backends_ 0 deviceInfo_ backendMap backendsHolder [] 0.

(** The call [genBackendMap(backendMap_, backendHolder, backends)] made by
    every flow: it returns [backends] and updates the two fields. *)
Definition genBackendMapM : PM (list Backend) :=
  fun P =>
    match genBackendMap (backends_ P) (deviceInfo_ P) (backendMap_ P) (backendHolder P) with
    | Ok (bm, holder, backends) => (Ok backends, set_backendMap_ bm holder P)
    | Err e => (Err e, P)
    | Undef u => (Undef u, P)
    end.

(** The call [F_ = selectRepFunc(module_, memSize_)]. *)
Definition selectRepFuncM : PM unit :=
  modify (fun P =>
            let '(F, sz) := selectRepFunc (module_ P) (memSize_ P) in
            set_F_ F sz P).

(** [Partitioner::finalize].  Logging and the files written under
    [dumpPartition] are not modelled; what the dump loop reads is. *)
Definition finalize (module_ : Module) (partitions : DAGListTy)
    (mapping : NodeToFunctionMap) : Outcome unit :=
  _ <~ forEach
         (fun subF =>
            RETURN_ERR_IF_NOT (verifyFunction subF) None
              ("Conversion led to invalid function: " +:+ getName subF))
         (getFunctions module_) ;;
  if dumpPartition then
    first <~ at_ partitions 0 ;;
    forEach
      (fun node =>
         match getFunction module_ (name node) with
         | None => Err (MkErr None ("Invalid function name " +:+ name node +:+ "."))
         | Some subF => _ <~ at_ (logicalDevices node) 0 ;; Ok tt
         end)
      (nodes first)
  else Ok tt.

(** Lines 398-401: the Function is optimized for the backend unless the
    Partitioner was told it already is. *)
Definition optimizeUnlessOptimized (optimized_ : bool) (backend : option Backend)
    (cctx : CompilationContext) (F : Function) : Function * Outcome unit :=
  if optimized_ then (F, Ok tt)
  else
    match backend with
    | None => (F, Undef NullDeref)
    | Some b =>
        match optimizeFunction F b cctx with
        | (F', Some e) => (F', Err e)
        | (F', None) => (F', Ok tt)
        end
    end.

(** Lines 402-414: the root [DAG0] and its only child [DAG1]. *)
Definition wholeFunctionDAG (fname backendName : string) : DAG :=
  {| root := {| children := [NodeRef 0]; parents := []; deviceIDs := [];
                backendName := ""; logicalDevices := [0]; currentDeviceIdx := 0;
                name := fname |};
     nodes := [{| children := []; parents := [RootRef]; deviceIDs := [];
                  backendName := backendName; logicalDevices := [0];
                  currentDeviceIdx := 0; name := fname |}] |}.

(** The loop of [createDAGWithoutPartition] over the Functions of the
    Module.  It returns the Functions as the optimizer leaves them and the
    DAGs built. *)
Fixpoint createDAGWithoutPartition_loop (optimized_ : bool) (backend : option Backend)
    (backendName : string) (cctx : CompilationContext) (funcs : list Function)
    : list Function * Outcome DAGListTy :=
  match funcs with
  | [] => ([], Ok [])
  | F :: rest =>
      match optimizeUnlessOptimized optimized_ backend cctx F with
      | (F', Ok _) =>
          let '(rest', r) :=
            createDAGWithoutPartition_loop optimized_ backend backendName cctx rest in
          (F' :: rest',
           partitions <~ r ;; Ok (wholeFunctionDAG (getName F') backendName :: partitions))
      | (F', Err e) => (F' :: rest, Err e)
      | (F', Undef u) => (F' :: rest, Undef u)
      end
  end.

(** [Partitioner::createDAGWithoutPartition].  The read of line 399 inserts
    an entry only for a name that is not a key; the entry then holds no
    Backend and the dereference that follows is undefined, so the map is
    left as it is given. *)
Definition createDAGWithoutPartition (backendName : string)
    (backendMap : gmap string BackendInfo) (cctx : CompilationContext) : PM DAGListTy :=
  fun P =>
    let '(funcs, r) :=
      createDAGWithoutPartition_loop (optimized_ P)
        (backend (backendInfoOf backendMap backendName)) backendName cctx
        (getFunctions (module_ P)) in
    let P' :=
      set_module_ {| getFunctions := funcs;
                     getConstantsSize := getConstantsSize (module_ P) |} P in
    (partitions <~ r ;;
     partitions <~ (if saturateHost_ P then saturateHost (deviceInfo_ P) 1 partitions
                    else Ok partitions) ;;
     _ <~ finalize (module_ P') partitions NodeToFunctionMap_empty ;;
     Ok partitions,
     P').

(** [std::to_string] of a partition number, and the name of the k-th
    sub-Function of [F]. *)
Definition partName (F : Function) (color : Z) : string :=
  getName F +:+ "_part" +:+ pretty color.

(** [Partitioner::backendBasedPartition], lines 255-286: the search, for one
    node, of the first backend that takes it.  [None] is the loop running
    to its end.  The entries are read with [operator[]]; the map that these
    reads leave is [findBackend_map] below. *)
Fixpoint findBackend (backendMap_ : gmap string BackendInfo) (backends : list Backend)
    (N : Node) : option string :=
  match backends with
  | [] => None
  | backend :: rest =>
      let nonSupported :=
        nonSupportedNodesKinds (backendInfoOf backendMap_ (getBackendName backend)) in
      if bool_decide (getKind N ∈ nonSupported) then findBackend backendMap_ rest N
      else
        let supported :=
          supportedNodesKinds (backendInfoOf backendMap_ (getBackendName backend)) in
        if negb (bool_decide (supported = ∅)) && negb (bool_decide (getKind N ∈ supported))
        then findBackend backendMap_ rest N
        else if shouldLower backend N || isOpSupported backend N
             then Some (getBackendName backend)
             else findBackend backendMap_ rest N
  end.

(** Lines 254-289: the loop over the nodes of [F]. *)
Fixpoint assignBackends (backendMap_ : gmap string BackendInfo) (backends : list Backend)
    (nodes : list Node) (nodeToBackendName : gmap string string)
    : Outcome (gmap string string) :=
  match nodes with
  | [] => Ok nodeToBackendName
  | N :: rest =>
      let nodeToBackendName' :=
        match findBackend backendMap_ backends N with
        | Some b => <[getNodeName N := b]> nodeToBackendName
        | None => nodeToBackendName
        end in
      _ <~ RETURN_ERR_IF_NOT
             (bool_decide (is_Some (nodeToBackendName' !! getNodeName N))) None
             "Node is not supported by any of the provided backends" ;;
      assignBackends backendMap_ backends rest nodeToBackendName'
  end.

(** The map that the search of lines 255-286 leaves behind: the reads of
    lines 262 and 272 insert the entry of each Backend the search comes to,
    up to the one on which it breaks. *)
Fixpoint findBackend_map (backendMap_ : gmap string BackendInfo) (backends : list Backend)
    (N : Node) : gmap string BackendInfo :=
  match backends with
  | [] => backendMap_
  | backend :: rest =>
      let nonSupported :=
        nonSupportedNodesKinds (backendInfoOf backendMap_ (getBackendName backend)) in
      let backendMap1 := withEntry (getBackendName backend) backendMap_ in
      if bool_decide (getKind N ∈ nonSupported) then findBackend_map backendMap1 rest N
      else
        let supported :=
          supportedNodesKinds (backendInfoOf backendMap1 (getBackendName backend)) in
        let backendMap2 := withEntry (getBackendName backend) backendMap1 in
        if negb (bool_decide (supported = ∅)) && negb (bool_decide (getKind N ∈ supported))
        then findBackend_map backendMap2 rest N
        else if shouldLower backend N || isOpSupported backend N
             then backendMap2
             else findBackend_map backendMap2 rest N
  end.

(** The map that the loop of lines 254-289 leaves behind, whether it runs to
    its end or returns the error at some node. *)
Fixpoint assignBackends_map (backendMap_ : gmap string BackendInfo) (backends : list Backend)
    (nodes : list Node) (nodeToBackendName : gmap string string)
    : gmap string BackendInfo :=
  match nodes with
  | [] => backendMap_
  | N :: rest =>
      let nodeToBackendName' :=
        match findBackend backendMap_ backends N with
        | Some b => <[getNodeName N := b]> nodeToBackendName
        | None => nodeToBackendName
        end in
      let backendMap1 := findBackend_map backendMap_ backends N in
      if bool_decide (is_Some (nodeToBackendName' !! getNodeName N))
      then assignBackends_map backendMap1 backends rest nodeToBackendName'
      else backendMap1
  end.

(** The state of the walk of lines 307-327. *)
Record ColourState := {
  cs_module : Module;
  cs_backendName : string;
  cs_newF : string;
  cs_color : Z;
  cs_mapping : NodeToFunctionMap;
  cs_funcToBackend : FunctionToBackendNameMap;
}.

(** Lines 298-306 and 315-323: the new sub-Function is recorded under the
    profiling backend when profiling, under [backendName] otherwise. *)
Definition recordPartition (cctx : CompilationContext) (newF backendName : string)
    (mapping : NodeToFunctionMap) (funcToBackend : FunctionToBackendNameMap)
    : NodeToFunctionMap * FunctionToBackendNameMap :=
  if isProfile cctx
  then (createPartition newF profilingBackend mapping, <[newF := profilingBackend]> funcToBackend)
  else (createPartition newF backendName mapping, <[newF := backendName]> funcToBackend).

Definition colourStep (cctx : CompilationContext) (F : Function)
    (nodeToBackendName : gmap string string) (st : ColourState) (N : Node) : ColourState :=
  let bk := default "" (nodeToBackendName !! getNodeName N) in
  let st' :=
    if negb (bool_decide (bk = cs_backendName st)) then
      let color := cs_color st + 1 in
      let newF := partName F color in
      let '(mapping, funcToBackend) :=
        recordPartition cctx newF bk (cs_mapping st) (cs_funcToBackend st) in
      {| cs_module := createFunction newF (cs_module st);
         cs_backendName := bk; cs_newF := newF; cs_color := color;
         cs_mapping := mapping; cs_funcToBackend := funcToBackend |}
    else st in
  {| cs_module := cs_module st'; cs_backendName := cs_backendName st';
     cs_newF := cs_newF st'; cs_color := cs_color st';
     cs_mapping := add (getNodeName N) (cs_newF st') (cs_mapping st');
     cs_funcToBackend := cs_funcToBackend st' |}.

(** The order of the two nested loops over the BFS levels: last level first,
    each level from its first node on. *)
Definition leavesFirst (bfs : list (list Node)) : list Node := concat (reverse bfs).

(** Lines 250-342 of [backendBasedPartition]: all of it but the closing call
    of [doPartitioning]. *)
Definition backendBasedMapping (backendMap_ : gmap string BackendInfo) (module_ : Module)
    (funcToBackend : FunctionToBackendNameMap) (F : Function) (backends : list Backend)
    (cctx : CompilationContext)
    : Outcome (NodeToFunctionMap * FunctionToBackendNameMap * Module) :=
  nodeToBackendName <~ assignBackends backendMap_ backends (getNodes F) ∅ ;;
  let bfs := getBFSLevel F in
  let level := Z.of_nat (length bfs) in
  let color := 1 in
  let newF := partName F color in
  let module1 := createFunction newF module_ in
  lastLevel <~ at_ bfs (level - 1) ;;
  N0 <~ at_ lastLevel 0 ;;
  let backendName := default "" (nodeToBackendName !! getNodeName N0) in
  let '(mapping, funcToBackend1) :=
    recordPartition cctx newF backendName NodeToFunctionMap_empty funcToBackend in
  let st :=
    fold_left (colourStep cctx F nodeToBackendName) (leavesFirst bfs)
      {| cs_module := module1; cs_backendName := backendName; cs_newF := newF;
         cs_color := color; cs_mapping := mapping; cs_funcToBackend := funcToBackend1 |} in
  let genDAG := isProfile cctx in
  let mapping' :=
    if genDAG then
      fst (fold_left
             (fun '(m, logicalDeviceID) func =>
                (appendLogicalDeviceID func logicalDeviceID m, wrap64 (logicalDeviceID + 1)))
             (getPartitions (cs_mapping st)) (cs_mapping st, 0))
    else cs_mapping st in
  Ok (mapping', cs_funcToBackend st, cs_module st).

(** [Partitioner::backendBasedPartition].  The updated [funcToBackend] is
    returned next to the DAGs.  The node loop reads [backendMap_] with
    [operator[]]: whatever the outcome, the field holds afterwards the
    entries that these reads inserted.  The values they yield do not depend
    on the entries inserted on the way ([findBackend_threaded] and
    [assignBackends_threaded] below), so [backendBasedMapping] computes them
    on the map as it was. *)
Definition backendBasedPartition (funcToBackend : FunctionToBackendNameMap) (F : Function)
    (backends : list Backend) (cctx : CompilationContext)
    : PM (DAGListTy * FunctionToBackendNameMap) :=
  fun P =>
    let P1 :=
      set_backendMap_ (assignBackends_map (backendMap_ P) backends (getNodes F) ∅)
        (backendHolder P) P in
    match backendBasedMapping (backendMap_ P) (module_ P) funcToBackend F backends cctx with
    | Ok (mapping, funcToBackend', module1) =>
        let genDAG := isProfile cctx in
        let '(partitions, module2) :=
          doPartitioning (getName F) [getName F] module1 mapping genDAG in
        (Ok (partitions, funcToBackend'), set_module_ module2 P1)
    | Err e => (Err e, P1)
    | Undef u => (Undef u, P1)
    end.

(** [Partitioner::partitionsAdjust] *)
Definition partitionsAdjust (partitions : NodeToFunctionMap) (availableMemory : Z)
    (module_ : Module) : NodeToFunctionMap * Module :=
  let nodesSet : FunctionToNodesMap :=
    map_fold (fun N F (acc : FunctionToNodesMap) => <[F := {[N]} ∪ default ∅ (acc !! F)]> acc)
             ∅ (nodeToFunction_ partitions) in
  let '(partitions1, nodesSet1, module1) :=
    optimizeCommunicationCost partitions nodesSet module_ availableMemory in
  let '(partitions2, _, module2) :=
    partitionsCombine partitions1 nodesSet1 module1 availableMemory in
  (partitions2, module2).

(** The state of the walk of [selectPartitions], lines 193-212. *)
Record CutState := {
  cut_module : Module;
  cut_color : Z;
  cut_newF : string;
  cut_currentPartition : NodesSet;
  cut_graphMem : GraphMemInfo;
  cut_mapping : NodeToFunctionMap;
}.

Definition cutStep (F : Function) (availableMemory : Z) (backendName : string)
    (st : CutState) (N : Node) : CutState :=
  let graphMem :=
    updateGraphMemInfoByAddingNode (cut_currentPartition st) (cut_graphMem st) N in
  let st' :=
    if getTotalMemSize graphMem >? availableMemory then
      let color := cut_color st + 1 in
      let newF := partName F color in
      {| cut_module := createFunction newF (cut_module st);
         cut_color := color; cut_newF := newF;
         cut_currentPartition := ∅;
         cut_graphMem := updateGraphMemInfoByAddingNode ∅ GraphMemInfo_empty N;
         cut_mapping := createPartition newF backendName (cut_mapping st) |}
    else
      {| cut_module := cut_module st; cut_color := cut_color st; cut_newF := cut_newF st;
         cut_currentPartition := cut_currentPartition st;
         cut_graphMem := graphMem;
         cut_mapping := cut_mapping st |} in
  {| cut_module := cut_module st'; cut_color := cut_color st'; cut_newF := cut_newF st';
     cut_currentPartition := {[getNodeName N]} ∪ cut_currentPartition st';
     cut_graphMem := cut_graphMem st';
     cut_mapping :=
       setGraphMemInfo (cut_newF st') (cut_graphMem st')
         (add (getNodeName N) (cut_newF st') (cut_mapping st')) |}.

(** Lines 180-191: the state before the walk, with [<F>_part1] created. *)
Definition cutStart (F : Function) (backendName : string) (module_ : Module) : CutState :=
  let newF := partName F 1 in
  {| cut_module := createFunction newF module_;
     cut_color := 1; cut_newF := newF;
     cut_currentPartition := ∅;
     cut_graphMem := GraphMemInfo_empty;
     cut_mapping := createPartition newF backendName NodeToFunctionMap_empty |}.

(** Step 1 of [selectPartitions] over the nodes in the order given. *)
Definition initialCut (F : Function) (availableMemory : Z) (backendName : string)
    (module_ : Module) (order : list Node) : CutState :=
  fold_left (cutStep F availableMemory backendName) order (cutStart F backendName module_).


(** The message of the checks that a flow sees exactly one Function. *)
Definition oneFunctionMsg (count : nat) (flow : string) : string :=
  "Invalid : " +:+ pretty (Z.of_nat count) +:+ " functions in a module. " +:+ flow +:+
  " partition flow, the module can only contain 1 function".

Definition checkOneFunction (flow : string) : PM unit :=
  fun P =>
    (RETURN_ERR_IF_NOT (length (getFunctions (module_ P)) =? 1)%nat None
       (oneFunctionMsg (length (getFunctions (module_ P))) flow),
     P).

(** A use of [F_->...]: undefined when [F_] is null. *)
Definition derefF_ : PM Function :=
  fun P =>
    match F_ P with
    | None => (Undef NullDeref, P)
    | Some nm =>
        match getFunction (module_ P) nm with
        | Some F => (Ok F, P)
        | None => (Undef NullDeref, P)
        end
    end.

(** Lines 624-629: every Function of the Module is optimized for [backend]
    unless the Partitioner was told they already are. *)
Fixpoint optimizeEach_loop (optimized_ : bool) (backend : Backend)
    (cctx : CompilationContext) (funcs : list Function) : list Function * Outcome unit :=
  match funcs with
  | [] => ([], Ok tt)
  | subF :: rest =>
      match optimizeUnlessOptimized optimized_ (Some backend) cctx subF with
      | (subF', Ok _) =>
          let '(rest', r) := optimizeEach_loop optimized_ backend cctx rest in
          (subF' :: rest', r)
      | (subF', Err e) => (subF' :: rest, Err e)
      | (subF', Undef u) => (subF' :: rest, Undef u)
      end
  end.

Definition optimizeEach (backend : Backend) (cctx : CompilationContext) : PM unit :=
  fun P =>
    let '(funcs, r) :=
      optimizeEach_loop (optimized_ P) backend cctx (getFunctions (module_ P)) in
    (r, set_module_ {| getFunctions := funcs;
                       getConstantsSize := getConstantsSize (module_ P) |} P).

Definition eraseFunctionM (F : Function) : PM unit :=
  modify (fun P => set_module_ (eraseFunction (getName F) (module_ P)) P).

(** [Partitioner::quantizationProfilingPartition] *)
Definition quantizationProfilingPartition (cctx : CompilationContext) : PM DAGListTy :=
  _ <- checkOneFunction "In quantization profiling" ;;
  backends <- genBackendMapM ;;
  _ <- selectRepFuncM ;;
  F <- derefF_ ;;
  r <- backendBasedPartition ∅ F backends cctx ;;
  _ <- eraseFunctionM F ;;
  _ <- optimizeEach (createBackend profilingBackend) cctx ;;
  ret (fst r).

(** What the sources leave to the remainder of three flows: steps 2 to 6 of
    [heterogeneousPartition] (lines 689-743), the load-balancing proper of
    [loadBalancedPartition] (lines 441-597), and [partitionFromConfig] once
    the Function has been found (lines 756-835).  Their results are not
    constrained here.  [defaultNumDevices] is the default argument with
    which [partition] calls [loadBalancedPartition]. *)
Variable heterogeneousSteps :
  FunctionToBackendNameMap -> list Backend -> string -> DAGListTy ->
  CompilationContext -> PM DAGListTy.
Variable loadBalancedSteps : CompilationContext -> Z -> PM DAGListTy.
Variable partitionFromConfigSteps :
  PartitionConfig -> Function -> list Backend -> PM DAGListTy.
Variable defaultNumDevices : Z.

(** The read [backendMap_[name]] of a member function: it yields the entry
    and leaves it in the field. *)
Definition backendMapAt (nm : string) : PM BackendInfo :=
  fun P =>
    (Ok (backendInfoOf (backendMap_ P) nm),
     set_backendMap_ (withEntry nm (backendMap_ P)) (backendHolder P) P).

(** [Partitioner::heterogeneousPartition], step 0 and step 1. *)
Definition heterogeneousPartition (cctx : CompilationContext) : PM DAGListTy :=
  backends <- genBackendMapM ;;
  _ <- selectRepFuncM ;;
  F <- derefF_ ;;
  let origName := getName F in
  if (length backends =? 1)%nat then
    backend0 <- lift (at_ backends 0) ;;
    let backendName := getBackendName backend0 in
    let funcToBackend : FunctionToBackendNameMap := {[ getName F := backendName ]} in
    info <- backendMapAt backendName ;;
    P <- get ;;
    if memSize_ P <? memSize info then
      createDAGWithoutPartition backendName (backendMap_ P) cctx
    else
      _ <- checkOneFunction "Now in heterogeneous" ;;
      heterogeneousSteps funcToBackend backends origName [] cctx
  else
    _ <- checkOneFunction "Now in heterogeneous" ;;
    r <- backendBasedPartition ∅ F backends cctx ;;
    _ <- eraseFunctionM F ;;
    heterogeneousSteps (snd r) backends origName (fst r) cctx.

(** [Partitioner::loadBalancedPartition], up to line 440. *)
Definition loadBalancedPartition (cctx : CompilationContext) (numDevices : Z)
    : PM DAGListTy :=
  _ <- checkOneFunction "Now in load-balanced" ;;
  P <- get ;;
  if multiBackendNames_ P then heterogeneousPartition cctx
  else loadBalancedSteps cctx numDevices.

(** [Partitioner::partitionFromConfig], up to line 754.  When the Function
    is not found, the message of the error is built from [F->getName()] with
    [F] null. *)
Definition partitionFromConfig (partitionConfig : PartitionConfig) : PM DAGListTy :=
  backends <- genBackendMapM ;;
  P <- get ;;
  match getFunction (module_ P) (funcName partitionConfig) with
  | None => lift (Undef NullDeref)
  | Some F => partitionFromConfigSteps partitionConfig F backends
  end.

(** [Partitioner::partition] *)
Definition partition (cctx : CompilationContext) : PM DAGListTy :=
  fun P =>
    if enabled (partitionConfig_ P) then partitionFromConfig (partitionConfig_ P) P
    else if isProfile cctx then quantizationProfilingPartition cctx P
    else if negb (multiBackendNames_ P) && GlowEnableLoadBalancedPartitioning
         then loadBalancedPartition cctx defaultNumDevices P
         else heterogeneousPartition cctx P.

(** Lines 761-800 of [partitionFromConfig]: the partition map built from the
    user's [PartitionConfig] once the Function has been found.  A
    [Function *] and a [Node *] are carried as names.  The [DCHECK]s, which
    a release build leaves out, are not modelled. *)
Fixpoint foldOutcome {S A} (f : S -> A -> Outcome S) (l : list A) (s : S) : Outcome S :=
  match l with
  | [] => Ok s
  | x :: l' => s' <~ f s x ;; foldOutcome f l' s'
  end.

Record ConfigState := {
  cf_module : Module;
  cf_partitionMap : NodeToFunctionMap;
  cf_funcList : list string;
  cf_unused : gset Z;
  cf_nodesSets : list NodesSet;
  cf_unMapped : list string;
}.

(** Lines 766-771: the i-th partition is created under the i-th name and
    backend name. *)
Definition configCreateStep (cfg : PartitionConfig) (st : ConfigState) (i : Z)
    : Outcome ConfigState :=
  partitionName <~ at_ (partitionNames cfg) i ;;
  backendName <~ at_ (backendNames cfg) i ;;
  Ok {| cf_module := createFunction partitionName (cf_module st);
        cf_partitionMap := createPartition partitionName backendName (cf_partitionMap st);
        cf_funcList := cf_funcList st ++ [partitionName];
        cf_unused := {[i]} ∪ cf_unused st;
        cf_nodesSets := cf_nodesSets st;
        cf_unMapped := cf_unMapped st |}.

(** Lines 797-798: an unmapped node joins the partition [partitionID]. *)
Definition configAddNode (partitionID : Z) (node : string) (st : ConfigState)
    : Outcome ConfigState :=
  newF <~ at_ (cf_funcList st) partitionID ;;
  nodesSet <~ at_ (cf_nodesSets st) partitionID ;;
  Ok {| cf_module := cf_module st;
        cf_partitionMap := add node newF (cf_partitionMap st);
        cf_funcList := cf_funcList st;
        cf_unused := cf_unused st;
        cf_nodesSets := <[Z.to_nat partitionID := {[node]} ∪ nodesSet]> (cf_nodesSets st);
        cf_unMapped := cf_unMapped st |}.

(** Lines 775-789: a node the config names joins its partition, which is no
    longer unused; any other node is put aside. *)
Definition configMapStep (cfg : PartitionConfig) (st : ConfigState) (node : Node)
    : Outcome ConfigState :=
  match nodeToPartition cfg !! getNodeName node with
  | None =>
      Ok {| cf_module := cf_module st; cf_partitionMap := cf_partitionMap st;
            cf_funcList := cf_funcList st; cf_unused := cf_unused st;
            cf_nodesSets := cf_nodesSets st;
            cf_unMapped := cf_unMapped st ++ [getNodeName node] |}
  | Some partitionID =>
      newF <~ at_ (cf_funcList st) partitionID ;;
      let st1 :=
        {| cf_module := cf_module st;
           cf_partitionMap := add (getNodeName node) newF (cf_partitionMap st);
           cf_funcList := cf_funcList st;
           cf_unused := cf_unused st ∖ {[partitionID]};
           cf_nodesSets := cf_nodesSets st;
           cf_unMapped := cf_unMapped st |} in
      nodesSet <~ at_ (cf_nodesSets st1) partitionID ;;
      Ok {| cf_module := cf_module st1; cf_partitionMap := cf_partitionMap st1;
            cf_funcList := cf_funcList st1; cf_unused := cf_unused st1;
            cf_nodesSets :=
              <[Z.to_nat partitionID := {[getNodeName node]} ∪ nodesSet]> (cf_nodesSets st1);
            cf_unMapped := cf_unMapped st1 |}
  end.

(** [*(unused.begin())]: undefined on an empty set.  Which element a
    [std::unordered_set] with several holds first is the library's choice;
    here it is the first of [elements]. *)
Definition unorderedBegin (s : gset Z) : Outcome Z :=
  match elements s with
  | [] => Undef OutOfRange
  | x :: _ => Ok x
  end.

Definition configMapping (cfg : PartitionConfig) (F : Function) (module_ : Module)
    : Outcome ConfigState :=
  st <~ foldOutcome (configCreateStep cfg) (seqZ 0 (numOfPartitions cfg))
          {| cf_module := module_; cf_partitionMap := NodeToFunctionMap_empty;
             cf_funcList := []; cf_unused := ∅;
             cf_nodesSets := replicate (Z.to_nat (numOfPartitions cfg)) ∅;
             cf_unMapped := [] |} ;;
  st <~ foldOutcome (configMapStep cfg) (getNodes F) st ;;
  if negb (length (cf_unMapped st) =? 0)%nat then
    partitionID <~ unorderedBegin (cf_unused st) ;;
    foldOutcome (fun st node => configAddNode partitionID node st) (cf_unMapped st) st
  else Ok st.

(** ** Vocabulary of the statements *)

Definition keyLt (a b : InferRequest) : Prop :=
  priority a < priority b \/ (priority a = priority b /\ requestID a < requestID b).

Definition whitelistOk (c : CompilationContext) : Prop :=
  useSetAsWhitelist (precisionConfig c) = true -> convertToFP16 (precisionConfig c) = true.

Definition quantOk (c : CompilationContext) : Prop :=
  match quantMode (precisionConfig c) with
  | Profile => is_Some (bindings c) /\ is_Some (loweredInfoMap c) /\
               convertToFP16 (precisionConfig c) = false
  | Quantize => is_Some (loweredInfoMap c)
  | QM_None => True
  end.

(** The logical devices of a node after saturation, overflow apart. *)
Definition extendedDevices (D k : Z) (node : DAGNode) : list DeviceIDTy :=
  logicalDevices node ++
  flat_map (fun L => map (fun i => L + i * k) (seqZ 1 (D / k - 1))) (logicalDevices node).

Definition countName (b : string) (devs : list DeviceInfo) : nat :=
  length (List.filter (fun d => bool_decide (di_backendName d = b)) devs).

Definition firstDevice (b : string) (devs : list DeviceInfo) : option DeviceInfo :=
  find (fun d => bool_decide (di_backendName d = b)) devs.

Definition bump (c : nat) (x : Z) : Z := Nat.iter c (fun y => wrap64 (y + 1)) x.
Arguments bump : simpl never.

Definition allSameBackend (devices : list DeviceInfo) : Prop :=
  forall d1 d2, d1 ∈ devices -> d2 ∈ devices -> di_backendName d1 = di_backendName d2.

(** The DAG of a Function that is not split: the root and its one child,
    which holds the logical devices given. *)
Definition unsplitDAG (fname backendName : string) (childDevices : list DeviceIDTy) : DAG :=
  {| root := {| children := [NodeRef 0]; parents := []; deviceIDs := [];
                backendName := ""; logicalDevices := [0]; currentDeviceIdx := 0;
                name := fname |};
     nodes := [{| children := []; parents := [RootRef]; deviceIDs := [];
                  backendName := backendName; logicalDevices := childDevices;
                  currentDeviceIdx := 0; name := fname |}] |}.

(** The Backend that [genBackendMap] takes for the first device: the first
    of those handed in, or the one the factory creates when none is. *)
Definition firstBackendOf (P : Partitioner) (d0 : DeviceInfo) (B : Backend) : Prop :=
  (backends_ P = [] /\ backendHolder P = [] /\ B = createBackend (di_backendName d0)) \/
  (exists bs, backends_ P = B :: bs).

(** The map [m'] is [m] with default entries added under names of the
    Backends given: every name has the entry it had, or had none and now
    has the default one, and is the name of one of the Backends. *)
Definition defaultsAdded (backends : list Backend) (m m' : gmap string BackendInfo) : Prop :=
  forall nm,
    m' !! nm = m !! nm \/
    (m !! nm = None /\ m' !! nm = Some BackendInfo_default /\
     exists B, B ∈ backends /\ getBackendName B = nm).

(** A backend takes a node: the node's kind is not among the kinds the
    backend excludes, it is among the kinds the backend lists if it lists
    any, and the backend lowers the node or supports it. *)
Definition accepts (backendMap_ : gmap string BackendInfo) (B : Backend) (N : Node) : Prop :=
  let info := backendInfoOf backendMap_ (getBackendName B) in
  (getKind N ∉ nonSupportedNodesKinds info) /\
  (supportedNodesKinds info = ∅ \/ getKind N ∈ supportedNodesKinds info) /\
  (shouldLower B N = true \/ isOpSupported B N = true).

Definition notSupportedErr : GlowErr :=
  MkErr None "Node is not supported by any of the provided backends".

(** The search of a backend for [N] comes to [B]: no Backend before [B], in
    the order given, has taken [N]. *)
Definition asked (backendMap_ : gmap string BackendInfo) (backends : list Backend)
    (N : Node) (B : Backend) : Prop :=
  exists pre post,
    backends = pre ++ B :: post /\ forall B', B' ∈ pre -> ~ accepts backendMap_ B' N.

(** The map [m'] is [m] after reads of the entries of the Backends that
    satisfy [Q]: a name that had an entry keeps it; a name that had none
    has the default entry if it is the name of such a Backend, and still
    has none otherwise. *)
Definition entriesAdded (Q : Backend -> Prop) (m m' : gmap string BackendInfo) : Prop :=
  forall nm,
    (m' !! nm = m !! nm /\
     (m !! nm = None -> forall B, Q B -> getBackendName B <> nm)) \/
    (m !! nm = None /\ m' !! nm = Some BackendInfo_default /\
     exists B, Q B /\ getBackendName B = nm).

(** The backend the walk reads for a node. *)
Definition backendOfNode (nodeToBackendName : gmap string string) (N : Node) : string :=
  default "" (nodeToBackendName !! getNodeName N).

(** What holds of the walk of lines 307-327 after the nodes [processed],
    outside profiling: the current sub-Function is the last one created and
    is recorded under the current backend; the recorded sub-Functions are
    [<F>_part1] to [<F>_part<color>]; each processed node sits in a
    sub-Function recorded under the node's backend. *)
Definition colourInv (F : Function) (nodeToBackendName : gmap string string)
    (processed : list Node) (st : ColourState) : Prop :=
  1 <= cs_color st /\
  cs_newF st = partName F (cs_color st) /\
  backendName_ (cs_mapping st) !! cs_newF st = Some (cs_backendName st) /\
  (forall fn, is_Some (backendName_ (cs_mapping st) !! fn) ->
              exists k, 1 <= k <= cs_color st /\ fn = partName F k) /\
  (forall N, N ∈ processed ->
     exists fn, nodeToFunction_ (cs_mapping st) !! getNodeName N = Some fn /\
                backendName_ (cs_mapping st) !! fn =
                  Some (backendOfNode nodeToBackendName N)).

(** What holds of the walk of [selectPartitions] after the nodes
    [processed]: the sub-Functions created so far are [<F>_part1] to
    [<F>_part<color>], in this order, both in the Module (after the Functions
    it had) and in the mapping; the current one is the last; every processed
    node is mapped to one of them. *)
Definition cutInv (F : Function) (module_ : Module) (processed : list Node)
    (st : CutState) : Prop :=
  1 <= cut_color st /\
  cut_newF st = partName F (cut_color st) /\
  map getName (getFunctions (cut_module st)) =
    map getName (getFunctions module_) ++ map (partName F) (seqZ 1 (cut_color st)) /\
  functions_ (cut_mapping st) = map (partName F) (seqZ 1 (cut_color st)) /\
  (forall N, N ∈ processed ->
     exists k, 1 <= k <= cut_color st /\
               nodeToFunction_ (cut_mapping st) !! getNodeName N = Some (partName F k)).



(** The devices that [k] calls of [getNextDevice] in a row hand out, and
    the node after them. *)
Fixpoint getNextDevices (k : nat) (n : DAGNode) : Outcome (list DeviceIDTy * DAGNode) :=
  match k with
  | O => Ok ([], n)
  | S k' =>
      r <~ getNextDevice n ;;
      rs <~ getNextDevices k' (snd r) ;;
      Ok (fst r :: fst rs, snd rs)
  end.

(** The first of the entries of each key that is not in [seen], in the
    order of the list. *)
Fixpoint firstOfEach {A} (key : A -> string) (seen : gset string) (l : list A) : list A :=
  match l with
  | [] => []
  | x :: rest =>
      if bool_decide (key x ∈ seen) then firstOfEach key seen rest
      else x :: firstOfEach key ({[key x]} ∪ seen) rest
  end.

(** The size that [selectRepFunc] computes for one Function. *)
Definition estimate (memSize : Z) (F : Function) : Z :=
  fst (fold_left addPlaceholders (getNodes F) (memSize, ∅)).

(** The Placeholders that the nodes of a Function read, Save nodes apart, in
    the order in which they are read: name and size in bytes. *)
Definition placeholderReadsOf (node : Node) : list (string * Z) :=
  if bool_decide (getKind node = SaveNodeKind) then []
  else omap (fun input =>
               match input with
               | PlaceholderInput nm sz => Some (nm, sz)
               | OtherInput _ => None
               end)
            (getInputs node).

Definition placeholderReads (F : Function) : list (string * Z) :=
  flat_map placeholderReadsOf (getNodes F).

Definition sumZ (l : list Z) : Z := fold_right Z.add 0 l.

(** What holds of the walk of lines 307-327 after the nodes [processed], in
    either mode: the sub-Functions created so far are [<F>_part1] to
    [<F>_part<color>], in this order, in the mapping and in the Module (after
    the Functions it had); there are at most one more than nodes visited;
    none has a logical device yet. *)
Definition countInv (F : Function) (module_ : Module) (processed : list Node)
    (st : ColourState) : Prop :=
  1 <= cs_color st <= 1 + Z.of_nat (length processed) /\
  cs_newF st = partName F (cs_color st) /\
  functions_ (cs_mapping st) = map (partName F) (seqZ 1 (cs_color st)) /\
  map getName (getFunctions (cs_module st)) =
    map getName (getFunctions module_) ++ map (partName F) (seqZ 1 (cs_color st)) /\
  logicalDeviceIDMap_ (cs_mapping st) = ∅.

(** What holds besides when the walk started under the backend [b0] and no
    two nodes share a name: the node visited last sits in the current
    sub-Function, a first node of backend [b0] sits in [<F>_part1], and
    from a node to the next the number of the sub-Function goes up by one
    exactly when the backend changes. *)
Definition numberingInv (F : Function) (nodeToBackendName : gmap string string)
    (b0 : string) (processed : list Node) (st : ColourState) : Prop :=
  match last processed with
  | None => cs_color st = 1 /\ cs_backendName st = b0
  | Some N =>
      cs_backendName st = backendOfNode nodeToBackendName N /\
      nodeToFunction_ (cs_mapping st) !! getNodeName N = Some (partName F (cs_color st))
  end /\
  (forall N rest,
     processed = N :: rest -> backendOfNode nodeToBackendName N = b0 ->
     nodeToFunction_ (cs_mapping st) !! getNodeName N = Some (partName F 1)) /\
  (forall pre N M post,
     processed = pre ++ N :: M :: post ->
     exists c,
       1 <= c /\
       nodeToFunction_ (cs_mapping st) !! getNodeName N = Some (partName F c) /\
       nodeToFunction_ (cs_mapping st) !! getNodeName M =
         Some (partName F
                 (if bool_decide (backendOfNode nodeToBackendName M =
                                  backendOfNode nodeToBackendName N)
                  then c else c + 1))).

(** What holds of the same walk when profiling: every sub-Function created
    so far is recorded under the profiling backend, in the mapping and in
    [funcToBackend]. *)
Definition profilingInv (F : Function) (st : ColourState) : Prop :=
  forall i, 1 <= i <= cs_color st ->
    backendName_ (cs_mapping st) !! partName F i = Some profilingBackend /\
    cs_funcToBackend st !! partName F i = Some profilingBackend.

(** Lines 337-342: the logical device IDs given to the partitions when the
    DAG is generated. *)
Definition assignProfilingIDs (mapping : NodeToFunctionMap) : NodeToFunctionMap :=
  fst (fold_left
         (fun '(m, logicalDeviceID) func =>
            (appendLogicalDeviceID func logicalDeviceID m, wrap64 (logicalDeviceID + 1)))
         (getPartitions mapping) (mapping, 0)).

(** The state in which the walk of [backendBasedPartition] starts. *)
Definition colourStart (cctx : CompilationContext) (F : Function) (module_ : Module)
    (funcToBackend : FunctionToBackendNameMap) (backendName : string) : ColourState :=
  {| cs_module := createFunction (partName F 1) module_;
     cs_backendName := backendName;
     cs_newF := partName F 1;
     cs_color := 1;
     cs_mapping :=
       fst (recordPartition cctx (partName F 1) backendName NodeToFunctionMap_empty
              funcToBackend);
     cs_funcToBackend :=
       snd (recordPartition cctx (partName F 1) backendName NodeToFunctionMap_empty
              funcToBackend) |}.

(** What holds of the walk of [selectPartitions] after the nodes
    [processed] when every node fits the memory on its own: every footprint
    recorded fits, and once a node has been visited every sub-Function
    created has a footprint recorded. *)
Definition fitInv (F : Function) (availableMemory : Z) (processed : list Node)
    (st : CutState) : Prop :=
  (forall fn g, partitionCost_ (cut_mapping st) !! fn = Some g ->
                getTotalMemSize g <= availableMemory) /\
  (processed = [] ->
   cut_color st = 1 /\ cut_currentPartition st = ∅ /\ cut_graphMem st = GraphMemInfo_empty) /\
  (processed <> [] ->
   forall k, 1 <= k <= cut_color st ->
     is_Some (partitionCost_ (cut_mapping st) !! partName F k)).

(** The number of the sub-Function that takes the first node of the walk. *)
Definition firstCut (availableMemory : Z) (N0 : Node) : Z :=
  if getTotalMemSize (updateGraphMemInfoByAddingNode ∅ GraphMemInfo_empty N0)
       >? availableMemory
  then 2 else 1.

(** What holds of the same walk when no two nodes share a name: the node
    visited last sits in the current sub-Function; from a node to the next
    the number of the sub-Function stays or goes up by one; the first node
    sits in [<F>_part1], or in [<F>_part2] when it exceeds the memory on its
    own, and no node sits in a sub-Function of a smaller number. *)
Definition cutNumberingInv (F : Function) (availableMemory : Z) (processed : list Node)
    (st : CutState) : Prop :=
  match last processed with
  | None =>
      cut_color st = 1 /\ cut_currentPartition st = ∅ /\
      cut_graphMem st = GraphMemInfo_empty
  | Some N =>
      nodeToFunction_ (cut_mapping st) !! getNodeName N = Some (partName F (cut_color st))
  end /\
  (forall N0 rest,
     processed = N0 :: rest ->
     nodeToFunction_ (cut_mapping st) !! getNodeName N0 =
       Some (partName F (firstCut availableMemory N0)) /\
     forall N, N ∈ processed ->
       exists k, firstCut availableMemory N0 <= k <= cut_color st /\
                 nodeToFunction_ (cut_mapping st) !! getNodeName N = Some (partName F k)) /\
  (forall pre N M post,
     processed = pre ++ N :: M :: post ->
     exists c,
       1 <= c /\
       nodeToFunction_ (cut_mapping st) !! getNodeName N = Some (partName F c) /\
       (nodeToFunction_ (cut_mapping st) !! getNodeName M = Some (partName F c) \/
        nodeToFunction_ (cut_mapping st) !! getNodeName M = Some (partName F (c + 1)))).

(** The nodes of [F] that the config maps to no partition, the partitions to
    which it maps no node of [F], and what [partitionFromConfig] needs of a
    config to build its partition map: a name and a backend name for each
    partition, partition IDs below the number of partitions, and a partition
    left for the nodes that are not mapped, if there are any. *)
Definition unMappedNodes (cfg : PartitionConfig) (F : Function) : list Node :=
  List.filter (fun node => bool_decide (nodeToPartition cfg !! getNodeName node = None))
    (getNodes F).

Definition unusedPartitions (cfg : PartitionConfig) (F : Function) : gset Z :=
  list_to_set (seqZ 0 (numOfPartitions cfg)) ∖
  list_to_set (omap (fun node => nodeToPartition cfg !! getNodeName node) (getNodes F)).

Definition usableConfig (cfg : PartitionConfig) (F : Function) : Prop :=
  (Z.to_nat (numOfPartitions cfg) <= length (partitionNames cfg))%nat /\
  (Z.to_nat (numOfPartitions cfg) <= length (backendNames cfg))%nat /\
  (forall node id,
     node ∈ getNodes F -> nodeToPartition cfg !! getNodeName node = Some id ->
     0 <= id < numOfPartitions cfg) /\
  (unMappedNodes cfg F = [] \/ unusedPartitions cfg F <> ∅).

(** Lines 164-167 of [partitionsAdjust]: the node set of each partition. *)
Definition nodeSetsOf (partitions : NodeToFunctionMap) : FunctionToNodesMap :=
  map_fold (fun N F (acc : FunctionToNodesMap) => <[F := {[N]} ∪ default ∅ (acc !! F)]> acc)
           ∅ (nodeToFunction_ partitions).

(** ** Example inputs *)

(** Stand-ins for the collaborators: a parser that knows two kind lists, a
    Backend factory whose Backends support every node, an optimizer and a
    verifier that accept everything, BFS levels of one node each with the
    last node of the Function first, an accounting of 10 bytes per node, and
    adjustment passes that change nothing. *)
Definition exDevice (nm : string) (mem : Z) : DeviceInfo :=
  {| availableMemory := mem; di_backendName := nm; nonSupportedNodes := "";
     supportedNodes := ""; di_sramCapacity := 0; di_peakCompute := 0%float;
     di_peakDramBw := 0%float; di_peakSramBw := 0%float; peakPCIeBw := 0%float |}.

Definition exBackend (nm : string) : Backend :=
  {| getBackendName := nm; shouldLower := fun _ => false; isOpSupported := fun _ => true |}.

Definition exKinds (s : string) : gset Kind :=
  if String.eqb s "Convolution,Relu" then {[ConvolutionNodeKind; ReluNodeKind]}
  else if String.eqb s "Add,Mul" then {[AddNodeKind; MulNodeKind]}
  else ∅.

Definition exOptimize (F : Function) (_ : Backend) (_ : CompilationContext)
    : Function * option GlowErr := (F, None).

Definition exVerify (_ : Function) : bool := true.

Definition exBFS (F : Function) : list (list Node) :=
  map (fun N => [N]) (reverse (getNodes F)).

Definition exUpdate (_ : gset string) (g : GraphMemInfo) (_ : Node) : GraphMemInfo :=
  {| inMemSize := inMemSize g + 10; outMemSize := outMemSize g;
     constMemSize := constMemSize g |}.


Definition exDoPartitioning (_ : string) (_ : list string) (md : Module)
    (_ : NodeToFunctionMap) (_ : bool) : list DAG * Module := ([], md).

Definition exHeterogeneousSteps (_ : gmap string string) (_ : list Backend) (_ : string)
    (ps : list DAG) (_ : CompilationContext) : PM (list DAG) := ret ps.

Definition exLoadBalancedSteps (_ : CompilationContext) (_ : Z) : PM (list DAG) := ret [].

Definition exFromConfigSteps (_ : PartitionConfig) (_ : Function) (_ : list Backend)
    : PM (list DAG) := ret [].

(** A chain Convolution, Add, Relu reading one Placeholder of 40 bytes, the
    same chain followed by a SoftMax, and Modules around them. *)
Definition exNode (nm : string) (k : Kind) : Node :=
  {| getNodeName := nm; getKind := k; getInputs := [PlaceholderInput "input" 40] |}.

Definition exChain : Function :=
  {| getName := "main";
     getNodes := [exNode "conv" ConvolutionNodeKind; exNode "add" AddNodeKind;
                  exNode "relu" ReluNodeKind] |}.

Definition exChainSoftMax : Function :=
  {| getName := "main";
     getNodes := [exNode "conv" ConvolutionNodeKind; exNode "add" AddNodeKind;
                  exNode "relu" ReluNodeKind; exNode "softmax" SoftMaxNodeKind] |}.

Definition exModule : Module := {| getFunctions := [exChain]; getConstantsSize := 100 |}.

Definition exTwoFunctions : Module :=
  {| getFunctions := [exChain; {| getName := "aux"; getNodes := [] |}];
     getConstantsSize := 100 |}.

Definition exEightDevices : list DeviceInfo := replicate 8 (exDevice "A" 1000).

Definition exMixedDevices : list DeviceInfo :=
  [exDevice "A" 100; exDevice "B" 50; exDevice "A" 999].

Definition exPart (nm : string) (ids : list Z) : DAGNode :=
  {| children := []; parents := [RootRef]; deviceIDs := []; backendName := "A";
     logicalDevices := ids; currentDeviceIdx := 0; name := nm |}.

Definition exTwoPartDAG : DAG :=
  {| root := {| children := [NodeRef 0; NodeRef 1]; parents := []; deviceIDs := [];
                backendName := ""; logicalDevices := [0]; currentDeviceIdx := 0;
                name := "main" |};
     nodes := [exPart "main_part1" [0]; exPart "main_part2" [1]] |}.

Definition exPartitioner (devices : list DeviceInfo) (md : Module) : Partitioner :=
  Partitioner_withConfig md devices false true PartitionConfig_default.

Definition exMissingConfig : PartitionConfig :=
  {| funcName := "missing"; numOfPartitions := 1; backendNames := ["A"];
     partitionNames := ["p0"]; nodeToPartition := ∅ |}.

Definition exWellFormed : CompilationContext :=
  {| bindings := Some 1%positive; loweredInfoMap := Some 2%positive;
     precisionConfig :=
       {| quantMode := Profile; convertToFP16 := false; convertFusedToFP16 := false;
          clipFP16 := false; precisionModeKindSet := ∅; useSetAsWhitelist := false |} |}.

(** Two backends: A lists Convolution and Relu, B lists Add and Mul. *)
Definition exInfo (b : Backend) (supported : gset Kind) : BackendInfo :=
  {| num := 1; memSize := 1000; sramCapacity := 0; peakCompute := 0%float;
     peakDramBw := 0%float; peakSramBw := 0%float; backend := Some b;
     nonSupportedNodesKinds := ∅; supportedNodesKinds := supported |}.

Definition exBackendMap : gmap string BackendInfo :=
  <["A" := exInfo (exBackend "A") {[ConvolutionNodeKind; ReluNodeKind]}]>
    (<["B" := exInfo (exBackend "B") {[AddNodeKind; MulNodeKind]}]> ∅).

Definition exHeteroPartitioner : Partitioner :=
  set_backendMap_ exBackendMap [exBackend "A"; exBackend "B"]
    (exPartitioner [exDevice "A" 1000; exDevice "B" 1000] exModule).

(** A node that holds two devices and has never been asked for one. *)
Definition twoDeviceNode : DAGNode :=
  {| children := []; parents := [RootRef]; deviceIDs := [10; 20];
     backendName := "A"; logicalDevices := [0; 1]; currentDeviceIdx := 0;
     name := "net_part1" |}.

Definition req (p i : Z) : InferRequest :=
  {| networkName := "net"; priority := p; requestID := i |}.

(** A context that asks for the whitelist without FP16 conversion. *)
Definition whitelistWithoutFP16 : CompilationContext :=
  {| bindings := None; loweredInfoMap := None;
     precisionConfig :=
       {| quantMode := QM_None; convertToFP16 := false; convertFusedToFP16 := false;
          clipFP16 := false; precisionModeKindSet := ∅; useSetAsWhitelist := true |} |}.

(** A Backend that lowers every node and supports none, to tell it from
    [exBackend]; an optimizer that fails on the Function of a given name; a
    Module without Functions; a Partitioner whose Functions are still to be
    optimized. *)
Definition exBackendLowers (nm : string) : Backend :=
  {| getBackendName := nm; shouldLower := fun _ => true; isOpSupported := fun _ => false |}.

Definition exOptimizeFailsOn (nm : string) (F : Function) (_ : Backend)
    (_ : CompilationContext) : Function * option GlowErr :=
  if String.eqb (getName F) nm then (F, Some (MkErr None "optimizer failure"))
  else (F, None).

Definition exEmptyModule : Module := {| getFunctions := []; getConstantsSize := 100 |}.

Definition exUnoptimized : Partitioner :=
  Partitioner_withConfig exTwoFunctions [exDevice "A" 1000] false false
    PartitionConfig_default.

(** Two user-defined partitions for the chain: the config maps the
    Convolution and the Relu to partition 0 and leaves the Add unmapped;
    the second config maps the Convolution to a partition that does not
    exist. *)
Definition exConfig : PartitionConfig :=
  {| funcName := "main"; numOfPartitions := 2; backendNames := ["A"; "B"];
     partitionNames := ["p0"; "p1"];
     nodeToPartition := <["conv" := 0]> (<["relu" := 0]> ∅) |}.

Definition exConfigOutOfRange : PartitionConfig :=
  {| funcName := "main"; numOfPartitions := 2; backendNames := ["A"; "B"];
     partitionNames := ["p0"; "p1"];
     nodeToPartition := <["conv" := 5]> ∅ |}.

(** A node that holds three devices and has been asked for one 2^32 - 2
    times. *)
Definition threeDeviceNode : DAGNode :=
  {| children := []; parents := [RootRef]; deviceIDs := [10; 20; 30];
     backendName := "A"; logicalDevices := [0; 1; 2];
     currentDeviceIdx := 2 ^ 32 - 2; name := "net_part1" |}.

(** * Properties *)

(** ** Round-robin device selection *)

Lemma wrap32_range z : 0 <= wrap32 z < 2 ^ 32.
Proof. unfold wrap32. apply Z.mod_pos_bound. lia. Qed.

Lemma at_in_range {A} (v : list A) (i : Z) :
  0 <= i < Z.of_nat (length v) -> exists x, at_ v i = Ok x /\ v !! Z.to_nat i = Some x.
Proof.
  intros Hi. unfold at_.
  destruct (i <? 0) eqn:E; [apply Z.ltb_lt in E; lia|].
  destruct (v !! Z.to_nat i) as [x|] eqn:L; [eauto|].
  apply lookup_ge_None in L. lia.
Qed.

(** C1, as stated, fails: on a fresh node with devices [10; 20] the entry at
    index [0 mod 2] is 10, but the first call returns 20. *)
Lemma getNextDevice_first_call_counterexample :
  currentDeviceIdx twoDeviceNode = 0 /\
  deviceIDs twoDeviceNode !! Z.to_nat (0 mod 2) = Some 10 /\
  getNextDevice twoDeviceNode = Ok (20, set_currentDeviceIdx 1 twoDeviceNode) /\
  (forall n', getNextDevice twoDeviceNode <> Ok (10, n')).
Proof.
  repeat split; try reflexivity.
  intros n' H. vm_compute in H. discriminate H.
Qed.

(** C1 (amended).  For a node with a non-empty [deviceIDs] whose index is
    [i], [getNextDevice] stores [(i + 1) mod 2^32] in [currentDeviceIdx] and
    returns the entry of [deviceIDs] at that new index modulo the number of
    devices: the increment comes before the read.  The new index is [i + 1]
    unless [i] is the largest [unsigned]. *)
Theorem getNextDevice_round_robin (n : DAGNode) :
  deviceIDs n <> [] ->
  let i' := (currentDeviceIdx n + 1) mod 2 ^ 32 in
  exists d,
    getNextDevice n = Ok (d, set_currentDeviceIdx i' n) /\
    deviceIDs n !! Z.to_nat (i' mod Z.of_nat (length (deviceIDs n))) = Some d /\
    (0 <= currentDeviceIdx n < 2 ^ 32 - 1 -> i' = currentDeviceIdx n + 1).
Proof.
  intros Hne i'. unfold getNextDevice.
  destruct (deviceIDs n) as [|d0 ds] eqn:Hd; [congruence|].
  fold (wrap32 (currentDeviceIdx n + 1)). change (wrap32 (currentDeviceIdx n + 1)) with i'.
  destruct (at_in_range (d0 :: ds) (i' mod Z.of_nat (length (d0 :: ds)))) as (d & Hat & Hl).
  { apply Z.mod_pos_bound. simpl length. lia. }
  exists d. rewrite Hat. split; [reflexivity|]. split; [exact Hl|].
  intros Hlt. subst i'. apply Z.mod_small. lia.
Qed.

Lemma getNextDevice_round_robin_witness :
  exists d,
    getNextDevice twoDeviceNode = Ok (d, set_currentDeviceIdx 1 twoDeviceNode) /\
    deviceIDs twoDeviceNode !! 1%nat = Some d.
Proof.
  destruct (getNextDevice_round_robin twoDeviceNode) as (d & H1 & H2 & _).
  - discriminate.
  - exists d. split; [exact H1 | exact H2].
Defined.

(** ** The request queue *)

Lemma gt_spec a b : gt a b = true <-> keyLt b a.
Proof.
  unfold gt, keyLt. rewrite !Z.gtb_ltb. destruct (priority a =? priority b) eqn:E.
  - apply Z.eqb_eq in E. rewrite Z.ltb_lt. lia.
  - apply Z.eqb_neq in E. rewrite Z.ltb_lt. lia.
Qed.

Lemma gt_false_spec a b : gt a b = false <-> ~ keyLt b a.
Proof. rewrite <- gt_spec. destruct (gt a b); split; congruence. Qed.

Lemma gt_irrefl a : gt a a = false.
Proof. apply gt_false_spec. unfold keyLt. lia. Qed.

Lemma notgt_trans a b c : gt a b = false -> gt b c = false -> gt a c = false.
Proof. rewrite !gt_false_spec. unfold keyLt. lia. Qed.

Lemma gt_true_notgt a b : gt a b = true -> gt b a = false.
Proof. rewrite gt_spec, gt_false_spec. unfold keyLt. lia. Qed.

Lemma pop_None q : pop q = None -> q = [].
Proof.
  destruct q as [|x xs]; [reflexivity|]. simpl.
  destruct (pop xs) as [[m rest]|]; [destruct (gt x m)|]; discriminate.
Qed.

Lemma pop_spec q m rest :
  pop q = Some (m, rest) ->
  q ≡ₚ m :: rest /\ Forall (fun y => gt m y = false) q.
Proof.
  revert m rest. induction q as [|x xs IH]; intros m rest H; [discriminate|].
  simpl in H. destruct (pop xs) as [[m' rest']|] eqn:E.
  - destruct (IH _ _ eq_refl) as [Hp Hall].
    destruct (gt x m') eqn:G; inversion H; subst; clear H.
    + split.
      * rewrite Hp. apply Permutation_swap.
      * constructor; [apply gt_true_notgt, G | exact Hall].
    + split; [reflexivity|]. constructor; [apply gt_irrefl|].
      eapply Forall_impl; [exact Hall|]. intros y Hy. simpl in Hy.
      eapply notgt_trans; eauto.
  - inversion H; subst. apply pop_None in E. subst.
    split; [reflexivity|]. constructor; [apply gt_irrefl | constructor].
Qed.

Lemma drain_spec fuel q :
  (length q <= fuel)%nat ->
  drain fuel q ≡ₚ q /\
  StronglySorted (fun a b => gt a b = false) (drain fuel q).
Proof.
  revert q. induction fuel as [|fuel IH]; intros q Hlen.
  - destruct q; [|simpl in Hlen; lia]. simpl. split; [reflexivity | constructor].
  - simpl. destruct (pop q) as [[m rest]|] eqn:E.
    + destruct (pop_spec _ _ _ E) as [Hp Hall].
      assert (Hl : (length rest <= fuel)%nat).
      { apply Permutation_length in Hp. simpl in Hp. lia. }
      destruct (IH rest Hl) as [Hp' Hs]. split.
      * rewrite Hp'. symmetry. exact Hp.
      * constructor; [exact Hs|].
        rewrite Hp'. rewrite Hp in Hall. inversion Hall; subst. assumption.
    + apply pop_None in E. subst. split; [reflexivity | constructor].
Qed.

Lemma sorted_before (l : list InferRequest) r1 r2 :
  StronglySorted (fun a b => gt a b = false) l ->
  r1 ∈ l -> r2 ∈ l -> gt r2 r1 = true ->
  exists l1 l2 l3, l = l1 ++ r1 :: l2 ++ r2 :: l3.
Proof.
  intros Hs. induction Hs as [|x l Hs IH Hall]; intros H1 H2 Hgt.
  - inversion H1.
  - assert (Hx2 : r2 ∈ l).
    { apply elem_of_cons in H2 as [->|H2]; [|exact H2].
      apply elem_of_cons in H1 as [->|H1].
      - rewrite gt_irrefl in Hgt. discriminate.
      - rewrite Forall_forall in Hall. rewrite (Hall _ H1) in Hgt. discriminate. }
    apply elem_of_cons in H1 as [->|H1].
    + apply list_elem_of_split in Hx2 as (l2 & l3 & ->). exists [], l2, l3. reflexivity.
    + destruct (IH H1 Hx2 Hgt) as (l1 & l2 & l3 & ->).
      exists (x :: l1), l2, l3. reflexivity.
Qed.

Lemma sorted_not_after (l : list InferRequest) r1 r2 l1 l2 l3 :
  StronglySorted (fun a b => gt a b = false) l ->
  gt r2 r1 = true ->
  l <> l1 ++ r2 :: l2 ++ r1 :: l3.
Proof.
  intros Hs Hgt ->. induction l1 as [|y l1 IH].
  - simpl in Hs. inversion Hs as [|? ? _ Hall]; subst.
    rewrite Forall_forall in Hall.
    rewrite Hall in Hgt; [discriminate|]. apply elem_of_app. right. left.
  - simpl in Hs. inversion Hs; subst. auto.
Qed.

(** C2.  Two requests in the queue with [r1] ahead of [r2] by priority, or by
    request ID at equal priority: [operator>] ranks [r2] above [r1]; [r2] is
    not an element the queue may have on top while [r1] is queued, and no
    [pop] hands it out; in the order in which the queue is emptied [r1]
    comes before [r2] and never after. *)
Theorem inferQueue_priority_then_fifo (q : list InferRequest) (r1 r2 : InferRequest) :
  r1 ∈ q -> r2 ∈ q ->
  priority r1 < priority r2 \/
    (priority r1 = priority r2 /\ requestID r1 < requestID r2) ->
  gt r2 r1 = true /\ gt r1 r2 = false /\
  (forall x, x ∈ q -> (forall y, y ∈ q -> gt x y = false) -> x <> r2) /\
  (forall r q', pop q = Some (r, q') -> r <> r2) /\
  (exists l1 l2 l3, dequeueOrder q = l1 ++ r1 :: l2 ++ r2 :: l3) /\
  (forall l1 l2 l3, dequeueOrder q <> l1 ++ r2 :: l2 ++ r1 :: l3).
Proof.
  intros H1 H2 Hlt.
  assert (Hgt : gt r2 r1 = true) by (apply gt_spec; exact Hlt).
  destruct (drain_spec (length q) q (le_n _)) as [Hp Hs].
  split; [exact Hgt|]. split; [apply gt_true_notgt, Hgt|]. split; [|split; [|split]].
  - intros x _ Htop ->. rewrite (Htop _ H1) in Hgt. discriminate.
  - intros r q' Hpop ->. apply pop_spec in Hpop as [_ Hall].
    rewrite Forall_forall in Hall. rewrite (Hall _ H1) in Hgt. discriminate.
  - apply sorted_before; [exact Hs | | | exact Hgt]; unfold dequeueOrder; rewrite Hp; assumption.
  - intros l1 l2 l3. apply sorted_not_after; assumption.
Qed.

Lemma inferQueue_priority_then_fifo_witness :
  gt (req 1 2) (req 1 0) = true /\
  dequeueOrder [req 1 2; req 0 3; req 1 0] = [req 0 3; req 1 0; req 1 2].
Proof.
  split.
  - refine (proj1 (inferQueue_priority_then_fifo
                     [req 1 2; req 0 3; req 1 0] (req 1 0) (req 1 2) _ _ _)).
    + repeat constructor.
    + repeat constructor.
    + right. simpl. lia.
  - reflexivity.
Defined.

(** ** CompilationContext::verify *)

(** C7, as stated, fails in its last sentence: the whitelist check is
    violated here and the error carries no [COMPILE_CONTEXT_MALFORMED] code. *)
Lemma verify_whitelist_counterexample :
  ~ whitelistOk whitelistWithoutFP16 /\
  exists e, verify whitelistWithoutFP16 = Err e /\
            errCode e <> Some COMPILE_CONTEXT_MALFORMED.
Proof.
  split.
  - intros H. specialize (H eq_refl). discriminate H.
  - eexists. split; [reflexivity|]. discriminate.
Qed.

(** C7 (amended).  [verify] succeeds exactly when the whitelist is used only
    with FP16 conversion and the quantization mode has what it needs
    (Profile: bindings, loweredInfoMap, no FP16 conversion; Quantize:
    loweredInfoMap; None: nothing).  Otherwise it returns an error: one
    without an error code when the whitelist condition is violated, and one
    with code [COMPILE_CONTEXT_MALFORMED] when only the quantization-mode
    conditions are. *)
Theorem verify_spec (c : CompilationContext) :
  (verify c = Ok tt <-> whitelistOk c /\ quantOk c) /\
  (~ whitelistOk c -> exists e, verify c = Err e /\ errCode e = None) /\
  (whitelistOk c /\ ~ quantOk c ->
     exists e, verify c = Err e /\ errCode e = Some COMPILE_CONTEXT_MALFORMED).
Proof.
  unfold whitelistOk, quantOk, verify, RETURN_ERR_IF_NOT, obind.
  destruct c as [b l [qm fp16 ff cl ks wl]]; simpl.
  destruct wl, fp16, qm, b, l; simpl;
    (split; [split; [intros H; try discriminate H; repeat split; eauto; intros; congruence
                    | intros [H1 H2]; try reflexivity;
                      try (specialize (H1 eq_refl); discriminate H1);
                      try (destruct H2 as (Hb & Hl & Hf)); try discriminate;
                      try (destruct Hb as [? Hb]; discriminate Hb);
                      try (destruct Hl as [? Hl]; discriminate Hl);
                      try (destruct H2 as [? H2]; discriminate H2)]
            | split; [intros H; try (exfalso; apply H; intros; congruence);
                      eexists; split; reflexivity
                     | intros [H1 H2];
                       try (specialize (H1 eq_refl); discriminate H1);
                       try (exfalso; apply H2; repeat split; eauto; fail);
                       eexists; split; reflexivity]]).
Qed.

(** ** Host saturation *)

Lemma wrap32_small z : 0 <= z < 2 ^ 32 -> wrap32 z = z.
Proof. intros H. unfold wrap32. apply Z.mod_small. exact H. Qed.

Lemma wrap64_small z : 0 <= z < 2 ^ 64 -> wrap64 z = z.
Proof. intros H. unfold wrap64. apply Z.mod_small. exact H. Qed.

Lemma newLogicalDevices_exact (D k : Z) (ls : list DeviceIDTy) :
  0 < k -> 0 <= D < 2 ^ 32 ->
  (forall L, L ∈ ls -> 0 <= L /\ L + D <= 2 ^ 32) ->
  newLogicalDevices k (D / k) ls =
  flat_map (fun L => map (fun i => L + i * k) (seqZ 1 (D / k - 1))) ls.
Proof.
  intros Hk HD Hls. unfold newLogicalDevices.
  induction ls as [|L ls IH]; [reflexivity|]. simpl. f_equal.
  - apply map_ext_in. intros i Hi. apply list_elem_of_In, elem_of_seqZ in Hi.
    destruct (Hls L) as [HL0 HLD]; [left|].
    assert (Hik : i * k < D).
    { assert (i * k <= (D / k - 1) * k) by nia.
      pose proof (Z.mul_div_le D k Hk). nia. }
    rewrite (wrap32_small (i * k)) by nia.
    rewrite wrap64_small by nia. apply wrap32_small. nia.
  - apply IH. intros L' HL'. apply Hls. right. exact HL'.
Qed.

Lemma length_flat_map_const {A B} (f : A -> list B) (l : list A) (c : nat) :
  (forall x, length (f x) = c) -> length (flat_map f l) = (length l * c)%nat.
Proof.
  intros Hf. induction l as [|x l IH]; [reflexivity|].
  simpl. rewrite length_app, Hf, IH. lia.
Qed.

Lemma saturateHost_exact (deviceInfo_ : list DeviceInfo) (k : Z) (partitions : DAGListTy) :
  0 < k < 2 ^ 32 ->
  Z.of_nat (length deviceInfo_) < 2 ^ 32 ->
  (forall network node L,
      network ∈ partitions -> node ∈ nodes network -> L ∈ logicalDevices node ->
      0 <= L /\ L + Z.of_nat (length deviceInfo_) <= 2 ^ 32) ->
  let D := Z.of_nat (length deviceInfo_) in
  saturateHost deviceInfo_ k partitions =
  Ok (if D / k <? 2 then partitions
      else map (fun network =>
                  {| root := root network;
                     nodes := map (fun node => set_logicalDevices (extendedDevices D k node) node)
                                  (nodes network) |})
               partitions).
Proof.
  intros Hk HD Hls D.
  assert (HD0 : 0 <= D) by (subst D; lia).
  assert (Hq : 0 <= D / k <= D).
  { split; [apply Z.div_pos; lia|]. apply Z.div_le_upper_bound; nia. }
  unfold saturateHost. fold D.
  destruct (k =? 0) eqn:E; [apply Z.eqb_eq in E; lia|].
  rewrite (wrap32_small (D / k)) by lia.
  destruct (D / k <? 2) eqn:E2; [reflexivity|].
  f_equal. apply map_ext_in. intros network Hn. f_equal.
  apply map_ext_in. intros node Hnode. f_equal. unfold extendedDevices. f_equal.
  apply newLogicalDevices_exact; [lia | lia |].
  intros L HL. apply (Hls network node L); [| |exact HL]; apply list_elem_of_In; assumption.
Qed.

(** C4 (amended).  With D devices and a non-zero count k of logical devices,
    both below 2^32, and logical IDs that stay below 2^32 when D is added:
    if D/k is at least 2, [saturateHost] leaves the root of every DAG as it
    is and extends the logical devices of every entry of the DAG's [nodes]
    by L + i*k for each of its IDs L, in order, and each i from 1 to
    D/k - 1; such an entry that held one logical device ends with D/k of
    them.  If D/k is below 2 nothing changes. *)
Theorem saturateHost_spec (deviceInfo_ : list DeviceInfo) (k : Z) (partitions : DAGListTy) :
  0 < k < 2 ^ 32 ->
  Z.of_nat (length deviceInfo_) < 2 ^ 32 ->
  (forall network node L,
      network ∈ partitions -> node ∈ nodes network -> L ∈ logicalDevices node ->
      0 <= L /\ L + Z.of_nat (length deviceInfo_) <= 2 ^ 32) ->
  let D := Z.of_nat (length deviceInfo_) in
  let extended node :=
    logicalDevices node ++
    flat_map (fun L => map (fun i => L + i * k) (seqZ 1 (D / k - 1))) (logicalDevices node) in
  (D / k < 2 -> saturateHost deviceInfo_ k partitions = Ok partitions) /\
  (2 <= D / k ->
   saturateHost deviceInfo_ k partitions =
     Ok (map (fun network =>
                {| root := root network;
                   nodes := map (fun node => set_logicalDevices (extended node) node)
                                (nodes network) |})
             partitions) /\
   forall node, length (logicalDevices node) = 1%nat ->
                Z.of_nat (length (extended node)) = D / k).
Proof.
  intros Hk HD Hls D extended.
  rewrite (saturateHost_exact _ _ _ Hk HD Hls). fold D.
  split.
  - intros Hlt. apply Z.ltb_lt in Hlt. rewrite Hlt. reflexivity.
  - intros Hge. destruct (D / k <? 2) eqn:E2; [apply Z.ltb_lt in E2; lia|].
    split; [reflexivity|].
    intros node H1. subst extended. simpl.
    rewrite length_app.
    rewrite (length_flat_map_const _ _ (Z.to_nat (D / k - 1))).
    + rewrite H1. lia.
    + intros x. rewrite length_map, length_seqZ. reflexivity.
Qed.

(** ** The backend map *)

Lemma bump_succ_r c x : bump (S c) x = bump c (wrap64 (x + 1)).
Proof.
  unfold bump. induction c as [|c IH]; [reflexivity|].
  simpl in *. rewrite IH. reflexivity.
Qed.

Lemma bump_small c x : 0 <= x -> x + Z.of_nat c < 2 ^ 64 -> bump c x = x + Z.of_nat c.
Proof.
  revert x. induction c as [|c IH]; intros x H0 Hlt.
  - unfold bump. simpl. lia.
  - rewrite bump_succ_r, wrap64_small by lia. rewrite IH by lia. lia.
Qed.

Lemma set_num_set_num a b info : set_num a (set_num b info) = set_num a info.
Proof. reflexivity. Qed.

Lemma set_num_id info : set_num (num info) info = info.
Proof. destruct info; reflexivity. Qed.

(** What the loop leaves in the map for a name [b]: an entry that was there
    has its [num] raised once per device of that name; a new entry is made
    from the first device of that name and counts the others. *)
Lemma genBackendMap_loop_lookup (bk : list Backend) (devs : list DeviceInfo) :
  forall i m h bs n m' h' bs',
    genBackendMap_loop bk i devs m h bs n = Ok (m', h', bs') ->
    forall b,
      match m !! b with
      | Some info => m' !! b = Some (set_num (bump (countName b devs) (num info)) info)
      | None =>
          match firstDevice b devs with
          | None => m' !! b = None
          | Some d =>
              exists bkd,
                m' !! b =
                Some {| num := bump (countName b devs - 1) 1;
                        memSize := availableMemory d;
                        sramCapacity := di_sramCapacity d;
                        peakCompute := di_peakCompute d;
                        peakDramBw := di_peakDramBw d;
                        peakSramBw := di_peakSramBw d;
                        backend := Some bkd;
                        nonSupportedNodesKinds := generateNodeKindsSet (nonSupportedNodes d);
                        supportedNodesKinds := generateNodeKindsSet (supportedNodes d) |}
          end
      end.
Proof.
  induction devs as [|d devs IH]; intros i m h bs n m' h' bs' Hrun b.
  - simpl in Hrun. inversion Hrun; subst. unfold countName, firstDevice. simpl.
    destruct (m' !! b) as [info|] eqn:E; [|reflexivity].
    unfold bump. simpl. rewrite set_num_id. reflexivity.
  - simpl in Hrun. unfold countName, firstDevice. simpl.
    fold (countName b devs). fold (firstDevice b devs).
    destruct (m !! di_backendName d) as [info0|] eqn:Em.
    + specialize (IH _ _ _ _ _ _ _ _ Hrun b).
      destruct (decide (di_backendName d = b)) as [Heq|Hne]; [subst b|].
      * rewrite bool_decide_eq_true_2 by reflexivity. simpl.
        rewrite Em. rewrite lookup_insert_eq in IH.
        rewrite IH. simpl. rewrite bump_succ_r. reflexivity.
      * rewrite bool_decide_eq_false_2 by exact Hne.
        rewrite lookup_insert_ne in IH by exact Hne. exact IH.
    + assert (Hstep : exists bkd m1 h1 bs1 n1,
                 m1 = <[di_backendName d :=
                          {| num := 1; memSize := availableMemory d;
                             sramCapacity := di_sramCapacity d;
                             peakCompute := di_peakCompute d;
                             peakDramBw := di_peakDramBw d;
                             peakSramBw := di_peakSramBw d;
                             backend := Some bkd;
                             nonSupportedNodesKinds :=
                               generateNodeKindsSet (nonSupportedNodes d);
                             supportedNodesKinds :=
                               generateNodeKindsSet (supportedNodes d) |}]> m /\
                 genBackendMap_loop bk (i + 1) devs m1 h1 bs1 n1 = Ok (m', h', bs')).
      { destruct (negb (length bk =? 0)%nat).
        - destruct (at_ bk i) as [bkd| |]; simpl in Hrun; try discriminate.
          eauto 10.
        - destruct (at_ (h ++ [createBackend (di_backendName d)]) n) as [bkd| |];
            simpl in Hrun; try discriminate.
          eauto 10. }
      destruct Hstep as (bkd & m1 & h1 & bs1 & n1 & -> & Hrun').
      specialize (IH _ _ _ _ _ _ _ _ Hrun' b).
      destruct (decide (di_backendName d = b)) as [Heq|Hne]; [subst b|].
      * rewrite bool_decide_eq_true_2 by reflexivity. simpl.
        rewrite Em. rewrite lookup_insert_eq in IH. exists bkd.
        rewrite IH. simpl. rewrite Nat.sub_0_r. reflexivity.
      * rewrite bool_decide_eq_false_2 by exact Hne.
        rewrite lookup_insert_ne in IH by exact Hne. exact IH.
Qed.

(** The loop runs to its end when no Backends were handed in, or when at
    least one per device was. *)
Lemma genBackendMap_loop_total (bk : list Backend) (devs : list DeviceInfo) :
  forall i m h bs n,
    0 <= i -> 0 <= n <= Z.of_nat (length h) ->
    bk = [] \/ i + Z.of_nat (length devs) <= Z.of_nat (length bk) ->
    exists r, genBackendMap_loop bk i devs m h bs n = Ok r.
Proof.
  induction devs as [|d devs IH]; intros i m h bs n Hi Hn Hbk.
  - simpl. eauto.
  - simpl. destruct (m !! di_backendName d) as [info0|].
    + apply IH; [lia | lia |]. destruct Hbk as [->|Hbk]; [left; reflexivity|].
      right. simpl length in Hbk. lia.
    + destruct (length bk =? 0)%nat eqn:El; simpl.
      * destruct (at_in_range (h ++ [createBackend (di_backendName d)]) n) as (x & -> & _).
        { rewrite length_app. simpl. lia. }
        simpl. apply IH; [lia | rewrite length_app; simpl; lia |].
        left. apply Nat.eqb_eq in El. destruct bk; [reflexivity | discriminate].
      * destruct Hbk as [->|Hbk]; [discriminate|].
        simpl length in Hbk.
        destruct (at_in_range bk i) as (x & -> & _); [lia|].
        simpl. apply IH; [lia | lia | right; lia].
Qed.

Lemma firstDevice_split (b : string) (pre post : list DeviceInfo) (d : DeviceInfo) :
  di_backendName d = b ->
  (forall d', d' ∈ pre -> di_backendName d' <> b) ->
  firstDevice b (pre ++ d :: post) = Some d.
Proof.
  intros Hd Hpre. unfold firstDevice. induction pre as [|x pre IH]; simpl.
  - rewrite bool_decide_eq_true_2 by exact Hd. reflexivity.
  - rewrite bool_decide_eq_false_2 by (apply Hpre; left).
    apply IH. intros d' Hd'. apply Hpre. right. exact Hd'.
Qed.

Lemma countName_le b devs : (countName b devs <= length devs)%nat.
Proof. unfold countName. apply filter_length_le. Qed.

Lemma bump_wrap c x : (1 <= c)%nat -> bump c x = wrap64 (x + Z.of_nat c).
Proof.
  revert x. induction c as [|c IH]; intros x Hc; [lia|].
  rewrite bump_succ_r. destruct c as [|c'].
  - unfold bump. simpl. reflexivity.
  - rewrite IH by lia. unfold wrap64. rewrite Zplus_mod_idemp_l. f_equal. lia.
Qed.

(** C10 (amended).  Without Backends handed in, or with at least one per
    device, [genBackendMap] returns, and for a device [d] that is the first
    of its backend name the map then holds an entry under that name.  If
    the map given had none, [num] is the number of devices of that name and
    the memory size, SRAM capacity, peak compute, DRAM and SRAM bandwidths
    and kind sets are those of [d]: the devices after [d] only add to
    [num].  If the map given had an entry, every field of it is kept but
    [num], to which the number of devices of that name is added. *)
Theorem genBackendMap_first_device_wins
    (backends_ : list Backend) (deviceInfo_ pre post : list DeviceInfo)
    (d : DeviceInfo) (backendMap : gmap string BackendInfo) (backendsHolder : list Backend) :
  backends_ = [] \/ (length deviceInfo_ <= length backends_)%nat ->
  Z.of_nat (length deviceInfo_) < 2 ^ 64 ->
  deviceInfo_ = pre ++ d :: post ->
  (forall d', d' ∈ pre -> di_backendName d' <> di_backendName d) ->
  exists backendMap' holder backends info,
    genBackendMap backends_ deviceInfo_ backendMap backendsHolder =
      Ok (backendMap', holder, backends) /\
    backendMap' !! di_backendName d = Some info /\
    match backendMap !! di_backendName d with
    | None =>
        num info = Z.of_nat (countName (di_backendName d) deviceInfo_) /\
        memSize info = availableMemory d /\
        sramCapacity info = di_sramCapacity d /\
        peakCompute info = di_peakCompute d /\
        peakDramBw info = di_peakDramBw d /\
        peakSramBw info = di_peakSramBw d /\
        nonSupportedNodesKinds info = generateNodeKindsSet (nonSupportedNodes d) /\
        supportedNodesKinds info = generateNodeKindsSet (supportedNodes d)
    | Some old =>
        info =
        set_num (wrap64 (num old + Z.of_nat (countName (di_backendName d) deviceInfo_))) old
    end.
Proof.
  intros Hbk Hlen Hsplit Hfirst.
  destruct (genBackendMap_loop_total backends_ deviceInfo_ 0 backendMap backendsHolder [] 0)
    as ([[backendMap' holder] backends] & Hrun); [lia | lia | |].
  { destruct Hbk as [->|Hbk]; [left; reflexivity | right; lia]. }
  pose proof (genBackendMap_loop_lookup _ _ _ _ _ _ _ _ _ _ Hrun (di_backendName d)) as Hl.
  assert (Hfd : firstDevice (di_backendName d) deviceInfo_ = Some d).
  { rewrite Hsplit. apply firstDevice_split; [reflexivity | exact Hfirst]. }
  assert (Hpos : (1 <= countName (di_backendName d) deviceInfo_)%nat).
  { rewrite Hsplit. unfold countName. rewrite List.filter_app, length_app. simpl.
    rewrite bool_decide_eq_true_2 by reflexivity. simpl. lia. }
  pose proof (countName_le (di_backendName d) deviceInfo_) as Hle.
  destruct (backendMap !! di_backendName d) as [old|].
  - eexists backendMap', holder, backends, _. split; [exact Hrun|]. split; [exact Hl|].
    rewrite bump_wrap by exact Hpos. reflexivity.
  - rewrite Hfd in Hl. destruct Hl as (bkd & Hl).
    eexists backendMap', holder, backends, _. split; [exact Hrun|]. split; [exact Hl|].
    simpl. repeat split.
    rewrite bump_small by lia. lia.
Qed.

(** ** Choice of the partition flow *)

Lemma init_multiBackendNames (P : Partitioner) :
  multiBackendNames_ (init P) = false <-> allSameBackend (deviceInfo_ P).
Proof.
  unfold allSameBackend. simpl. destruct (deviceInfo_ P) as [|d0 rest].
  - split; [|reflexivity]. intros _ d1 d2 H. inversion H.
  - split.
    + intros Hex.
      assert (Hall : forall d, d ∈ d0 :: rest -> di_backendName d = di_backendName d0).
      { intros d Hd. apply elem_of_cons in Hd as [->|Hd]; [reflexivity|].
        destruct (decide (di_backendName d = di_backendName d0)) as [E|E]; [exact E|].
        assert (Ht : existsb (fun d => negb (bool_decide (di_backendName d = di_backendName d0)))
                       rest = true).
        { apply existsb_exists. exists d. split; [apply list_elem_of_In; exact Hd|].
          rewrite bool_decide_eq_false_2 by exact E. reflexivity. }
        congruence. }
      intros d1 d2 H1 H2. rewrite (Hall d1 H1), (Hall d2 H2). reflexivity.
    + intros Hall.
      destruct (existsb _ rest) eqn:Hex; [|reflexivity].
      apply existsb_exists in Hex as (d & Hd & Hneq).
      rewrite bool_decide_eq_true_2 in Hneq; [discriminate|].
      apply Hall; [right; apply list_elem_of_In; exact Hd | left].
Qed.

Lemma checkOneFunction_ok flow P :
  length (getFunctions (module_ P)) = 1%nat -> checkOneFunction flow P = (Ok tt, P).
Proof. intros H. unfold checkOneFunction. rewrite H. reflexivity. Qed.

Lemma checkOneFunction_err flow P :
  length (getFunctions (module_ P)) <> 1%nat ->
  checkOneFunction flow P =
  (Err (MkErr None (oneFunctionMsg (length (getFunctions (module_ P))) flow)), P).
Proof.
  intros H. unfold checkOneFunction, RETURN_ERR_IF_NOT.
  destruct (Nat.eqb_spec (length (getFunctions (module_ P))) 1); [contradiction|reflexivity].
Qed.

(** C3 (amended).  On a Partitioner set up by [init], [partition] runs the
    first flow that applies: the user-defined one when the configuration
    has partitions; else the profiling one when the quantization mode is
    Profile; else the load-balanced one when all devices share one backend
    name and the load-balance flag is set; else the heterogeneous one.  A
    [loadBalancedPartition] on devices of several backend names first checks
    that the Module holds exactly one Function: if so it hands over to
    [heterogeneousPartition], if not it returns its own error and leaves the
    Partitioner as it was. *)
Theorem partition_mode_selection (P0 : Partitioner) (cctx : CompilationContext) :
  let P := init P0 in
  let cfg := partitionConfig_ P in
  let profiling := quantMode (precisionConfig cctx) = Profile in
  let oneBackend := allSameBackend (deviceInfo_ P) in
  (0 < numOfPartitions cfg -> partition cctx P = partitionFromConfig cfg P) /\
  (numOfPartitions cfg <= 0 -> profiling ->
   partition cctx P = quantizationProfilingPartition cctx P) /\
  (numOfPartitions cfg <= 0 -> ~ profiling ->
   oneBackend -> GlowEnableLoadBalancedPartitioning = true ->
   partition cctx P = loadBalancedPartition cctx defaultNumDevices P) /\
  (numOfPartitions cfg <= 0 -> ~ profiling ->
   ~ (oneBackend /\ GlowEnableLoadBalancedPartitioning = true) ->
   partition cctx P = heterogeneousPartition cctx P) /\
  (~ oneBackend ->
   forall numDevices,
     (length (getFunctions (module_ P)) = 1%nat ->
      loadBalancedPartition cctx numDevices P = heterogeneousPartition cctx P) /\
     (length (getFunctions (module_ P)) <> 1%nat ->
      loadBalancedPartition cctx numDevices P =
      (Err (MkErr None (oneFunctionMsg (length (getFunctions (module_ P)))
                          "Now in load-balanced")), P))).
Proof.
  intros P cfg profiling oneBackend.
  assert (Hmulti : multiBackendNames_ P = false <-> oneBackend)
    by apply init_multiBackendNames.
  assert (Hprof : isProfile cctx = true <-> profiling).
  { unfold isProfile, profiling. destruct (quantMode (precisionConfig cctx));
      split; congruence. }
  assert (Hen : forall b, enabled cfg = b <-> (if b then 0 < numOfPartitions cfg
                                            else numOfPartitions cfg <= 0)).
  { intros b. unfold enabled. rewrite Z.gtb_ltb.
    destruct (Z.ltb_spec 0 (numOfPartitions cfg)), b;
      split; intros; try reflexivity; try discriminate; lia. }
  repeat split.
  - intros H. unfold partition. fold cfg. rewrite (proj2 (Hen true) H). reflexivity.
  - intros H Hp. unfold partition. fold cfg.
    rewrite (proj2 (Hen false) H), (proj2 Hprof Hp). reflexivity.
  - intros H Hp Hone Hflag. unfold partition. fold cfg.
    rewrite (proj2 (Hen false) H).
    destruct (isProfile cctx) eqn:E; [exfalso; apply Hp, Hprof; reflexivity|].
    rewrite (proj2 Hmulti Hone), Hflag. reflexivity.
  - intros H Hp Hnot. unfold partition. fold cfg.
    rewrite (proj2 (Hen false) H).
    destruct (isProfile cctx) eqn:E; [exfalso; apply Hp, Hprof; reflexivity|].
    destruct (multiBackendNames_ P) eqn:Em; [reflexivity|].
    destruct GlowEnableLoadBalancedPartitioning eqn:Ef; [|reflexivity].
    exfalso. apply Hnot. split; [apply Hmulti; reflexivity | reflexivity].
  - intros Hlen. unfold loadBalancedPartition, bind.
    rewrite (checkOneFunction_ok _ _ Hlen). unfold get.
    destruct (multiBackendNames_ P) eqn:Em; [reflexivity|].
    exfalso. apply H, Hmulti. reflexivity.
  - intros Hlen. unfold loadBalancedPartition, bind.
    rewrite (checkOneFunction_err _ _ Hlen). reflexivity.
Qed.

(** ** The user-defined flow when the Function is missing *)

Lemma genBackendMapM_total (P : Partitioner) :
  backends_ P = [] \/ length (backends_ P) = length (deviceInfo_ P) ->
  exists bm holder backends,
    genBackendMapM P = (Ok backends, set_backendMap_ bm holder P).
Proof.
  intros Hbk. unfold genBackendMapM, genBackendMap.
  destruct (genBackendMap_loop_total (backends_ P) (deviceInfo_ P) 0 (backendMap_ P)
              (backendHolder P) [] 0) as ([[bm holder] backends] & ->); [lia | lia | |].
  - destruct Hbk as [->|Hbk]; [left; reflexivity | right; lia].
  - eauto.
Qed.

(** When [funcName] names no Function of the Module, [partitionFromConfig]
    does not return an error: it reads through the null pointer, with the
    Module as it was. *)
Lemma partitionFromConfig_function_not_found (cfg : PartitionConfig) (P : Partitioner) :
  backends_ P = [] \/ length (backends_ P) = length (deviceInfo_ P) ->
  getFunction (module_ P) (funcName cfg) = None ->
  exists P', partitionFromConfig cfg P = (Undef NullDeref, P') /\
             module_ P' = module_ P.
Proof.
  intros Hbk Hnone.
  destruct (genBackendMapM_total P Hbk) as (bm & holder & backends & Hgen).
  exists (set_backendMap_ bm holder P). split; [|reflexivity].
  unfold partitionFromConfig, bind. rewrite Hgen. unfold get. simpl.
  rewrite Hnone. reflexivity.
Qed.

(** ** One backend and a Module that fits *)

Lemma genBackendMap_loop_same_name (bk : list Backend) (nm : string)
    (devs : list DeviceInfo) :
  forall i m h bs n info,
    m !! nm = Some info ->
    (forall d, d ∈ devs -> di_backendName d = nm) ->
    exists info',
      genBackendMap_loop bk i devs m h bs n = Ok (<[nm := info']> m, h, bs) /\
      memSize info' = memSize info /\ backend info' = backend info.
Proof.
  induction devs as [|d devs IH]; intros i m h bs n info Hm Hall.
  - exists info. simpl. rewrite insert_id by exact Hm. auto.
  - simpl. rewrite (Hall d) by left. rewrite Hm.
    destruct (IH (i + 1) (<[nm := set_num (wrap64 (num info + 1)) info]> m) h bs n
                 (set_num (wrap64 (num info + 1)) info)) as (info' & Hrun & Hmem & Hb).
    + apply lookup_insert_eq.
    + intros d' Hd'. apply Hall. right. exact Hd'.
    + exists info'. rewrite Hrun, insert_insert_eq. auto.
Qed.

Lemma genBackendMap_single_backend (P : Partitioner) (B : Backend) (d0 : DeviceInfo)
    (rest : list DeviceInfo) :
  firstBackendOf P d0 B ->
  (forall d, d ∈ rest -> di_backendName d = di_backendName d0) ->
  exists bm holder info,
    genBackendMap (backends_ P) (d0 :: rest) ∅ (backendHolder P) = Ok (bm, holder, [B]) /\
    bm !! di_backendName d0 = Some info /\
    memSize info = availableMemory d0 /\
    backend info = Some B.
Proof.
  intros HB Hall. unfold genBackendMap. simpl. rewrite lookup_empty.
  assert (Hgo : forall bk h (i0 : BackendInfo) i n,
            memSize i0 = availableMemory d0 -> backend i0 = Some B ->
            exists bm holder info,
              genBackendMap_loop bk i rest (<[di_backendName d0 := i0]> ∅) h [B] n =
                Ok (bm, holder, [B]) /\
              bm !! di_backendName d0 = Some info /\
              memSize info = availableMemory d0 /\ backend info = Some B).
  { intros bk h i0 i n Hmem Hb.
    destruct (genBackendMap_loop_same_name bk (di_backendName d0) rest i
                (<[di_backendName d0 := i0]> ∅) h [B] n i0)
      as (info' & Hrun & Hmem' & Hb'); [apply lookup_insert_eq | exact Hall |].
    eexists _, h, info'. split; [exact Hrun|]. split; [apply lookup_insert_eq|].
    split; congruence. }
  destruct HB as [(Hbk & Hh & HB)|(bs & Hbk)]; rewrite Hbk; [rewrite Hh; subst B|]; simpl;
    apply Hgo; reflexivity.
Qed.

Lemma find_name_elem (F : Function) (funcs : list Function) :
  F ∈ funcs ->
  exists F', find (fun G => bool_decide (getName G = getName F)) funcs = Some F' /\
             getName F' = getName F /\ F' ∈ funcs.
Proof.
  induction funcs as [|G funcs IH]; intros Hin; [inversion Hin|].
  simpl. destruct (decide (getName G = getName F)) as [E|E].
  - rewrite bool_decide_eq_true_2 by exact E. exists G. split; [reflexivity|].
    split; [exact E | left].
  - rewrite bool_decide_eq_false_2 by exact E.
    apply elem_of_cons in Hin as [->|Hin]; [congruence|].
    destruct (IH Hin) as (F' & Hf & Hn & Hi). exists F'. split; [exact Hf|].
    split; [exact Hn | right; exact Hi].
Qed.

Lemma selectRepFunc_fold (memSize : Z) (all funcs : list Function) :
  forall ret mx,
    (forall F, F ∈ funcs -> F ∈ all) ->
    (ret = None \/ exists F, F ∈ all /\ ret = Some (getName F)) ->
    let r :=
      fold_left
        (fun '(ret, maxMemSize) F =>
           let curSize := fst (fold_left addPlaceholders (getNodes F) (memSize, ∅)) in
           if bool_decide (ret = None) || (curSize >? maxMemSize)
           then (Some (getName F), curSize)
           else (ret, maxMemSize))
        funcs (ret, mx) in
    (funcs = [] /\ fst r = ret) \/ exists F, F ∈ all /\ fst r = Some (getName F).
Proof.
  induction funcs as [|G funcs IH]; intros ret mx Hsub Hret; simpl.
  - left. split; reflexivity.
  - right.
    assert (Hsub' : forall F, F ∈ funcs -> F ∈ all).
    { intros F HF. apply Hsub. right. exact HF. }
    assert (HG : G ∈ all) by (apply Hsub; left).
    destruct (bool_decide (ret = None) ||
              (fst (fold_left addPlaceholders (getNodes G) (memSize, ∅)) >? mx)) eqn:Eb.
    + destruct (IH (Some (getName G))
                   (fst (fold_left addPlaceholders (getNodes G) (memSize, ∅))) Hsub')
        as [[_ Hr]|Hr]; [right; eauto | | exact Hr].
      exists G. split; [exact HG | exact Hr].
    + destruct Hret as [->|Hret].
      { rewrite bool_decide_eq_true_2 in Eb by reflexivity. discriminate Eb. }
      destruct (IH ret mx Hsub') as [[_ Hr]|Hr]; [right; exact Hret | | exact Hr].
      destruct Hret as (F & HF & ->). exists F. split; [exact HF | exact Hr].
Qed.

Lemma selectRepFunc_some (parent : Module) (memSize : Z) :
  getFunctions parent <> [] ->
  exists F, F ∈ getFunctions parent /\
            fst (selectRepFunc parent memSize) = Some (getName F).
Proof.
  intros Hne. unfold selectRepFunc.
  destruct (selectRepFunc_fold memSize (getFunctions parent) (getFunctions parent) None 0)
    as [[Hnil _]|H]; [auto | left; reflexivity | contradiction | exact H].
Qed.

Lemma forEach_ok {A} (f : A -> Outcome unit) (l : list A) :
  (forall x, x ∈ l -> f x = Ok tt) -> forEach f l = Ok tt.
Proof.
  induction l as [|x l IH]; intros H; [reflexivity|].
  simpl. rewrite H by left. simpl. apply IH. intros y Hy. apply H. right. exact Hy.
Qed.

Lemma finalize_ok (module_ : Module) (partitions : list DAG) (mapping : NodeToFunctionMap) :
  (forall F, F ∈ getFunctions module_ -> verifyFunction F = true) ->
  (dumpPartition = true ->
   exists first, partitions !! 0%nat = Some first /\
     forall node, node ∈ nodes first ->
       is_Some (getFunction module_ (name node)) /\ logicalDevices node <> []) ->
  finalize module_ partitions mapping = Ok tt.
Proof.
  intros Hv Hdump. unfold finalize.
  rewrite forEach_ok.
  2:{ intros F HF. rewrite (Hv F HF). reflexivity. }
  simpl. destruct dumpPartition; [|reflexivity].
  destruct (Hdump eq_refl) as (first & Hfirst & Hnodes).
  unfold at_ at 1. change (Z.to_nat 0) with 0%nat. simpl (0 <? 0).
  cbv iota. rewrite Hfirst. simpl.
  apply forEach_ok. intros node Hnode.
  destruct (Hnodes node Hnode) as [[subF ->] Hne].
  destruct (logicalDevices node) as [|l ls] eqn:El; [congruence|]. reflexivity.
Qed.

Lemma createDAGWithoutPartition_loop_ok (optimized : bool) (B : Backend)
    (backendName : string) (cctx : CompilationContext) (funcs : list Function) :
  (optimized = false ->
   forall F, F ∈ funcs ->
     exists F', optimizeFunction F B cctx = (F', None) /\
                getName F' = getName F /\ verifyFunction F' = true) ->
  (optimized = true -> forall F, F ∈ funcs -> verifyFunction F = true) ->
  exists funcs',
    createDAGWithoutPartition_loop optimized (Some B) backendName cctx funcs =
      (funcs', Ok (map (fun F => wholeFunctionDAG (getName F) backendName) funcs)) /\
    map getName funcs' = map getName funcs /\
    (forall F', F' ∈ funcs' -> verifyFunction F' = true).
Proof.
  induction funcs as [|F funcs IH]; intros Hopt Hver.
  - exists []. simpl. repeat split. intros F' HF'. inversion HF'.
  - destruct IH as (funcs' & Hrun & Hnames & Hv).
    { intros E G HG. apply (Hopt E). right. exact HG. }
    { intros E G HG. apply (Hver E). right. exact HG. }
    simpl. unfold optimizeUnlessOptimized. destruct optimized.
    + rewrite Hrun. exists (F :: funcs'). simpl. rewrite Hnames. repeat split.
      intros F' HF'. apply elem_of_cons in HF' as [->|HF']; [|apply Hv; exact HF'].
      apply (Hver eq_refl). left.
    + destruct (Hopt eq_refl F) as (F' & Ho & Hn & Hvf); [left|].
      rewrite Ho, Hrun. exists (F' :: funcs'). simpl. rewrite Hnames, Hn. repeat split.
      intros G HG. apply elem_of_cons in HG as [->|HG]; [exact Hvf | apply Hv; exact HG].
Qed.

Lemma saturateHost_unsplit (devices : list DeviceInfo) (backendName : string)
    (funcs : list Function) :
  devices <> [] ->
  Z.of_nat (length devices) < 2 ^ 32 ->
  saturateHost devices 1 (map (fun F => wholeFunctionDAG (getName F) backendName) funcs) =
  Ok (map (fun F => unsplitDAG (getName F) backendName (seqZ 0 (Z.of_nat (length devices))))
          funcs).
Proof.
  intros Hne Hlen.
  assert (Hpos : 1 <= Z.of_nat (length devices)).
  { destruct devices; [congruence | simpl length; lia]. }
  rewrite saturateHost_exact; [| lia | exact Hlen |].
  - rewrite Z.div_1_r. f_equal.
    destruct (Z.of_nat (length devices) <? 2) eqn:E.
    + apply Z.ltb_lt in E. assert (H1 : Z.of_nat (length devices) = 1) by lia.
      rewrite H1. reflexivity.
    + apply Z.ltb_ge in E. rewrite map_map. apply map_ext. intros F.
      unfold wholeFunctionDAG, unsplitDAG. simpl. f_equal. f_equal.
      unfold set_logicalDevices, extendedDevices. simpl. f_equal.
      rewrite Z.div_1_r, app_nil_r.
      rewrite (seqZ_cons 0) by lia. f_equal.
      replace (Z.succ 0) with 1 by lia. replace (Z.pred (Z.of_nat (length devices)))
        with (Z.of_nat (length devices) - 1) by lia.
      rewrite <- (map_id (seqZ 1 (Z.of_nat (length devices) - 1))) at 2.
      apply map_ext. intros i. lia.
  - intros network node L Hn Hnode HL.
    apply list_elem_of_In, in_map_iff in Hn as (F & <- & _).
    simpl in Hnode. apply list_elem_of_singleton in Hnode. subst node.
    simpl in HL. apply list_elem_of_singleton in HL. subst L. lia.
Qed.

(** C8 (amended).  Take a Partitioner whose backend map is still empty, as
    both constructors leave it, over at least one device, fewer than 2^32
    of them and all of one backend name, and a Module with at least one
    Function whose working-set estimate [memSize_] is strictly below the
    memory of the first device.  Let the Backend that [genBackendMap] takes
    for the first device, the first of those handed in or the one the
    factory creates when none is, carry the name of the device, and let the
    optimizer (when called) and [verify] report no error and keep Function
    names.  Then [heterogeneousPartition] returns one DAG per Function of
    the Module: a root named after the Function, without backend and with
    logical devices [0], and one child named after the Function on that
    backend.  The child holds logical devices [0] when saturation was not
    asked for, and 0, 1, ..., D-1 over the D devices when it was.  The
    Functions of the Module keep their names: none is added or split. *)
Theorem heterogeneousPartition_single_backend_fits
    (P : Partitioner) (d0 : DeviceInfo) (rest : list DeviceInfo) (B : Backend)
    (cctx : CompilationContext) :
  backendMap_ P = ∅ ->
  firstBackendOf P d0 B ->
  getBackendName B = di_backendName d0 ->
  deviceInfo_ P = d0 :: rest ->
  (forall d, d ∈ rest -> di_backendName d = di_backendName d0) ->
  Z.of_nat (length (d0 :: rest)) < 2 ^ 32 ->
  getFunctions (module_ P) <> [] ->
  snd (selectRepFunc (module_ P) (memSize_ P)) < availableMemory d0 ->
  (optimized_ P = false ->
   forall F, F ∈ getFunctions (module_ P) ->
     exists F', optimizeFunction F B cctx = (F', None) /\
                getName F' = getName F /\ verifyFunction F' = true) ->
  (optimized_ P = true ->
   forall F, F ∈ getFunctions (module_ P) -> verifyFunction F = true) ->
  exists P',
    heterogeneousPartition cctx P =
      (Ok (map (fun F =>
                  {| root := {| children := [NodeRef 0]; parents := []; deviceIDs := [];
                                backendName := ""; logicalDevices := [0];
                                currentDeviceIdx := 0; name := getName F |};
                     nodes := [{| children := []; parents := [RootRef]; deviceIDs := [];
                                  backendName := di_backendName d0;
                                  logicalDevices :=
                                    if saturateHost_ P
                                    then seqZ 0 (Z.of_nat (length (d0 :: rest)))
                                    else [0];
                                  currentDeviceIdx := 0; name := getName F |}] |})
               (getFunctions (module_ P))),
       P') /\
    map getName (getFunctions (module_ P')) = map getName (getFunctions (module_ P)).
Proof.
  intros Hmap HB Hname Hdev Hsame Hlen Hfuncs Hfits Hopt Hver.
  destruct (genBackendMap_single_backend P B d0 rest HB Hsame)
    as (bm & holder & info & Hgen & Hbm & Hmem & Hb).
  set (P1 := set_backendMap_ bm holder P).
  assert (Hg : genBackendMapM P = (Ok [B], P1)).
  { unfold genBackendMapM. rewrite Hdev, Hmap, Hgen. reflexivity. }
  destruct (selectRepFunc (module_ P) (memSize_ P)) as [repF sz] eqn:Esel.
  set (P2 := set_F_ repF sz P1).
  assert (Hs : selectRepFuncM P1 = (Ok tt, P2)).
  { unfold selectRepFuncM, modify. change (module_ P1) with (module_ P).
    change (memSize_ P1) with (memSize_ P). rewrite Esel. reflexivity. }
  destruct (selectRepFunc_some (module_ P) (memSize_ P) Hfuncs) as (F0 & HF0 & Hrep).
  rewrite Esel in Hrep. simpl in Hrep. subst repF.
  destruct (find_name_elem F0 _ HF0) as (F & Hfind & _ & _).
  assert (Hd : derefF_ P2 = (Ok F, P2)).
  { unfold derefF_. change (F_ P2) with (Some (getName F0)).
    change (module_ P2) with (module_ P). unfold getFunction. rewrite Hfind. reflexivity. }
  destruct (createDAGWithoutPartition_loop_ok (optimized_ P) B (di_backendName d0) cctx
              (getFunctions (module_ P)) Hopt Hver) as (funcs' & Hloop & Hnames & Hv).
  set (module' := {| getFunctions := funcs';
                     getConstantsSize := getConstantsSize (module_ P) |}).
  set (P3 := set_backendMap_ (withEntry (di_backendName d0) bm) holder P2).
  exists (set_module_ module' P3). split; [|exact Hnames].
  unfold heterogeneousPartition, bind. rewrite Hg, Hs, Hd.
  change (length [B] =? 1)%nat with true. cbv iota.
  unfold lift, get, backendMapAt. change (at_ [B] 0) with (Ok B). cbv iota beta.
  rewrite Hname.
  change (backendMap_ P2) with bm. change (backendHolder P2) with holder. fold P3.
  change (memSize_ P3) with sz. change (backendMap_ P3) with (withEntry (di_backendName d0) bm).
  unfold backendInfoOf at 1. rewrite Hbm.
  change (default BackendInfo_default (Some info)) with info. rewrite Hmem.
  simpl in Hfits. apply Z.ltb_lt in Hfits. rewrite Hfits.
  unfold createDAGWithoutPartition.
  change (optimized_ P3) with (optimized_ P). change (module_ P3) with (module_ P).
  unfold withEntry, backendInfoOf. rewrite Hbm. rewrite Hbm.
  change (default BackendInfo_default (Some info)) with info. rewrite Hb, Hloop.
  change (saturateHost_ P3) with (saturateHost_ P).
  change (deviceInfo_ P3) with (deviceInfo_ P). rewrite Hdev.
  fold module'. f_equal.
  assert (Hfin : forall devs : list DeviceIDTy, devs <> [] ->
            finalize (module_ (set_module_ module' P3))
              (map (fun F => unsplitDAG (getName F) (di_backendName d0) devs)
                   (getFunctions (module_ P)))
              NodeToFunctionMap_empty = Ok tt).
  { intros devs Hdevs. apply finalize_ok; [exact Hv|].
    intros _. destruct (getFunctions (module_ P)) as [|G funcs] eqn:EG; [congruence|].
    eexists. split; [reflexivity|]. intros node Hnode.
    simpl in Hnode. apply list_elem_of_singleton in Hnode. subst node. simpl.
    split; [|exact Hdevs].
    destruct funcs' as [|G' funcs'']; [discriminate Hnames|].
    simpl in Hnames. injection Hnames as HnG _.
    unfold getFunction. simpl. rewrite bool_decide_eq_true_2 by exact HnG. eauto. }
  unfold obind at 1.
  destruct (saturateHost_ P).
  - rewrite saturateHost_unsplit; [| discriminate | exact Hlen].
    unfold obind at 1.
    rewrite Hfin; [reflexivity|].
    rewrite seqZ_cons by (simpl length; lia). discriminate.
  - unfold obind at 1.
    change (map (fun F => wholeFunctionDAG (getName F) (di_backendName d0))
                (getFunctions (module_ P)))
      with (map (fun F => unsplitDAG (getName F) (di_backendName d0) [0])
                (getFunctions (module_ P))).
    rewrite Hfin; [reflexivity | discriminate].
Qed.

(** ** Backend-based partition *)

Lemma findBackend_head_accepts bm B rest N :
  accepts bm B N -> findBackend bm (B :: rest) N = Some (getBackendName B).
Proof.
  intros (Hnon & Hsup & Hop). simpl.
  rewrite bool_decide_eq_false_2 by exact Hnon.
  assert (Hs : negb (bool_decide (supportedNodesKinds (backendInfoOf bm (getBackendName B)) = ∅))
               && negb (bool_decide (getKind N ∈
                     supportedNodesKinds (backendInfoOf bm (getBackendName B)))) = false).
  { destruct Hsup as [He|Hin].
    - rewrite (bool_decide_eq_true_2 _ He). reflexivity.
    - rewrite (bool_decide_eq_true_2 _ Hin). apply andb_false_r. }
  rewrite Hs.
  assert (Ho : (shouldLower B N || isOpSupported B N) = true).
  { destruct Hop as [->| ->]; [reflexivity | apply orb_true_r]. }
  rewrite Ho. reflexivity.
Qed.

Lemma findBackend_head_rejects bm B rest N :
  ~ accepts bm B N -> findBackend bm (B :: rest) N = findBackend bm rest N.
Proof.
  intros Hrej. simpl.
  destruct (bool_decide (getKind N ∈ _)) eqn:E1; [reflexivity|].
  apply bool_decide_eq_false in E1.
  destruct (negb (bool_decide (_ = ∅)) && negb (bool_decide (getKind N ∈ _))) eqn:E2;
    [reflexivity|].
  destruct (shouldLower B N || isOpSupported B N) eqn:E3; [|reflexivity].
  exfalso. apply Hrej. split; [exact E1|]. split.
  - apply andb_false_iff in E2 as [E2|E2]; apply negb_false_iff, bool_decide_eq_true in E2;
      [left | right]; exact E2.
  - apply orb_true_iff in E3. exact E3.
Qed.

Lemma accepts_dec bm B N : accepts bm B N \/ ~ accepts bm B N.
Proof.
  clear - bm B N. unfold accepts.
  destruct (decide (getKind N ∈ nonSupportedNodesKinds (backendInfoOf bm (getBackendName B))));
    [right; tauto|].
  destruct (decide (supportedNodesKinds (backendInfoOf bm (getBackendName B)) = ∅)) as [E|E];
    destruct (decide (getKind N ∈ supportedNodesKinds (backendInfoOf bm (getBackendName B))));
    destruct (shouldLower B N); destruct (isOpSupported B N);
    try (left; split; [assumption|]; split; [tauto | tauto]);
    right; intros (_ & [?|?] & [?|?]); congruence.
Qed.

Lemma findBackend_spec bm backends N :
  match findBackend bm backends N with
  | Some b =>
      exists pre B post,
        backends = pre ++ B :: post /\ getBackendName B = b /\ accepts bm B N /\
        forall B', B' ∈ pre -> ~ accepts bm B' N
  | None => forall B, B ∈ backends -> ~ accepts bm B N
  end.
Proof.
  induction backends as [|B rest IH].
  - simpl. intros B HB. inversion HB.
  - destruct (accepts_dec bm B N) as [Hacc|Hrej].
    + rewrite (findBackend_head_accepts _ _ _ _ Hacc).
      exists [], B, rest. split; [reflexivity|]. split; [reflexivity|].
      split; [exact Hacc|]. intros B' HB'. inversion HB'.
    + rewrite (findBackend_head_rejects _ _ _ _ Hrej).
      destruct (findBackend bm rest N) as [b|].
      * destruct IH as (pre & B0 & post & -> & Hn & Hacc & Hpre).
        exists (B :: pre), B0, post. split; [reflexivity|]. split; [exact Hn|].
        split; [exact Hacc|].
        intros B' HB'. apply elem_of_cons in HB' as [->|HB']; [exact Hrej | apply Hpre, HB'].
      * intros B' HB'. apply elem_of_cons in HB' as [->|HB']; [exact Hrej | apply IH, HB'].
Qed.

Lemma findBackend_accepted bm backends N b :
  findBackend bm backends N = Some b -> exists B, B ∈ backends /\ accepts bm B N.
Proof.
  intros Hf. pose proof (findBackend_spec bm backends N) as Hfs. rewrite Hf in Hfs.
  destruct Hfs as (pre & B & post & -> & _ & Hacc & _).
  exists B. split; [|exact Hacc]. apply elem_of_app. right. left.
Qed.

Lemma assignBackends_spec bm backends (nodes : list Node) :
  forall m0 : gmap string string,
    NoDup (map getNodeName nodes) ->
    (forall N, N ∈ nodes -> m0 !! getNodeName N = None) ->
    match assignBackends bm backends nodes m0 with
    | Ok m =>
        (forall N, N ∈ nodes ->
           exists b, findBackend bm backends N = Some b /\ m !! getNodeName N = Some b) /\
        (forall k, (forall N, N ∈ nodes -> getNodeName N <> k) -> m !! k = m0 !! k)
    | Err e => e = notSupportedErr /\ exists N, N ∈ nodes /\ findBackend bm backends N = None
    | Undef _ => False
    end.
Proof.
  induction nodes as [|N nodes IH]; intros m0 Hnd Hfresh.
  - simpl. split; [intros N HN; inversion HN | reflexivity].
  - simpl in Hnd. apply NoDup_cons in Hnd as [Hnotin Hnd]. simpl.
    destruct (findBackend bm backends N) as [b|] eqn:Ef.
    + rewrite lookup_insert_eq.
      rewrite bool_decide_eq_true_2 by eauto. simpl.
      specialize (IH (<[getNodeName N := b]> m0) Hnd).
      destruct (assignBackends bm backends nodes (<[getNodeName N := b]> m0)) as [m|e|u].
      * destruct IH as [Hin Hout].
        { intros N' HN'. rewrite lookup_insert_ne; [apply Hfresh; right; exact HN'|].
          intros E. apply Hnotin. rewrite E. apply list_elem_of_fmap. eauto. }
        split.
        -- intros N' HN'. apply elem_of_cons in HN' as [->|HN']; [|apply Hin, HN'].
           exists b. split; [exact Ef|]. rewrite Hout; [apply lookup_insert_eq|].
           intros N' HN' E. apply Hnotin. rewrite <- E. apply list_elem_of_fmap. eauto.
        -- intros k Hk. rewrite Hout.
           ++ apply lookup_insert_ne. apply Hk. left.
           ++ intros N' HN'. apply Hk. right. exact HN'.
      * destruct IH as [-> (N' & HN' & Hf)].
        { intros N' HN'. rewrite lookup_insert_ne; [apply Hfresh; right; exact HN'|].
          intros E. apply Hnotin. rewrite E. apply list_elem_of_fmap. eauto. }
        split; [reflexivity|]. exists N'. split; [right; exact HN' | exact Hf].
      * apply IH.
        intros N' HN'. rewrite lookup_insert_ne; [apply Hfresh; right; exact HN'|].
        intros E. apply Hnotin. rewrite E. apply list_elem_of_fmap. eauto.
    + rewrite (Hfresh N) by left.
      rewrite bool_decide_eq_false_2 by (intros [? ?]; discriminate). simpl.
      split; [reflexivity|]. exists N. split; [left | exact Ef].
Qed.

Lemma partName_inj (F : Function) (k1 k2 : Z) : partName F k1 = partName F k2 -> k1 = k2.
Proof.
  unfold partName. intros H.
  apply String.app_inj in H. apply String.app_inj in H.
  apply (inj pretty) in H. exact H.
Qed.

Lemma fold_left_snoc {A B} (f : A -> B -> A) (l : list B) (x : B) (a : A) :
  fold_left f (l ++ [x]) a = f (fold_left f l a) x.
Proof. rewrite fold_left_app. reflexivity. Qed.

Lemma colourStep_inv (cctx : CompilationContext) (F : Function)
    (n2b : gmap string string) (processed : list Node) (st : ColourState) (N : Node) :
  isProfile cctx = false ->
  colourInv F n2b processed st ->
  colourInv F n2b (processed ++ [N]) (colourStep cctx F n2b st N).
Proof.
  intros Hprof (Hc & HnewF & Hcur & Hdom & Hproc).
  unfold colourStep, recordPartition. rewrite Hprof.
  fold (backendOfNode n2b N).
  destruct (decide (backendOfNode n2b N = cs_backendName st)) as [E|E].
  - rewrite (bool_decide_eq_true_2 _ E). simpl.
    split; [exact Hc|]. split; [exact HnewF|]. split; [exact Hcur|]. split; [exact Hdom|].
    intros N' HN'. apply elem_of_app in HN' as [HN'|HN'].
    + destruct (decide (getNodeName N = getNodeName N')) as [En|En].
      * exists (cs_newF st). simpl. rewrite En, lookup_insert_eq. split; [reflexivity|].
        rewrite Hcur. f_equal. rewrite <- E. unfold backendOfNode. rewrite En. reflexivity.
      * destruct (Hproc N' HN') as (fn & H1 & H2). exists fn. simpl.
        rewrite lookup_insert_ne by exact En. split; assumption.
    + apply list_elem_of_singleton in HN'. subst N'.
      exists (cs_newF st). simpl. rewrite lookup_insert_eq. split; [reflexivity|].
      rewrite Hcur, E. reflexivity.
  - rewrite (bool_decide_eq_false_2 _ E). simpl.
    assert (Hfresh : forall fn, is_Some (backendName_ (cs_mapping st) !! fn) ->
                                fn <> partName F (cs_color st + 1)).
    { intros fn Hfn Heq. destruct (Hdom fn Hfn) as (k & Hk & ->).
      apply partName_inj in Heq. lia. }
    split; [simpl; lia|]. split; [reflexivity|]. split; [simpl; apply lookup_insert_eq|]. split.
    + simpl. intros fn Hfn.
      destruct (decide (partName F (cs_color st + 1) = fn)) as [<-|Hne].
      * exists (cs_color st + 1). split; [lia | reflexivity].
      * rewrite lookup_insert_ne in Hfn by exact Hne.
        destruct (Hdom fn Hfn) as (k & Hk & ->). exists k. split; [lia | reflexivity].
    + intros N' HN'. apply elem_of_app in HN' as [HN'|HN'].
      * destruct (decide (getNodeName N = getNodeName N')) as [En|En].
        -- exists (partName F (cs_color st + 1)). simpl. rewrite En, !lookup_insert_eq.
           split; [reflexivity|]. unfold backendOfNode. rewrite En. reflexivity.
        -- destruct (Hproc N' HN') as (fn & H1 & H2). exists fn. simpl.
           rewrite lookup_insert_ne by exact En. split; [exact H1|].
           rewrite lookup_insert_ne; [exact H2|].
           intros Heq. apply (Hfresh fn); [rewrite H2; eauto | congruence].
      * apply list_elem_of_singleton in HN'. subst N'.
        exists (partName F (cs_color st + 1)). simpl. rewrite !lookup_insert_eq.
        split; reflexivity.
Qed.

Lemma colourWalk_inv (cctx : CompilationContext) (F : Function)
    (n2b : gmap string string) (order : list Node) :
  isProfile cctx = false ->
  forall processed st,
    colourInv F n2b processed st ->
    colourInv F n2b (processed ++ order) (fold_left (colourStep cctx F n2b) order st).
Proof.
  intros Hprof. induction order as [|N order IH]; intros processed st Hinv.
  - rewrite app_nil_r. exact Hinv.
  - simpl. replace (processed ++ N :: order) with ((processed ++ [N]) ++ order)
      by (rewrite <- app_assoc; reflexivity).
    apply IH. apply colourStep_inv; assumption.
Qed.

Lemma backendInfoOf_withEntry (nm nm' : string) (m : gmap string BackendInfo) :
  backendInfoOf (withEntry nm m) nm' = backendInfoOf m nm'.
Proof.
  unfold backendInfoOf, withEntry. destruct (m !! nm) eqn:E; [reflexivity|].
  destruct (decide (nm = nm')) as [<-|Hne].
  - rewrite lookup_insert_eq, E. reflexivity.
  - rewrite lookup_insert_ne by exact Hne. reflexivity.
Qed.

Lemma defaultsAdded_refl backends m : defaultsAdded backends m m.
Proof. intros nm. left. reflexivity. Qed.

Lemma defaultsAdded_trans backends m1 m2 m3 :
  defaultsAdded backends m1 m2 -> defaultsAdded backends m2 m3 ->
  defaultsAdded backends m1 m3.
Proof.
  intros H12 H23 nm. destruct (H23 nm) as [E23|(E2 & E3 & HB)].
  - destruct (H12 nm) as [E12|(E1 & E2 & HB)].
    + left. congruence.
    + right. split; [exact E1|]. split; [congruence | exact HB].
  - destruct (H12 nm) as [E12|(E1 & E2' & _)]; [|congruence].
    right. split; [congruence|]. split; [exact E3 | exact HB].
Qed.

Lemma withEntry_defaultsAdded backends B m :
  B ∈ backends -> defaultsAdded backends m (withEntry (getBackendName B) m).
Proof.
  intros HB nm. unfold withEntry.
  destruct (m !! getBackendName B) eqn:E; [left; reflexivity|].
  destruct (decide (getBackendName B = nm)) as [<-|Hne].
  - right. rewrite lookup_insert_eq. eauto.
  - left. apply lookup_insert_ne. exact Hne.
Qed.

Lemma findBackend_map_defaultsAdded backends N (bs : list Backend) :
  forall m, (forall B, B ∈ bs -> B ∈ backends) ->
            defaultsAdded backends m (findBackend_map m bs N).
Proof.
  induction bs as [|B bs IH]; intros m Hsub; [apply defaultsAdded_refl|].
  assert (HB : B ∈ backends) by (apply Hsub; left).
  assert (Hbs : forall B', B' ∈ bs -> B' ∈ backends)
    by (intros B' HB'; apply Hsub; right; exact HB').
  assert (H1 : defaultsAdded backends m (withEntry (getBackendName B) m))
    by (apply withEntry_defaultsAdded; exact HB).
  assert (H2 : defaultsAdded backends m
                 (withEntry (getBackendName B) (withEntry (getBackendName B) m))).
  { eapply defaultsAdded_trans; [exact H1 | apply withEntry_defaultsAdded; exact HB]. }
  simpl.
  repeat match goal with
         | |- context [if ?c then _ else _] => destruct c
         end;
    try exact H2;
    (eapply defaultsAdded_trans; [|apply IH; exact Hbs]); assumption.
Qed.

Lemma assignBackends_map_defaultsAdded backends (nodes : list Node) :
  forall m n2b, defaultsAdded backends m (assignBackends_map m backends nodes n2b).
Proof.
  induction nodes as [|N nodes IH]; intros m n2b; [apply defaultsAdded_refl|].
  assert (H1 : defaultsAdded backends m (findBackend_map m backends N))
    by (apply findBackend_map_defaultsAdded; auto).
  simpl. destruct (bool_decide _); [|exact H1].
  eapply defaultsAdded_trans; [exact H1 | apply IH].
Qed.

(** The search and the loop over the nodes find the same backends on a map
    to which default entries have been added: the reads of a map and of the
    map they leave yield the same values. *)
Lemma backendInfoOf_defaultsAdded backends m m' nm :
  defaultsAdded backends m m' -> backendInfoOf m' nm = backendInfoOf m nm.
Proof.
  intros Hadd. unfold backendInfoOf.
  destruct (Hadd nm) as [->|(-> & -> & _)]; reflexivity.
Qed.

Lemma findBackend_defaultsAdded backends m m' (bs : list Backend) N :
  defaultsAdded backends m m' -> findBackend m' bs N = findBackend m bs N.
Proof.
  intros Hadd. induction bs as [|B bs IH]; [reflexivity|].
  simpl. rewrite !(backendInfoOf_defaultsAdded backends m m') by exact Hadd.
  rewrite IH. reflexivity.
Qed.

Lemma assignBackends_defaultsAdded backends m m' (bs : list Backend) (nodes : list Node) :
  defaultsAdded backends m m' ->
  forall n2b, assignBackends m' bs nodes n2b = assignBackends m bs nodes n2b.
Proof.
  intros Hadd. induction nodes as [|N nodes IH]; intros n2b; [reflexivity|].
  simpl. rewrite (findBackend_defaultsAdded backends m m') by exact Hadd.
  destruct (RETURN_ERR_IF_NOT _ _ _); simpl; [apply IH | reflexivity | reflexivity].
Qed.

(** Hence the search and the loop, which the model runs on the map as it
    was, go as in the source, where each Backend and each node is handled
    on the map that the reads before it have left. *)
Lemma findBackend_threaded m (B : Backend) (rest : list Backend) N :
  findBackend m (B :: rest) N =
  let nonSupported := nonSupportedNodesKinds (backendInfoOf m (getBackendName B)) in
  let m1 := withEntry (getBackendName B) m in
  if bool_decide (getKind N ∈ nonSupported) then findBackend m1 rest N
  else
    let supported := supportedNodesKinds (backendInfoOf m1 (getBackendName B)) in
    let m2 := withEntry (getBackendName B) m1 in
    if negb (bool_decide (supported = ∅)) && negb (bool_decide (getKind N ∈ supported))
    then findBackend m2 rest N
    else if shouldLower B N || isOpSupported B N
         then Some (getBackendName B)
         else findBackend m2 rest N.
Proof.
  cbv zeta. rewrite !backendInfoOf_withEntry.
  assert (H1 : defaultsAdded [B] m (withEntry (getBackendName B) m))
    by (apply withEntry_defaultsAdded; left).
  assert (H2 : defaultsAdded [B] m
                 (withEntry (getBackendName B) (withEntry (getBackendName B) m))).
  { eapply defaultsAdded_trans; [exact H1 | apply withEntry_defaultsAdded; left]. }
  rewrite (findBackend_defaultsAdded [B] m _ rest N H1).
  rewrite (findBackend_defaultsAdded [B] m _ rest N H2).
  reflexivity.
Qed.

Lemma assignBackends_threaded m (backends : list Backend) (N : Node) (rest : list Node)
    (n2b : gmap string string) :
  assignBackends m backends (N :: rest) n2b =
  let n2b' :=
    match findBackend m backends N with
    | Some b => <[getNodeName N := b]> n2b
    | None => n2b
    end in
  _ <~ RETURN_ERR_IF_NOT (bool_decide (is_Some (n2b' !! getNodeName N))) None
         "Node is not supported by any of the provided backends" ;;
  assignBackends (findBackend_map m backends N) backends rest n2b'.
Proof.
  cbv zeta. simpl.
  rewrite (assignBackends_defaultsAdded backends m (findBackend_map m backends N)).
  - reflexivity.
  - apply findBackend_map_defaultsAdded. auto.
Qed.

(** When every Backend's name is a key of the map, the reads insert
    nothing. *)
Lemma defaultsAdded_known backends m m' :
  (forall B, B ∈ backends -> is_Some (m !! getBackendName B)) ->
  defaultsAdded backends m m' -> m' = m.
Proof.
  intros Hknown Hadd. apply map_eq. intros nm.
  destruct (Hadd nm) as [E|(E & _ & B & HB & <-)]; [exact E|].
  destruct (Hknown B HB) as [info Hinfo]. congruence.
Qed.

(** Each sub-Function recorded in the mapping is recorded under the same
    backend in [funcToBackend]. *)
Lemma colourWalk_funcToBackend (cctx : CompilationContext) (F : Function)
    (n2b : gmap string string) (order : list Node) :
  forall st,
    (forall fn, is_Some (backendName_ (cs_mapping st) !! fn) ->
                cs_funcToBackend st !! fn = backendName_ (cs_mapping st) !! fn) ->
    let st' := fold_left (colourStep cctx F n2b) order st in
    forall fn, is_Some (backendName_ (cs_mapping st') !! fn) ->
               cs_funcToBackend st' !! fn = backendName_ (cs_mapping st') !! fn.
Proof.
  induction order as [|N order IH]; intros st Hst; [exact Hst|].
  simpl. apply IH. clear IH.
  unfold colourStep, recordPartition.
  destruct (negb (bool_decide (_ = cs_backendName st))); [|exact Hst].
  destruct (isProfile cctx); simpl; intros fn Hfn;
    (destruct (decide (partName F (cs_color st + 1) = fn)) as [<-|Hne];
     [rewrite !lookup_insert_eq; reflexivity|
      rewrite lookup_insert_ne in Hfn by exact Hne;
      rewrite !lookup_insert_ne by exact Hne; apply Hst; exact Hfn]).
Qed.

Lemma entriesAdded_ext (Q Q' : Backend -> Prop) m m' :
  (forall B, Q B <-> Q' B) -> entriesAdded Q m m' -> entriesAdded Q' m m'.
Proof.
  intros Hiff H nm. destruct (H nm) as [[E Hno]|(E1 & E2 & B & HB & Hn)].
  - left. split; [exact E|]. intros En B HB. apply (Hno En). apply Hiff. exact HB.
  - right. split; [exact E1|]. split; [exact E2|]. exists B. split; [apply Hiff, HB | exact Hn].
Qed.

Lemma entriesAdded_none (Q : Backend -> Prop) m :
  (forall B, ~ Q B) -> entriesAdded Q m m.
Proof.
  intros Hno nm. left. split; [reflexivity|]. intros _ B HB. destruct (Hno B HB).
Qed.

Lemma entriesAdded_trans (Q1 Q2 : Backend -> Prop) m1 m2 m3 :
  entriesAdded Q1 m1 m2 -> entriesAdded Q2 m2 m3 ->
  entriesAdded (fun B => Q1 B \/ Q2 B) m1 m3.
Proof.
  intros H12 H23 nm.
  destruct (H12 nm) as [[E12 Hno1]|(E1 & E2 & B & HB & Hn)];
    destruct (H23 nm) as [[E23 Hno2]|(E2' & E3 & B' & HB' & Hn')].
  - left. split; [congruence|]. intros En B [HB|HB].
    + apply (Hno1 En B HB).
    + apply Hno2; [congruence | exact HB].
  - right. split; [congruence|]. split; [exact E3|]. exists B'. auto.
  - right. split; [exact E1|]. split; [congruence|]. exists B. auto.
  - congruence.
Qed.

Lemma entriesAdded_defaultsAdded (Q : Backend -> Prop) backends m m' :
  (forall B, Q B -> B ∈ backends) -> entriesAdded Q m m' -> defaultsAdded backends m m'.
Proof.
  intros Hsub H nm. destruct (H nm) as [[E _]|(E1 & E2 & B & HB & Hn)].
  - left. exact E.
  - right. split; [exact E1|]. split; [exact E2|]. exists B. split; [apply Hsub, HB | exact Hn].
Qed.

Lemma withEntry_entriesAdded (B : Backend) m :
  entriesAdded (fun B' => B' = B) m (withEntry (getBackendName B) m).
Proof.
  intros nm. unfold withEntry.
  destruct (m !! getBackendName B) eqn:E.
  - left. split; [reflexivity|]. intros En B' ->. congruence.
  - destruct (decide (getBackendName B = nm)) as [<-|Hne].
    + right. rewrite lookup_insert_eq. eauto.
    + left. rewrite lookup_insert_ne by exact Hne. split; [reflexivity|].
      intros _ B' ->. exact Hne.
Qed.

Lemma withEntry_idemp nm m : withEntry nm (withEntry nm m) = withEntry nm m.
Proof.
  unfold withEntry. destruct (m !! nm) eqn:E; [rewrite E; reflexivity|].
  rewrite lookup_insert_eq. reflexivity.
Qed.

Lemma accepts_same_reads m m0 B N :
  (forall nm, backendInfoOf m nm = backendInfoOf m0 nm) ->
  accepts m B N <-> accepts m0 B N.
Proof. intros Hsame. unfold accepts. rewrite Hsame. reflexivity. Qed.

Lemma findBackend_same_reads m m0 (bs : list Backend) N :
  (forall nm, backendInfoOf m nm = backendInfoOf m0 nm) ->
  findBackend m bs N = findBackend m0 bs N.
Proof.
  intros Hsame. induction bs as [|B bs IH]; [reflexivity|].
  simpl. rewrite !Hsame, IH. reflexivity.
Qed.

Lemma findBackend_map_head_accepts m B rest N :
  accepts m B N -> findBackend_map m (B :: rest) N = withEntry (getBackendName B) m.
Proof.
  intros (Hnon & Hsup & Hop). simpl. rewrite withEntry_idemp, backendInfoOf_withEntry.
  rewrite bool_decide_eq_false_2 by exact Hnon.
  assert (Hs : negb (bool_decide (supportedNodesKinds (backendInfoOf m (getBackendName B)) = ∅))
               && negb (bool_decide (getKind N ∈
                     supportedNodesKinds (backendInfoOf m (getBackendName B)))) = false).
  { destruct Hsup as [He|Hin].
    - rewrite (bool_decide_eq_true_2 _ He). reflexivity.
    - rewrite (bool_decide_eq_true_2 _ Hin). apply andb_false_r. }
  rewrite Hs.
  assert (Ho : (shouldLower B N || isOpSupported B N) = true).
  { destruct Hop as [->| ->]; [reflexivity | apply orb_true_r]. }
  rewrite Ho. reflexivity.
Qed.

Lemma findBackend_map_head_rejects m B rest N :
  ~ accepts m B N ->
  findBackend_map m (B :: rest) N = findBackend_map (withEntry (getBackendName B) m) rest N.
Proof.
  intros Hrej. simpl. rewrite withEntry_idemp, backendInfoOf_withEntry.
  destruct (bool_decide (getKind N ∈ _)) eqn:E1; [reflexivity|].
  apply bool_decide_eq_false in E1.
  destruct (negb (bool_decide (_ = ∅)) && negb (bool_decide (getKind N ∈ _))) eqn:E2;
    [reflexivity|].
  destruct (shouldLower B N || isOpSupported B N) eqn:E3; [|reflexivity].
  exfalso. apply Hrej. split; [exact E1|]. split.
  - apply andb_false_iff in E2 as [E2|E2]; apply negb_false_iff, bool_decide_eq_true in E2;
      [left | right]; exact E2.
  - apply orb_true_iff in E3. exact E3.
Qed.

(** The search for [N] leaves in the map the entries of the Backends it
    came to, and no other. *)
Lemma findBackend_map_exact m0 N (bs : list Backend) :
  forall m, (forall nm, backendInfoOf m nm = backendInfoOf m0 nm) ->
            entriesAdded (asked m0 bs N) m (findBackend_map m bs N).
Proof.
  induction bs as [|B bs IH]; intros m Hsame.
  - apply entriesAdded_none. intros B (pre & post & Hsplit & _).
    destruct pre; discriminate Hsplit.
  - destruct (accepts_dec m0 B N) as [Hacc|Hrej].
    + rewrite findBackend_map_head_accepts by (apply (accepts_same_reads m m0); assumption).
      apply (entriesAdded_ext (fun B' => B' = B)); [|apply withEntry_entriesAdded].
      intros B'. split.
      * intros ->. exists [], bs. split; [reflexivity|]. intros B'' HB''. inversion HB''.
      * intros (pre & post & Hsplit & Hpre). destruct pre as [|x pre].
        -- simpl in Hsplit. congruence.
        -- simpl in Hsplit. injection Hsplit as <- _. exfalso. apply (Hpre B); [left | exact Hacc].
    + rewrite findBackend_map_head_rejects
        by (intros H; apply Hrej, (accepts_same_reads m m0); assumption).
      apply (entriesAdded_ext (fun B' => B' = B \/ asked m0 bs N B')).
      * intros B'. split.
        -- intros [->|(pre & post & -> & Hpre)].
           ++ exists [], bs. split; [reflexivity|]. intros B'' HB''. inversion HB''.
           ++ exists (B :: pre), post. split; [reflexivity|].
              intros B'' HB''. apply elem_of_cons in HB'' as [->|HB'']; [exact Hrej | auto].
        -- intros (pre & post & Hsplit & Hpre). destruct pre as [|x pre].
           ++ simpl in Hsplit. left. congruence.
           ++ simpl in Hsplit. injection Hsplit as <- ->. right.
              exists pre, post. split; [reflexivity|].
              intros B'' HB''. apply Hpre. right. exact HB''.
      * eapply entriesAdded_trans; [apply withEntry_entriesAdded|].
        apply IH. intros nm. rewrite backendInfoOf_withEntry. apply Hsame.
Qed.

Lemma asked_elem m0 backends N B : asked m0 backends N B -> B ∈ backends.
Proof. intros (pre & post & -> & _). apply elem_of_app. right. left. Qed.

(** The loop over the nodes leaves in the map the entries of the Backends
    that the searches came to: when every node is taken, those asked for
    some node; when some node is not, at which the loop returns, every
    Backend, the search for that node having gone through them all. *)
Lemma assignBackends_map_exact m0 backends (nodes : list Node) :
  forall m (n2b : gmap string string),
    (forall nm, backendInfoOf m nm = backendInfoOf m0 nm) ->
    NoDup (map getNodeName nodes) ->
    (forall N, N ∈ nodes -> n2b !! getNodeName N = None) ->
    ((forall N, N ∈ nodes -> is_Some (findBackend m0 backends N)) ->
     entriesAdded (fun B => exists N, N ∈ nodes /\ asked m0 backends N B) m
       (assignBackends_map m backends nodes n2b)) /\
    ((exists N, N ∈ nodes /\ findBackend m0 backends N = None) ->
     entriesAdded (fun B => B ∈ backends) m (assignBackends_map m backends nodes n2b)).
Proof.
  induction nodes as [|N nodes IH]; intros m n2b Hsame Hnd Hfresh.
  - split.
    + intros _. apply entriesAdded_none. intros B (N & HN & _). inversion HN.
    + intros (N & HN & _). inversion HN.
  - simpl in Hnd. apply NoDup_cons in Hnd as [Hnotin Hnd].
    pose proof (findBackend_map_exact m0 N backends m Hsame) as Hsearch.
    assert (Hsame1 : forall nm,
              backendInfoOf (findBackend_map m backends N) nm = backendInfoOf m0 nm).
    { intros nm. rewrite <- Hsame.
      apply (backendInfoOf_defaultsAdded backends).
      apply findBackend_map_defaultsAdded. auto. }
    simpl. rewrite (findBackend_same_reads m m0) by exact Hsame.
    destruct (findBackend m0 backends N) as [b|] eqn:Ef.
    + rewrite lookup_insert_eq. rewrite bool_decide_eq_true_2 by eauto.
      destruct (IH (findBackend_map m backends N) (<[getNodeName N := b]> n2b) Hsame1 Hnd)
        as [IH1 IH2].
      { intros N' HN'. rewrite lookup_insert_ne; [apply Hfresh; right; exact HN'|].
        intros E. apply Hnotin. rewrite E. apply list_elem_of_fmap. eauto. }
      split.
      * intros Hall.
        eapply entriesAdded_ext;
          [|eapply entriesAdded_trans; [exact Hsearch | apply IH1]].
        -- intros B. split.
           ++ intros [HB|(N' & HN' & HB)]; [exists N; split; [left | exact HB]|].
              exists N'. split; [right; exact HN' | exact HB].
           ++ intros (N' & HN' & HB). apply elem_of_cons in HN' as [->|HN']; [left; exact HB|].
              right. exists N'. split; [exact HN' | exact HB].
        -- intros N' HN'. apply Hall. right. exact HN'.
      * intros (N' & HN' & Hnone).
        apply elem_of_cons in HN' as [->|HN']; [congruence|].
        eapply entriesAdded_ext;
          [|eapply entriesAdded_trans; [exact Hsearch | apply IH2; eauto]].
        intros B. split; [|intros HB; right; exact HB].
        intros [HB|HB]; [apply (asked_elem m0 backends N), HB | exact HB].
    + rewrite (Hfresh N) by left.
      rewrite bool_decide_eq_false_2 by (intros [? ?]; discriminate).
      pose proof (findBackend_spec m0 backends N) as Hfs. rewrite Ef in Hfs.
      split.
      * intros Hall. destruct (Hall N) as [b Hb]; [left | congruence].
      * intros _. eapply entriesAdded_ext; [|exact Hsearch].
        intros B. split; [apply asked_elem|].
        intros HB. apply list_elem_of_split in HB as (pre & post & ->).
        exists pre, post. split; [reflexivity|].
        intros B' HB'. apply Hfs. apply elem_of_app. left. exact HB'.
Qed.

(** C5.  Node names being unique within [F]:

    - if no backend takes some node, [backendBasedPartition] returns the
      error "Node is not supported by any of the provided backends" and no
      partition: the Module is as it was;
    - if every node is taken by some backend, each node is assigned the
      first backend, in the order given, that takes it: its kind is not
      excluded by the backend, is listed by it if it lists any, and the
      backend lowers or supports the node.  The last BFS level having a
      first node, [backendBasedPartition] then returns the DAGs that
      [doPartitioning] builds from the mapping of the nodes to
      sub-Functions, and the Module is the one [doPartitioning] leaves;
      outside profiling every node of [F] found in a BFS level sits in a
      sub-Function recorded, in the mapping and in [funcToBackend], under
      the backend assigned to the node.

    Either way the Partitioner is as it was but for the Module and for
    [backendMap_], in which the reads have left a default entry under the
    name, if it was not a key, of each Backend that a search came to: of
    every Backend when the error is returned. *)
Theorem backendBasedPartition_first_accepting_backend
    (P : Partitioner) (funcToBackend : gmap string string) (F : Function)
    (backends : list Backend) (cctx : CompilationContext) :
  NoDup (map getNodeName (getNodes F)) ->
  let bm := backendMap_ P in
  let firstTaker (N : Node) (B : Backend) :=
    exists pre post, backends = pre ++ B :: post /\ accepts bm B N /\
                     forall B', B' ∈ pre -> ~ accepts bm B' N in
  ((exists N, N ∈ getNodes F /\ forall B, B ∈ backends -> ~ accepts bm B N) ->
   exists bm',
     entriesAdded (fun B => B ∈ backends) bm bm' /\
     backendBasedPartition funcToBackend F backends cctx P =
       (Err (MkErr None "Node is not supported by any of the provided backends"),
        set_backendMap_ bm' (backendHolder P) P)) /\
  ((forall N, N ∈ getNodes F -> exists B, B ∈ backends /\ accepts bm B N) ->
   exists nodeToBackendName bm',
     assignBackends bm backends (getNodes F) ∅ = Ok nodeToBackendName /\
     (forall N, N ∈ getNodes F ->
        exists B, firstTaker N B /\
                  nodeToBackendName !! getNodeName N = Some (getBackendName B)) /\
     entriesAdded (fun B => exists N, N ∈ getNodes F /\ asked bm backends N B) bm bm' /\
     forall levels N0 lastLevel,
       getBFSLevel F = levels ++ [N0 :: lastLevel] ->
       exists mapping funcToBackend' module',
         backendBasedMapping bm (module_ P) funcToBackend F backends cctx =
           Ok (mapping, funcToBackend', module') /\
         (let built :=
            doPartitioning (getName F) [getName F] module' mapping (isProfile cctx) in
          backendBasedPartition funcToBackend F backends cctx P =
            (Ok (fst built, funcToBackend'),
             set_module_ (snd built) (set_backendMap_ bm' (backendHolder P) P))) /\
         (isProfile cctx = false ->
          forall level N, level ∈ getBFSLevel F -> N ∈ level -> N ∈ getNodes F ->
            exists fn B,
              firstTaker N B /\
              nodeToFunction_ mapping !! getNodeName N = Some fn /\
              backendName_ mapping !! fn = Some (getBackendName B) /\
              funcToBackend' !! fn = Some (getBackendName B))).
Proof.
  intros Hnd bm firstTaker.
  pose proof (assignBackends_spec bm backends (getNodes F) ∅ Hnd
                (fun N _ => lookup_empty (getNodeName N))) as Hspec.
  destruct (assignBackends_map_exact bm backends (getNodes F) bm ∅
              (fun nm => eq_refl) Hnd (fun N _ => lookup_empty (getNodeName N)))
    as [Hexact_ok Hexact_err].
  split.
  - intros (N & HN & Hrej).
    exists (assignBackends_map bm backends (getNodes F) ∅). split.
    + apply Hexact_err. exists N. split; [exact HN|].
      pose proof (findBackend_spec bm backends N) as Hfs.
      destruct (findBackend bm backends N) as [b|]; [|reflexivity].
      destruct Hfs as (pre & B & post & -> & _ & Hacc & _).
      exfalso. apply (Hrej B); [|exact Hacc]. apply elem_of_app. right. left.
    + unfold backendBasedPartition, backendBasedMapping. fold bm.
      destruct (assignBackends bm backends (getNodes F) ∅) as [m|e|u]; [| |contradiction].
      * exfalso. destruct Hspec as [Hin _]. destruct (Hin N HN) as (b & Hf & _).
        pose proof (findBackend_spec bm backends N) as Hfs. rewrite Hf in Hfs.
        destruct Hfs as (pre & B & post & -> & _ & Hacc & _).
        apply (Hrej B); [|exact Hacc]. apply elem_of_app. right. left.
      * destruct Hspec as [-> _]. reflexivity.
  - intros Hall.
    destruct (assignBackends bm backends (getNodes F) ∅) as [m|e|u] eqn:Eassign;
      [| |contradiction].
    2:{ exfalso. destruct Hspec as [_ (N & HN & Hf)].
        pose proof (findBackend_spec bm backends N) as Hfs. rewrite Hf in Hfs.
        destruct (Hall N HN) as (B & HB & Hacc). exact (Hfs B HB Hacc). }
    destruct Hspec as [Hin _].
    assert (Hfirst : forall N, N ∈ getNodes F ->
              exists B, firstTaker N B /\ m !! getNodeName N = Some (getBackendName B)).
    { intros N HN. destruct (Hin N HN) as (b & Hf & Hm).
      pose proof (findBackend_spec bm backends N) as Hfs. rewrite Hf in Hfs.
      destruct Hfs as (pre & B & post & Hsplit & Hname & Hacc & Hpre).
      exists B. split; [exists pre, post; auto|]. rewrite Hname. exact Hm. }
    exists m, (assignBackends_map bm backends (getNodes F) ∅).
    split; [reflexivity|]. split; [exact Hfirst|]. split.
    { apply Hexact_ok. intros N HN. destruct (Hin N HN) as (b & Hf & _). eauto. }
    intros levels N0 lastLevel Hbfs.
    assert (Hat1 : at_ (levels ++ [N0 :: lastLevel])
                     (Z.of_nat (length (levels ++ [N0 :: lastLevel])) - 1) =
                   Ok (N0 :: lastLevel)).
    { unfold at_. rewrite length_app. simpl length.
      destruct (Z.ltb_spec (Z.of_nat (length levels + 1) - 1) 0); [lia|].
      replace (Z.to_nat (Z.of_nat (length levels + 1) - 1)) with (length levels) by lia.
      rewrite lookup_app_r by lia. rewrite Nat.sub_diag. reflexivity. }
    assert (Hrun : exists st0,
              backendBasedMapping bm (module_ P) funcToBackend F backends cctx =
                Ok (if isProfile cctx
                    then assignProfilingIDs
                           (cs_mapping (fold_left (colourStep cctx F m)
                                          (leavesFirst (getBFSLevel F)) st0))
                    else cs_mapping (fold_left (colourStep cctx F m)
                                       (leavesFirst (getBFSLevel F)) st0),
                    cs_funcToBackend (fold_left (colourStep cctx F m)
                                        (leavesFirst (getBFSLevel F)) st0),
                    cs_module (fold_left (colourStep cctx F m)
                                 (leavesFirst (getBFSLevel F)) st0)) /\
              st0 = colourStart cctx F (module_ P) funcToBackend (backendOfNode m N0)).
    { eexists. split; [|reflexivity].
      unfold backendBasedMapping. fold bm. rewrite Eassign. unfold obind at 1.
      rewrite Hbfs, Hat1. unfold obind at 1. change (at_ (N0 :: lastLevel) 0) with (Ok N0).
      unfold obind at 1. unfold colourStart, backendOfNode, assignProfilingIDs.
      destruct (recordPartition cctx (partName F 1) (default "" (m !! getNodeName N0))
                  NodeToFunctionMap_empty funcToBackend) as [mp fb].
      reflexivity. }
    destruct Hrun as (st0 & Hrun & Hst0).
    eexists _, _, _. split; [exact Hrun|]. split.
    + unfold backendBasedPartition. fold bm. rewrite Hrun.
      destruct (doPartitioning _ _ _ _ _) as [partitions module2]. reflexivity.
    + intros Hprof level N Hlevel HNl HNF. rewrite Hprof.
      assert (HN : N ∈ leavesFirst (getBFSLevel F)).
      { unfold leavesFirst. apply list_elem_of_In, in_concat. exists level.
        split; apply list_elem_of_In; [apply elem_of_reverse; exact Hlevel | exact HNl]. }
      pose proof (colourWalk_inv cctx F m (leavesFirst (getBFSLevel F)) Hprof [] st0) as Hinv.
      destruct Hinv as (_ & _ & _ & _ & Hproc).
      { subst st0. unfold colourInv, colourStart, recordPartition. rewrite Hprof. simpl.
        split; [lia|]. split; [reflexivity|]. split; [apply lookup_insert_eq|].
        split; [|intros N' HN'; inversion HN'].
        intros fn Hfn. destruct (decide (partName F 1 = fn)) as [<-|Hne].
        - exists 1. split; [lia | reflexivity].
        - rewrite lookup_insert_ne in Hfn by exact Hne.
          rewrite lookup_empty in Hfn. destruct Hfn; discriminate. }
      pose proof (colourWalk_funcToBackend cctx F m (leavesFirst (getBFSLevel F)) st0) as Hf2b.
      cbv zeta in Hf2b.
      simpl in Hproc.
      destruct (Hproc N HN) as (fn & H1 & H2).
      destruct (Hfirst N HNF) as (B & HB & HmB).
      assert (H3 : backendName_
                     (cs_mapping (fold_left (colourStep cctx F m)
                                    (leavesFirst (getBFSLevel F)) st0)) !! fn =
                   Some (getBackendName B)).
      { rewrite H2. unfold backendOfNode. rewrite HmB. reflexivity. }
      exists fn, B. split; [exact HB|]. split; [exact H1|]. split; [exact H3|].
      rewrite Hf2b; [exact H3 | | rewrite H3; eauto].
      subst st0. unfold colourStart, recordPartition. rewrite Hprof. simpl.
      intros fn' Hfn'. destruct (decide (partName F 1 = fn')) as [<-|Hne].
      * rewrite !lookup_insert_eq. reflexivity.
      * rewrite lookup_insert_ne in Hfn' by exact Hne.
        rewrite lookup_empty in Hfn'. destruct Hfn'; discriminate.
Qed.

(** ** Memory-driven partition *)

Lemma initialCut_snoc F availableMemory backendName module_ (pre : list Node) (N : Node) :
  initialCut F availableMemory backendName module_ (pre ++ [N]) =
  cutStep F availableMemory backendName
    (initialCut F availableMemory backendName module_ pre) N.
Proof. unfold initialCut. apply fold_left_snoc. Qed.

Lemma seqZ_snoc (c : Z) : 0 <= c -> seqZ 1 (c + 1) = seqZ 1 c ++ [c + 1].
Proof.
  intros Hc. rewrite seqZ_app by lia. f_equal.
  rewrite seqZ_cons by lia. rewrite seqZ_nil by lia. f_equal. lia.
Qed.

Lemma cutStart_inv F backendName module_ :
  cutInv F module_ [] (cutStart F backendName module_).
Proof.
  unfold cutInv, cutStart. simpl. split; [lia|]. split; [reflexivity|].
  split; [rewrite map_app; reflexivity|]. split; [reflexivity|].
  intros N HN. inversion HN.
Qed.

Lemma cutStep_inv F availableMemory backendName module_ processed st N :
  cutInv F module_ processed st ->
  cutInv F module_ (processed ++ [N]) (cutStep F availableMemory backendName st N).
Proof.
  intros (Hc & HnewF & Hmod & Hfun & Hproc). unfold cutInv, cutStep.
  destruct (getTotalMemSize _ >? availableMemory) eqn:E; simpl.
  - split; [lia|]. split; [reflexivity|].
    rewrite seqZ_snoc by lia. rewrite !map_app, Hmod, Hfun. simpl.
    split; [rewrite <- app_assoc; reflexivity|]. split; [reflexivity|].
    intros N' HN'. apply elem_of_app in HN' as [HN'|HN'].
    + destruct (decide (getNodeName N = getNodeName N')) as [En|En].
      * exists (cut_color st + 1). rewrite En, lookup_insert_eq. split; [lia | reflexivity].
      * destruct (Hproc N' HN') as (k & Hk & Hl). exists k.
        rewrite lookup_insert_ne by exact En. split; [lia | exact Hl].
    + apply list_elem_of_singleton in HN'. subst N'.
      exists (cut_color st + 1). rewrite lookup_insert_eq. split; [lia | reflexivity].
  - split; [exact Hc|]. split; [exact HnewF|]. split; [exact Hmod|]. split; [exact Hfun|].
    intros N' HN'. apply elem_of_app in HN' as [HN'|HN'].
    + destruct (decide (getNodeName N = getNodeName N')) as [En|En].
      * exists (cut_color st). rewrite En, lookup_insert_eq, HnewF. split; [lia | reflexivity].
      * destruct (Hproc N' HN') as (k & Hk & Hl). exists k.
        rewrite lookup_insert_ne by exact En. split; [lia | exact Hl].
    + apply list_elem_of_singleton in HN'. subst N'.
      exists (cut_color st). rewrite lookup_insert_eq, HnewF. split; [lia | reflexivity].
Qed.

Lemma initialCut_inv F availableMemory backendName module_ (order : list Node) :
  cutInv F module_ order (initialCut F availableMemory backendName module_ order).
Proof.
  induction order as [|N order IH] using rev_ind.
  - apply cutStart_inv.
  - rewrite initialCut_snoc. apply cutStep_inv. exact IH.
Qed.




(** ** A full round of device selection *)

Lemma getNextDevice_step (n : DAGNode) :
  deviceIDs n <> [] -> 0 <= currentDeviceIdx n < 2 ^ 32 - 1 ->
  exists d,
    getNextDevice n = Ok (d, set_currentDeviceIdx (currentDeviceIdx n + 1) n) /\
    deviceIDs n !!
      Z.to_nat ((currentDeviceIdx n + 1) mod Z.of_nat (length (deviceIDs n))) = Some d.
Proof.
  intros Hne Hi. unfold getNextDevice.
  rewrite (wrap32_small (currentDeviceIdx n + 1)) by lia.
  destruct (deviceIDs n) as [|d0 l] eqn:E; [congruence|].
  destruct (at_in_range (d0 :: l)
              ((currentDeviceIdx n + 1) mod Z.of_nat (length (d0 :: l))))
    as (d & Hd & Hl).
  { apply Z.mod_pos_bound. simpl. lia. }
  exists d. rewrite Hd. split; [reflexivity | exact Hl].
Qed.

Lemma getNextDevices_lookup (k : nat) :
  forall n,
    deviceIDs n <> [] -> 0 <= currentDeviceIdx n ->
    currentDeviceIdx n + Z.of_nat k < 2 ^ 32 ->
    exists ds,
      getNextDevices k n =
        Ok (ds, set_currentDeviceIdx (currentDeviceIdx n + Z.of_nat k) n) /\
      length ds = k /\
      forall j, (j < k)%nat ->
        ds !! j =
        deviceIDs n !!
          Z.to_nat ((currentDeviceIdx n + 1 + Z.of_nat j)
                    mod Z.of_nat (length (deviceIDs n))).
Proof.
  induction k as [|k IH]; intros n Hne H0 Hk.
  - exists []. split; [|split; [reflexivity | intros j Hj; lia]].
    simpl. rewrite Z.add_0_r. destruct n; reflexivity.
  - destruct (getNextDevice_step n Hne) as (d & Hd & Hl); [lia|].
    destruct (IH (set_currentDeviceIdx (currentDeviceIdx n + 1) n))
      as (ds & Hds & Hlen & Hlook); [exact Hne | simpl; lia | simpl; lia |].
    exists (d :: ds). split; [|split].
    + simpl. rewrite Hd. simpl. rewrite Hds. simpl. do 2 f_equal.
      unfold set_currentDeviceIdx. simpl. f_equal. lia.
    + simpl. rewrite Hlen. reflexivity.
    + intros [|j] Hj.
      * simpl. rewrite Z.add_0_r. symmetry. exact Hl.
      * simpl. rewrite Hlook by lia. simpl. do 3 f_equal. lia.
Qed.

(** X1.  When the counter does not wrap, as many calls of [getNextDevice] as
    the node has devices hand out every entry of [deviceIDs] exactly once:
    the list rotated to start after the current index.  The counter has
    advanced by the number of devices and nothing else has changed. *)
Theorem getNextDevice_full_cycle (n : DAGNode) :
  deviceIDs n <> [] ->
  0 <= currentDeviceIdx n ->
  currentDeviceIdx n + Z.of_nat (length (deviceIDs n)) < 2 ^ 32 ->
  let handed := rotate (Z.to_nat (currentDeviceIdx n + 1)) (deviceIDs n) in
  getNextDevices (length (deviceIDs n)) n =
    Ok (handed,
        set_currentDeviceIdx (currentDeviceIdx n + Z.of_nat (length (deviceIDs n))) n) /\
  handed ≡ₚ deviceIDs n.
Proof.
  intros Hne H0 Hk handed.
  destruct (getNextDevices_lookup (length (deviceIDs n)) n Hne H0 Hk)
    as (ds & Hds & Hlen & Hlook).
  assert (Heq : ds = handed).
  { apply list_eq. intros j. subst handed.
    destruct (decide (j < length (deviceIDs n))%nat) as [Hj|Hj].
    - rewrite Hlook by exact Hj. rewrite lookup_rotate_r by exact Hj.
      unfold rotate_nat_add. rewrite Z2Nat.id by lia. reflexivity.
    - rewrite !(proj2 (lookup_ge_None _ _)); [reflexivity | |].
      + rewrite length_rotate. lia.
      + lia. }
  subst ds. split; [exact Hds|].
  subst handed. unfold rotate. rewrite Permutation_app_comm. rewrite take_drop. reflexivity.
Qed.

(** ** The order on queued requests *)

(** X2.  [InferRequest::operator>] is a strict total order on the pair
    (priority, requestID): no request is above itself, the relation is
    asymmetric and transitive, so is its complement, and two requests
    neither of which is above the other agree on priority and request ID. *)
Theorem gt_strict_total_order (a b c : InferRequest) :
  gt a a = false /\
  (gt a b = true -> gt b a = false) /\
  (gt a b = true -> gt b c = true -> gt a c = true) /\
  (gt a b = false -> gt b c = false -> gt a c = false) /\
  (gt a b = false -> gt b a = false ->
   priority a = priority b /\ requestID a = requestID b).
Proof.
  split; [apply gt_irrefl|]. split; [apply gt_true_notgt|].
  split; [|split; [apply notgt_trans|]].
  - rewrite !gt_spec. unfold keyLt. lia.
  - rewrite !gt_false_spec. unfold keyLt. lia.
Qed.

(** X3.  Emptying the queue hands out every queued request exactly once,
    and a request never leaves before one with a smaller priority value or,
    at equal priority, a smaller request ID. *)
Theorem dequeueOrder_sorted_permutation (q : list InferRequest) :
  dequeueOrder q ≡ₚ q /\
  forall i j r1 r2,
    (i < j)%nat -> dequeueOrder q !! i = Some r1 -> dequeueOrder q !! j = Some r2 ->
    priority r1 < priority r2 \/
    (priority r1 = priority r2 /\ requestID r1 <= requestID r2).
Proof.
  destruct (drain_spec (length q) q (le_n _)) as [Hp Hs].
  split; [exact Hp|]. intros i j r1 r2 Hij H1 H2.
  fold (dequeueOrder q) in Hs.
  rewrite <- (take_drop j (dequeueOrder q)) in Hs.
  assert (Hin1 : r1 ∈ take j (dequeueOrder q)).
  { apply list_elem_of_lookup. exists i. rewrite lookup_take_lt by exact Hij. exact H1. }
  assert (Hin2 : r2 ∈ drop j (dequeueOrder q)).
  { apply list_elem_of_lookup. exists 0%nat. rewrite lookup_drop, Nat.add_0_r. exact H2. }
  pose proof (StronglySorted_app_1_elem_of _ _ _ _ _ Hs Hin1 Hin2) as Hng.
  simpl in Hng. apply gt_false_spec in Hng. unfold keyLt in Hng. lia.
Qed.

(** ** The representative Function *)

Lemma selectRepFunc_fold_max (memSize : Z) (rest : list Function) :
  forall pre F mid,
    (forall G, G ∈ pre -> estimate memSize G < estimate memSize F) ->
    (forall G, G ∈ mid -> estimate memSize G <= estimate memSize F) ->
    exists pre' F' post',
      pre ++ F :: mid ++ rest = pre' ++ F' :: post' /\
      fold_left
        (fun '(ret, maxMemSize) F =>
           let curSize := fst (fold_left addPlaceholders (getNodes F) (memSize, ∅)) in
           if bool_decide (ret = None) || (curSize >? maxMemSize)
           then (Some (getName F), curSize)
           else (ret, maxMemSize))
        rest (Some (getName F), estimate memSize F) =
        (Some (getName F'), estimate memSize F') /\
      (forall G, G ∈ pre' -> estimate memSize G < estimate memSize F') /\
      (forall G, G ∈ post' -> estimate memSize G <= estimate memSize F').
Proof.
  induction rest as [|G rest IH]; intros pre F mid Hpre Hmid.
  - exists pre, F, mid. rewrite app_nil_r. auto.
  - simpl. fold (estimate memSize G).
    destruct (estimate memSize G >? estimate memSize F) eqn:Hgt.
    + apply Z.gtb_lt in Hgt.
      destruct (IH (pre ++ F :: mid) G []) as (pre' & F' & post' & Heq & Hfold & H1 & H2).
      * intros H HH. apply elem_of_app in HH as [HH|HH].
        -- specialize (Hpre _ HH). lia.
        -- apply elem_of_cons in HH as [->|HH]; [lia|]. specialize (Hmid _ HH). lia.
      * intros H HH. inversion HH.
      * exists pre', F', post'. split; [|auto].
        rewrite <- Heq. simpl. rewrite <- app_assoc. reflexivity.
    + assert (Hle : estimate memSize G <= estimate memSize F).
      { rewrite Z.gtb_ltb in Hgt. apply Z.ltb_ge in Hgt. exact Hgt. }
      destruct (IH pre F (mid ++ [G])) as (pre' & F' & post' & Heq & Hfold & H1 & H2).
      * exact Hpre.
      * intros H HH. apply elem_of_app in HH as [HH|HH]; [auto|].
        apply list_elem_of_singleton in HH. subst. exact Hle.
      * exists pre', F', post'. split; [|auto].
        rewrite <- Heq. rewrite <- app_assoc. reflexivity.
Qed.

(** X4.  [selectRepFunc] returns the first of the Functions whose estimate is
    the largest, and that estimate; on a Module without Functions it returns
    null and sets the size to 0, whatever it was. *)
Theorem selectRepFunc_first_largest (parent : Module) (memSize : Z) :
  match getFunctions parent with
  | [] => selectRepFunc parent memSize = (None, 0)
  | _ :: _ =>
      exists pre F post,
        getFunctions parent = pre ++ F :: post /\
        selectRepFunc parent memSize = (Some (getName F), estimate memSize F) /\
        (forall G, G ∈ pre -> estimate memSize G < estimate memSize F) /\
        (forall G, G ∈ post -> estimate memSize G <= estimate memSize F)
  end.
Proof.
  unfold selectRepFunc. destruct (getFunctions parent) as [|F0 rest]; [reflexivity|].
  simpl. fold (estimate memSize F0).
  destruct (selectRepFunc_fold_max memSize rest [] F0 [])
    as (pre & F & post & Heq & Hfold & H1 & H2).
  - intros G HG. inversion HG.
  - intros G HG. inversion HG.
  - exists pre, F, post. simpl in Heq. auto.
Qed.

Lemma addPlaceholders_reads (node : Node) (acc : Z * gset string) :
  addPlaceholders acc node =
  fold_left
    (fun '(curSize, pSet) '(nm, sz) =>
       if bool_decide (nm ∈ pSet) then (curSize, pSet)
       else (wrap64 (curSize + sz), {[nm]} ∪ pSet))
    (placeholderReadsOf node) acc.
Proof.
  unfold addPlaceholders, placeholderReadsOf.
  destruct (bool_decide (getKind node = SaveNodeKind)); [reflexivity|].
  revert acc. induction (getInputs node) as [|input inputs IH]; intros [cur pSet].
  - reflexivity.
  - simpl. destruct input as [nm sz|producer]; simpl; apply IH.
Qed.

Lemma estimate_reads (nodes : list Node) (acc : Z * gset string) :
  fold_left addPlaceholders nodes acc =
  fold_left
    (fun '(curSize, pSet) '(nm, sz) =>
       if bool_decide (nm ∈ pSet) then (curSize, pSet)
       else (wrap64 (curSize + sz), {[nm]} ∪ pSet))
    (flat_map placeholderReadsOf nodes) acc.
Proof.
  revert acc. induction nodes as [|node nodes IH]; intros acc; [reflexivity|].
  simpl. rewrite fold_left_app. rewrite <- addPlaceholders_reads. apply IH.
Qed.

Lemma sumZ_firstOfEach_nonneg (reads : list (string * Z)) :
  forall seen,
    (forall r, r ∈ reads -> 0 <= snd r) ->
    0 <= sumZ (map snd (firstOfEach fst seen reads)).
Proof.
  induction reads as [|[nm sz] reads IH]; intros seen Hpos.
  - unfold sumZ. simpl. lia.
  - assert (Hsz : 0 <= sz) by (apply (Hpos (nm, sz)); left).
    assert (Hrest : forall r, r ∈ reads -> 0 <= snd r)
      by (intros r Hr; apply Hpos; right; exact Hr).
    simpl. destruct (bool_decide (nm ∈ seen)); [apply IH; exact Hrest|].
    specialize (IH ({[nm]} ∪ seen) Hrest). unfold sumZ in *. simpl. lia.
Qed.

Lemma firstReads_sum (reads : list (string * Z)) :
  forall cur seen,
    0 <= cur ->
    (forall r, r ∈ reads -> 0 <= snd r) ->
    cur + sumZ (map snd (firstOfEach fst seen reads)) < 2 ^ 64 ->
    fst (fold_left
           (fun '(curSize, pSet) '(nm, sz) =>
              if bool_decide (nm ∈ pSet) then (curSize, pSet)
              else (wrap64 (curSize + sz), {[nm]} ∪ pSet))
           reads (cur, seen)) =
    cur + sumZ (map snd (firstOfEach fst seen reads)).
Proof.
  induction reads as [|[nm sz] reads IH]; intros cur seen H0 Hpos Hlt.
  - simpl. unfold sumZ. simpl. lia.
  - assert (Hsz : 0 <= sz) by (apply (Hpos (nm, sz)); left).
    assert (Hrest : forall r, r ∈ reads -> 0 <= snd r)
      by (intros r Hr; apply Hpos; right; exact Hr).
    simpl in *. destruct (bool_decide (nm ∈ seen)).
    + apply IH; assumption.
    + pose proof (sumZ_firstOfEach_nonneg reads ({[nm]} ∪ seen) Hrest) as Hsum.
      unfold sumZ in Hlt, Hsum. simpl in Hlt.
      rewrite wrap64_small by lia.
      rewrite IH; [|lia|exact Hrest|unfold sumZ; lia].
      unfold sumZ. simpl. lia.
Qed.

(** X5.  As long as the sum stays below 2^64, the estimate of a Function is
    the size passed in plus the sizes of the Placeholders its nodes read,
    each Placeholder counted once however often it is read and the reads of
    Save nodes not counted; so it is never below the size passed in. *)
Theorem estimate_counts_each_placeholder_once (memSize : Z) (F : Function) :
  0 <= memSize ->
  (forall r, r ∈ placeholderReads F -> 0 <= snd r) ->
  memSize + sumZ (map snd (firstOfEach fst ∅ (placeholderReads F))) < 2 ^ 64 ->
  estimate memSize F =
    memSize + sumZ (map snd (firstOfEach fst ∅ (placeholderReads F))) /\
  memSize <= estimate memSize F.
Proof.
  intros H0 Hpos Hlt. unfold estimate. rewrite estimate_reads.
  fold (placeholderReads F). rewrite firstReads_sum by assumption.
  split; [reflexivity|].
  pose proof (sumZ_firstOfEach_nonneg (placeholderReads F) ∅ Hpos). lia.
Qed.

(** ** Initialisation *)

(** X6.  [init] sets [multiBackendNames_] exactly when two of the devices
    differ in backend name, although it compares each device with the first
    only; it takes [memSize_] from the Module's constants and resets
    [logicalDeviceID_], so that running it again changes nothing. *)
Theorem init_detects_any_two_backends (P : Partitioner) :
  (multiBackendNames_ (init P) = true <->
   exists d1 d2, d1 ∈ deviceInfo_ P /\ d2 ∈ deviceInfo_ P /\
                 di_backendName d1 <> di_backendName d2) /\
  memSize_ (init P) = getConstantsSize (module_ P) /\
  logicalDeviceID_ (init P) = 0 /\
  init (init P) = init P.
Proof.
  split; [|split; [reflexivity | split; reflexivity]].
  split.
  - simpl. destruct (deviceInfo_ P) as [|d0 rest]; [discriminate|].
    intros H. apply existsb_exists in H as (d & Hd & Hne).
    exists d, d0. split; [right; apply list_elem_of_In; exact Hd|]. split; [left|].
    apply negb_true_iff, bool_decide_eq_false in Hne. exact Hne.
  - intros (d1 & d2 & H1 & H2 & Hne).
    destruct (multiBackendNames_ (init P)) eqn:E; [reflexivity|].
    apply init_multiBackendNames in E. exfalso. apply Hne. apply E; assumption.
Qed.

(** ** The Backends that [genBackendMap] returns *)

Lemma at_snoc {A} (h : list A) (x : A) : at_ (h ++ [x]) (Z.of_nat (length h)) = Ok x.
Proof.
  unfold at_. destruct (Z.of_nat (length h) <? 0) eqn:E; [apply Z.ltb_lt in E; lia|].
  rewrite Nat2Z.id. rewrite lookup_app_r by lia. rewrite Nat.sub_diag. reflexivity.
Qed.

Lemma genBackendMap_loop_created (devs : list DeviceInfo) :
  forall i m h bs,
    let created :=
      map (fun d => createBackend (di_backendName d))
          (firstOfEach di_backendName (dom m) devs) in
    exists m',
      genBackendMap_loop [] i devs m h bs (Z.of_nat (length h)) =
        Ok (m', h ++ created, bs ++ created) /\
      dom m' = dom m ∪ list_to_set (map di_backendName devs) /\
      (forall b, b ∉ dom m -> b ∈ map di_backendName devs ->
         exists info, m' !! b = Some info /\ backend info = Some (createBackend b)) /\
      (forall b info, m !! b = Some info ->
         exists info', m' !! b = Some info' /\ backend info' = backend info).
Proof.
  induction devs as [|d devs IH]; intros i m h bs created.
  - exists m. subst created. simpl. rewrite !app_nil_r.
    split; [reflexivity|]. split; [rewrite union_empty_r_L; reflexivity|]. split.
    + intros b _ Hb. inversion Hb.
    + intros b info Hb. eauto.
  - subst created. simpl. destruct (m !! di_backendName d) as [info|] eqn:E.
    + assert (Hin : di_backendName d ∈ dom m) by (apply elem_of_dom; eauto).
      rewrite bool_decide_eq_true_2 by exact Hin.
      destruct (IH (i + 1) (<[di_backendName d := set_num (wrap64 (num info + 1)) info]> m) h bs)
        as (m' & Hrun & Hdom & Hnew & Hold).
      assert (Hd : dom (<[di_backendName d := set_num (wrap64 (num info + 1)) info]> m) = dom m).
      { rewrite dom_insert_L. apply subseteq_union_1_L, singleton_subseteq_l, Hin. }
      rewrite Hd in Hrun, Hdom, Hnew.
      exists m'. split; [exact Hrun|]. split.
      { rewrite Hdom. simpl. rewrite (assoc_L (∪)).
        rewrite (comm_L (∪) (dom m) {[di_backendName d]}).
        rewrite (subseteq_union_1_L {[di_backendName d]} (dom m)); [reflexivity|].
        apply singleton_subseteq_l, Hin. }
      split.
      * intros b Hb Hbn. apply elem_of_cons in Hbn as [->|Hbn]; [contradiction|].
        apply Hnew; assumption.
      * intros b info0 Hb. destruct (decide (b = di_backendName d)) as [->|Hne].
        -- rewrite E in Hb. inversion Hb; subst info0.
           destruct (Hold (di_backendName d) (set_num (wrap64 (num info + 1)) info))
             as (info' & H1 & H2); [apply lookup_insert_eq|].
           exists info'. split; [exact H1 | exact H2].
        -- apply Hold. rewrite lookup_insert_ne by congruence. exact Hb.
    + assert (Hnin : di_backendName d ∉ dom m) by (apply not_elem_of_dom; exact E).
      rewrite bool_decide_eq_false_2 by exact Hnin.
      rewrite at_snoc. simpl.
      match goal with
      | |- context [genBackendMap_loop [] (i + 1) devs ?m1 ?h1 ?bs1 ?n1] =>
          destruct (IH (i + 1) m1 h1 bs1) as (m' & Hrun & Hdom & Hnew & Hold);
          replace n1 with (Z.of_nat (length h1)) by (rewrite length_app; simpl; lia)
      end.
      rewrite dom_insert_L in Hrun, Hdom, Hnew.
      exists m'. split; [|split; [|split]].
      * rewrite Hrun. rewrite <- !app_assoc. reflexivity.
      * rewrite Hdom. simpl. rewrite (comm_L (∪) {[di_backendName d]} (dom m)).
        rewrite (assoc_L (∪)). reflexivity.
      * intros b Hb Hbn. destruct (decide (b = di_backendName d)) as [->|Hne].
        -- destruct (Hold (di_backendName d)
                       {| num := 1; memSize := availableMemory d;
                          sramCapacity := di_sramCapacity d;
                          peakCompute := di_peakCompute d;
                          peakDramBw := di_peakDramBw d;
                          peakSramBw := di_peakSramBw d;
                          backend := Some (createBackend (di_backendName d));
                          nonSupportedNodesKinds := generateNodeKindsSet (nonSupportedNodes d);
                          supportedNodesKinds := generateNodeKindsSet (supportedNodes d) |})
             as (info' & H1 & H2); [apply lookup_insert_eq|].
           exists info'. split; [exact H1 | exact H2].
        -- apply elem_of_cons in Hbn as [->|Hbn]; [contradiction|].
           apply Hnew; [|exact Hbn].
           rewrite elem_of_union, elem_of_singleton. intros [?|?]; contradiction.
      * intros b info0 Hb. apply Hold. rewrite lookup_insert_ne; [exact Hb|].
        intros <-. rewrite E in Hb. discriminate.
Qed.

(** X7.  Without Backends handed in, [genBackendMap] creates one Backend for
    each backend name that is not yet in the map, in the order in which the
    names first appear among the devices; it returns these Backends, keeps
    them in the holder, and records each under its name.  The names of the
    map are then those it had and those of the devices. *)
Theorem genBackendMap_creates_one_backend_per_name
    (deviceInfo_ : list DeviceInfo) (backendMap : gmap string BackendInfo) :
  let created :=
    map (fun d => createBackend (di_backendName d))
        (firstOfEach di_backendName (dom backendMap) deviceInfo_) in
  exists backendMap',
    genBackendMap [] deviceInfo_ backendMap [] = Ok (backendMap', created, created) /\
    dom backendMap' = dom backendMap ∪ list_to_set (map di_backendName deviceInfo_) /\
    (forall d, d ∈ deviceInfo_ -> di_backendName d ∉ dom backendMap ->
       exists info, backendMap' !! di_backendName d = Some info /\
                    backend info = Some (createBackend (di_backendName d))).
Proof.
  intros created. unfold genBackendMap.
  destruct (genBackendMap_loop_created deviceInfo_ 0 backendMap [] [])
    as (m' & Hrun & Hdom & Hnew & _).
  exists m'. split; [exact Hrun|]. split; [exact Hdom|].
  intros d Hd Hn. apply Hnew; [exact Hn|]. apply list_elem_of_fmap. eauto.
Qed.

Lemma at_lookup {A} (v : list A) (k : nat) (x : A) :
  v !! k = Some x -> at_ v (Z.of_nat k) = Ok x.
Proof.
  intros H. unfold at_. destruct (Z.of_nat k <? 0) eqn:E; [apply Z.ltb_lt in E; lia|].
  rewrite Nat2Z.id, H. reflexivity.
Qed.

Lemma genBackendMap_loop_given (bk : list Backend) (devs : list DeviceInfo) :
  forall k m h bs n,
    bk <> [] -> (k + length devs <= length bk)%nat ->
    let given :=
      map snd (firstOfEach (fun p : DeviceInfo * Backend => di_backendName (fst p))
                 (dom m) (zip devs (drop k bk))) in
    exists m',
      genBackendMap_loop bk (Z.of_nat k) devs m h bs n = Ok (m', h, bs ++ given) /\
      (forall p, p ∈ firstOfEach (fun p : DeviceInfo * Backend => di_backendName (fst p))
                      (dom m) (zip devs (drop k bk)) ->
         exists info, m' !! di_backendName (fst p) = Some info /\
                      backend info = Some (snd p)) /\
      (forall b info, m !! b = Some info ->
         exists info', m' !! b = Some info' /\ backend info' = backend info).
Proof.
  induction devs as [|d devs IH]; intros k m h bs n Hne Hlen given.
  - exists m. subst given. simpl. rewrite app_nil_r. split; [reflexivity|]. split.
    + intros p Hp. inversion Hp.
    + eauto.
  - simpl in Hlen.
    destruct (lookup_lt_is_Some_2 bk k) as [b Hb]; [lia|].
    assert (Hdrop : drop k bk = b :: drop (S k) bk) by (apply drop_S; exact Hb).
    subst given. rewrite Hdrop. simpl.
    replace (Z.of_nat k + 1) with (Z.of_nat (S k)) by lia.
    destruct (m !! di_backendName d) as [info|] eqn:E.
    + assert (Hin : di_backendName d ∈ dom m) by (apply elem_of_dom; eauto).
      rewrite bool_decide_eq_true_2 by exact Hin.
      destruct (IH (S k) (<[di_backendName d := set_num (wrap64 (num info + 1)) info]> m)
                  h bs n Hne) as (m' & Hrun & Hnew & Hold); [lia|].
      assert (Hd : dom (<[di_backendName d := set_num (wrap64 (num info + 1)) info]> m) = dom m).
      { rewrite dom_insert_L. apply subseteq_union_1_L, singleton_subseteq_l, Hin. }
      rewrite Hd in Hrun, Hnew.
      exists m'. split; [exact Hrun|]. split; [exact Hnew|].
      intros b0 info0 Hb0. destruct (decide (b0 = di_backendName d)) as [->|Hneq].
      * rewrite E in Hb0. inversion Hb0; subst info0.
        destruct (Hold (di_backendName d) (set_num (wrap64 (num info + 1)) info))
          as (info' & H1 & H2); [apply lookup_insert_eq|].
        exists info'. split; [exact H1 | exact H2].
      * apply Hold. rewrite lookup_insert_ne by congruence. exact Hb0.
    + assert (Hnin : di_backendName d ∉ dom m) by (apply not_elem_of_dom; exact E).
      rewrite bool_decide_eq_false_2 by exact Hnin.
      destruct bk as [|b0 bk']; [congruence|].
      change (negb (length (b0 :: bk') =? 0)%nat) with true. cbv iota.
      rewrite (at_lookup _ _ _ Hb). simpl obind.
      match goal with
      | |- context [genBackendMap_loop _ _ devs ?m1 _ ?bs1 _] =>
          destruct (IH (S k) m1 h bs1 n Hne) as (m' & Hrun & Hnew & Hold); [lia|]
      end.
      rewrite dom_insert_L in Hrun, Hnew.
      exists m'. split; [|split].
      * rewrite Hrun. rewrite <- !app_assoc. reflexivity.
      * intros p Hp. apply elem_of_cons in Hp as [->|Hp]; [|apply Hnew; exact Hp].
        simpl.
        destruct (Hold (di_backendName d) _ (lookup_insert_eq _ _ _)) as (info' & H1 & H2).
        exists info'. split; [exact H1 | exact H2].
      * intros b1 info1 Hb1. apply Hold. rewrite lookup_insert_ne; [exact Hb1|].
        intros <-. rewrite E in Hb1. discriminate.
Qed.

(** X8.  With one Backend handed in per device, [genBackendMap] creates
    none: for each backend name that is not yet in the map it returns, and
    records under the name, the Backend handed in for the first device of
    that name, in the order of the devices; the holder is left alone. *)
Theorem genBackendMap_uses_given_backends
    (backends_ : list Backend) (deviceInfo_ : list DeviceInfo)
    (backendMap : gmap string BackendInfo) (backendsHolder : list Backend) :
  backends_ <> [] ->
  length backends_ = length deviceInfo_ ->
  let firsts :=
    firstOfEach (fun p : DeviceInfo * Backend => di_backendName (fst p))
      (dom backendMap) (zip deviceInfo_ backends_) in
  exists backendMap',
    genBackendMap backends_ deviceInfo_ backendMap backendsHolder =
      Ok (backendMap', backendsHolder, map snd firsts) /\
    (forall d b, (d, b) ∈ firsts ->
       exists info, backendMap' !! di_backendName d = Some info /\
                    backend info = Some b).
Proof.
  intros Hne Hlen firsts. unfold genBackendMap.
  destruct (genBackendMap_loop_given backends_ deviceInfo_ 0 backendMap backendsHolder [] 0 Hne)
    as (m' & Hrun & Hnew & _); [simpl; lia|].
  rewrite drop_0 in Hrun, Hnew.
  exists m'. split; [exact Hrun|].
  intros d b Hdb. apply (Hnew (d, b)). exact Hdb.
Qed.

Lemma genBackendMap_loop_known (bk : list Backend) (devs : list DeviceInfo) :
  forall i m h bs n,
    (forall d, d ∈ devs -> is_Some (m !! di_backendName d)) ->
    exists m', genBackendMap_loop bk i devs m h bs n = Ok (m', h, bs).
Proof.
  induction devs as [|d devs IH]; intros i m h bs n Hknown.
  - exists m. reflexivity.
  - simpl. destruct (Hknown d) as [info E]; [left|]. rewrite E.
    apply IH. intros d' Hd'. apply lookup_insert_is_Some'. right. apply Hknown. right. exact Hd'.
Qed.

Lemma genBackendMap_loop_names (bk : list Backend) (devs : list DeviceInfo) :
  forall i m h bs n m' h' bs',
    genBackendMap_loop bk i devs m h bs n = Ok (m', h', bs') ->
    forall d, d ∈ devs -> is_Some (m' !! di_backendName d).
Proof.
  intros i m h bs n m' h' bs' Hrun d Hd.
  pose proof (genBackendMap_loop_lookup bk devs i m h bs n m' h' bs' Hrun (di_backendName d)) as H.
  destruct (m !! di_backendName d) as [info|]; [rewrite H; eauto|].
  destruct (firstDevice (di_backendName d) devs) as [d1|] eqn:E.
  - destruct H as (bkd & ->). eauto.
  - exfalso. unfold firstDevice in E.
    apply list_elem_of_In in Hd. apply (find_none _ _ E d) in Hd.
    apply bool_decide_eq_false in Hd. congruence.
Qed.

(** X9.  Run again on the map and the holder that a first run has left,
    [genBackendMap] returns no Backend at all: every name is found in the
    map, so each device only adds one to the count of its name. *)
Theorem genBackendMap_again_returns_no_backends
    (backends_ : list Backend) (deviceInfo_ : list DeviceInfo)
    (backendMap backendMap1 : gmap string BackendInfo)
    (backendsHolder holder1 backends1 : list Backend) :
  genBackendMap backends_ deviceInfo_ backendMap backendsHolder =
    Ok (backendMap1, holder1, backends1) ->
  exists backendMap2,
    genBackendMap backends_ deviceInfo_ backendMap1 holder1 = Ok (backendMap2, holder1, []) /\
    forall b info,
      backendMap1 !! b = Some info ->
      backendMap2 !! b = Some (set_num (bump (countName b deviceInfo_) (num info)) info).
Proof.
  unfold genBackendMap. intros Hrun.
  destruct (genBackendMap_loop_known backends_ deviceInfo_ 0 backendMap1 holder1 [] 0)
    as (m2 & Hrun2).
  { eapply genBackendMap_loop_names. exact Hrun. }
  exists m2. split; [exact Hrun2|].
  intros b info Hb.
  pose proof (genBackendMap_loop_lookup _ _ _ _ _ _ _ _ _ _ Hrun2 b) as H.
  rewrite Hb in H. exact H.
Qed.

Lemma genBackendMap_loop_short (bk : list Backend) (devs : list DeviceInfo) :
  forall k m h bs n pre d post,
    bk <> [] ->
    devs = pre ++ d :: post ->
    (length bk <= k + length pre)%nat ->
    m !! di_backendName d = None ->
    di_backendName d ∉ map di_backendName pre ->
    genBackendMap_loop bk (Z.of_nat k) devs m h bs n = Undef OutOfRange.
Proof.
  induction devs as [|d0 devs IH]; intros k m h bs n pre d post Hne Hsplit Hlen Hnew Hfresh.
  - destruct pre; discriminate.
  - destruct bk as [|b0 bk'] eqn:Hbk; [congruence|]. rewrite <- Hbk in *.
    assert (Hhas : negb (length bk =? 0)%nat = true) by (rewrite Hbk; reflexivity).
    simpl. rewrite Hhas.
    replace (Z.of_nat k + 1) with (Z.of_nat (S k)) by lia.
    destruct pre as [|p pre].
    + simpl in Hsplit. inversion Hsplit; subst d0 devs. rewrite Hnew.
      unfold at_. destruct (Z.of_nat k <? 0); [reflexivity|].
      rewrite Nat2Z.id. rewrite (proj2 (lookup_ge_None bk k)); [reflexivity|].
      simpl in Hlen. lia.
    + simpl in Hsplit. inversion Hsplit; subst d0 devs.
      assert (Hpd : di_backendName p <> di_backendName d).
      { intros Heq. apply Hfresh. simpl. rewrite Heq. left. }
      assert (Hfresh' : di_backendName d ∉ map di_backendName pre).
      { intros Hin. apply Hfresh. simpl. right. exact Hin. }
      destruct (m !! di_backendName p) as [info|] eqn:E.
      * eapply (IH (S k)); [exact Hne | reflexivity | simpl in Hlen; lia | | exact Hfresh'].
        rewrite lookup_insert_ne by exact Hpd. exact Hnew.
      * destruct (at_ bk (Z.of_nat k)) as [b|e|u] eqn:Hat.
        -- simpl.
           eapply (IH (S k)); [exact Hne | reflexivity | simpl in Hlen; lia | | exact Hfresh'].
           rewrite lookup_insert_ne by exact Hpd. exact Hnew.
        -- unfold at_ in Hat. destruct (Z.of_nat k <? 0); [discriminate|].
           destruct (bk !! Z.to_nat (Z.of_nat k)); discriminate.
        -- simpl. unfold at_ in Hat. destruct (Z.of_nat k <? 0); [congruence|].
           destruct (bk !! Z.to_nat (Z.of_nat k)); congruence.
Qed.

(** X10.  When Backends are handed in but fewer than there are devices, the
    first device beyond them whose backend name is new makes
    [genBackendMap] read [backends_] out of range: the behaviour is
    undefined and no error is reported. *)
Theorem genBackendMap_too_few_backends
    (backends_ : list Backend) (deviceInfo_ pre post : list DeviceInfo) (d : DeviceInfo)
    (backendMap : gmap string BackendInfo) (backendsHolder : list Backend) :
  backends_ <> [] ->
  deviceInfo_ = pre ++ d :: post ->
  (length backends_ <= length pre)%nat ->
  backendMap !! di_backendName d = None ->
  di_backendName d ∉ map di_backendName pre ->
  genBackendMap backends_ deviceInfo_ backendMap backendsHolder = Undef OutOfRange.
Proof.
  intros Hne Hsplit Hlen Hnew Hfresh. unfold genBackendMap.
  apply (genBackendMap_loop_short backends_ deviceInfo_ 0 backendMap backendsHolder [] 0
           pre d post); assumption.
Qed.

(** ** What host saturation leaves alone *)

(** X11.  [saturateHost] fails in one way only, the division by a count of
    zero.  Otherwise it returns as many DAGs with as many nodes; the roots
    are as they were; and a node differs from what it was at most in its
    logical devices, which it keeps, in order, at the front of the new
    list. *)
Theorem saturateHost_only_appends
    (deviceInfo_ : list DeviceInfo) (k : Z) (partitions : DAGListTy) :
  match saturateHost deviceInfo_ k partitions with
  | Ok partitions' =>
      k <> 0 /\
      length partitions' = length partitions /\
      forall i network network',
        partitions !! i = Some network -> partitions' !! i = Some network' ->
        root network' = root network /\
        length (nodes network') = length (nodes network) /\
        forall j node node',
          nodes network !! j = Some node -> nodes network' !! j = Some node' ->
          children node' = children node /\ parents node' = parents node /\
          deviceIDs node' = deviceIDs node /\ backendName node' = backendName node /\
          currentDeviceIdx node' = currentDeviceIdx node /\ name node' = name node /\
          logicalDevices node `prefix_of` logicalDevices node'
  | Err _ => False
  | Undef u => u = DivByZero /\ k = 0
  end.
Proof.
  unfold saturateHost. destruct (k =? 0) eqn:E.
  - apply Z.eqb_eq in E. auto.
  - apply Z.eqb_neq in E.
    destruct (wrap32 (Z.of_nat (length deviceInfo_) / k) <? 2); (split; [exact E|]).
    + split; [reflexivity|]. intros i network network' H1 H2.
      rewrite H1 in H2. inversion H2; subst network'.
      split; [reflexivity|]. split; [reflexivity|]. intros j node node' H3 H4.
      rewrite H3 in H4. inversion H4; subst node'. repeat (split; [reflexivity|]).
      reflexivity.
    + split; [apply length_map|]. intros i network network' H1 H2.
      change (map ?f partitions) with (f <$> partitions) in H2.
      rewrite list_lookup_fmap, H1 in H2. inversion H2; subst network'. simpl.
      split; [reflexivity|]. split; [apply length_map|]. intros j node node' H3 H4.
      change (map ?f (nodes network)) with (f <$> nodes network) in H4.
      rewrite list_lookup_fmap, H3 in H4. inversion H4; subst node'. simpl.
      repeat (split; [reflexivity|]). apply prefix_app_r. reflexivity.
Qed.

Lemma newLogicalDevices_within (D k : Z) (ls : list DeviceIDTy) :
  0 < k -> 0 <= D < 2 ^ 32 ->
  (forall L, L ∈ ls -> 0 <= L < k) ->
  newLogicalDevices k (D / k) ls =
  flat_map (fun L => map (fun i => L + i * k) (seqZ 1 (D / k - 1))) ls.
Proof.
  intros Hk HD Hls. unfold newLogicalDevices.
  induction ls as [|L ls IH]; [reflexivity|]. simpl. f_equal.
  - apply map_ext_in. intros i Hi. apply list_elem_of_In, elem_of_seqZ in Hi.
    destruct (Hls L) as [HL0 HLk]; [left|].
    assert (Hik : i * k + k <= D).
    { assert (i * k <= (D / k - 1) * k) by nia.
      pose proof (Z.mul_div_le D k Hk). nia. }
    rewrite (wrap32_small (i * k)) by nia.
    rewrite wrap64_small by nia. apply wrap32_small. nia.
  - apply IH. intros L' HL'. apply Hls. right. exact HL'.
Qed.

Lemma elem_of_duplicates (k q : Z) (ls : list Z) (x : Z) :
  x ∈ flat_map (fun L => map (fun i => L + i * k) (seqZ 1 (q - 1))) ls <->
  exists L i, L ∈ ls /\ 1 <= i < q /\ x = L + i * k.
Proof.
  rewrite list_elem_of_In, in_flat_map. split.
  - intros (L & HL & Hx). apply in_map_iff in Hx as (i & <- & Hi).
    apply list_elem_of_In, elem_of_seqZ in Hi.
    exists L, i. split; [apply list_elem_of_In; exact HL|]. split; [lia | reflexivity].
  - intros (L & i & HL & Hi & ->). exists L. split; [apply list_elem_of_In; exact HL|].
    apply in_map_iff. exists i. split; [reflexivity|].
    apply list_elem_of_In, elem_of_seqZ. lia.
Qed.

Lemma duplicate_mod (k L i : Z) : 0 <= L < k -> (L + i * k) mod k = L.
Proof. intros H. rewrite Z.mod_add by lia. apply Z.mod_small. exact H. Qed.

Lemma duplicates_NoDup (k q : Z) (ls : list Z) :
  0 < k -> (forall L, L ∈ ls -> 0 <= L < k) -> NoDup ls ->
  NoDup (ls ++ flat_map (fun L => map (fun i => L + i * k) (seqZ 1 (q - 1))) ls).
Proof.
  intros Hk Hls Hnd. apply NoDup_app. split; [exact Hnd|]. split.
  - intros x Hx Hdup. apply elem_of_duplicates in Hdup as (L & i & HL & Hi & ->).
    pose proof (Hls _ Hx). pose proof (Hls _ HL). nia.
  - induction Hnd as [|L ls HnL Hnd IH]; [constructor|].
    simpl. apply NoDup_app. split; [|split].
    + apply NoDup_fmap_2_strong; [|apply NoDup_seqZ].
      intros i j _ _ Heq. nia.
    + intros x Hx Hdup.
      apply list_elem_of_fmap in Hx as (i & -> & _).
      apply elem_of_duplicates in Hdup as (L' & i' & HL' & _ & Heq).
      assert (HLL : L = L').
      { rewrite <- (duplicate_mod k L i), <- (duplicate_mod k L' i').
        - rewrite Heq. reflexivity.
        - apply Hls. right. exact HL'.
        - apply Hls. left. }
      subst L'. contradiction.
    + apply IH. intros L' HL'. apply Hls. right. exact HL'.
Qed.

(** X12.  The scheme of [saturateHost] keeps logical IDs from colliding: let
    a node hold distinct IDs below the count k of logical devices.  After
    saturation its IDs are still distinct, each is below the number of
    devices (or below k, when nothing is added), and each is congruent
    modulo k to one of the IDs the node held; so two nodes that shared no
    ID share none afterwards. *)
Theorem saturateHost_no_collision
    (deviceInfo_ : list DeviceInfo) (k : Z) (partitions partitions' : DAGListTy)
    (i j : nat) (network network' : DAG) (node node' : DAGNode) :
  0 < k ->
  Z.of_nat (length deviceInfo_) < 2 ^ 32 ->
  saturateHost deviceInfo_ k partitions = Ok partitions' ->
  partitions !! i = Some network -> partitions' !! i = Some network' ->
  nodes network !! j = Some node -> nodes network' !! j = Some node' ->
  NoDup (logicalDevices node) ->
  (forall L, L ∈ logicalDevices node -> 0 <= L < k) ->
  NoDup (logicalDevices node') /\
  forall x, x ∈ logicalDevices node' ->
    0 <= x < Z.max k (Z.of_nat (length deviceInfo_)) /\
    x mod k ∈ logicalDevices node.
Proof.
  intros Hk HD Hrun H1 H2 H3 H4 Hnd Hls.
  set (D := Z.of_nat (length deviceInfo_)) in *.
  assert (HD0 : 0 <= D) by (subst D; lia).
  assert (Hq : 0 <= D / k <= D).
  { split; [apply Z.div_pos; lia|]. apply Z.div_le_upper_bound; nia. }
  unfold saturateHost in Hrun. fold D in Hrun.
  destruct (k =? 0) eqn:E; [apply Z.eqb_eq in E; lia|].
  rewrite (wrap32_small (D / k)) in Hrun by lia.
  destruct (D / k <? 2) eqn:E2.
  - inversion Hrun; subst partitions'. rewrite H1 in H2. inversion H2; subst network'.
    rewrite H3 in H4. inversion H4; subst node'. split; [exact Hnd|].
    intros x Hx. specialize (Hls _ Hx). rewrite Z.mod_small by lia.
    split; [lia | exact Hx].
  - inversion Hrun; subst partitions'. clear Hrun.
    change (map ?f partitions) with (f <$> partitions) in H2.
    rewrite list_lookup_fmap, H1 in H2. inversion H2; subst network'. simpl in H4.
    change (map ?f (nodes network)) with (f <$> nodes network) in H4.
    rewrite list_lookup_fmap, H3 in H4. inversion H4; subst node'. simpl.
    rewrite newLogicalDevices_within by (try assumption; lia).
    split; [apply duplicates_NoDup; assumption|].
    intros x Hx. apply elem_of_app in Hx as [Hx|Hx].
    + specialize (Hls _ Hx). rewrite Z.mod_small by lia. split; [lia | exact Hx].
    + apply elem_of_duplicates in Hx as (L & m & HL & Hm & ->).
      specialize (Hls _ HL). rewrite duplicate_mod by exact Hls.
      split; [|exact HL].
      assert (m * k + k <= D).
      { assert (m * k <= (D / k - 1) * k) by nia.
        pose proof (Z.mul_div_le D k Hk). nia. }
      lia.
Qed.

(** ** Validation after partitioning *)

Lemma forEach_ok_inv {A} (f : A -> Outcome unit) (l : list A) :
  forEach f l = Ok tt -> forall x, x ∈ l -> f x = Ok tt.
Proof.
  induction l as [|y l IH]; intros H x Hx; [inversion Hx|].
  simpl in H. destruct (f y) as [[]|e|u] eqn:E; try discriminate.
  apply elem_of_cons in Hx as [->|Hx]; [exact E | apply IH; assumption].
Qed.

Lemma forEach_first_failure {A} (f : A -> Outcome unit) (pre post : list A) (x : A) :
  (forall y, y ∈ pre -> f y = Ok tt) ->
  forEach f (pre ++ x :: post) = (_ <~ f x ;; forEach f post).
Proof.
  induction pre as [|y pre IH]; intros Hpre; [reflexivity|].
  simpl. rewrite (Hpre y) by left. simpl. apply IH. intros z Hz. apply Hpre. right. exact Hz.
Qed.

(** X13.  [finalize] succeeds exactly when every Function of the Module
    verifies and, if the partitions are to be dumped, there is a first DAG
    each of whose nodes names a Function of the Module and holds a logical
    device.  When a Function does not verify, the error names the first such
    Function, whatever the partitions are. *)
Theorem finalize_succeeds_iff
    (module_ : Module) (partitions : DAGListTy) (mapping : NodeToFunctionMap) :
  (finalize module_ partitions mapping = Ok tt <->
   (forall F, F ∈ getFunctions module_ -> verifyFunction F = true) /\
   (dumpPartition = true ->
    exists first, partitions !! 0%nat = Some first /\
      forall node, node ∈ nodes first ->
        is_Some (getFunction module_ (name node)) /\ logicalDevices node <> [])) /\
  (forall pre F post,
     getFunctions module_ = pre ++ F :: post ->
     (forall G, G ∈ pre -> verifyFunction G = true) ->
     verifyFunction F = false ->
     finalize module_ partitions mapping =
       Err (MkErr None ("Conversion led to invalid function: " +:+ getName F))).
Proof.
  split; [split|].
  - unfold finalize. intros H.
    destruct (forEach _ (getFunctions module_)) as [[]|e|u] eqn:E; try discriminate.
    split.
    + intros F HF. pose proof (forEach_ok_inv _ _ E F HF) as HF'. simpl in HF'.
      unfold RETURN_ERR_IF_NOT in HF'. destruct (verifyFunction F); [reflexivity|discriminate].
    + intros Hdump. simpl in H. rewrite Hdump in H.
      unfold at_ in H at 1. simpl in H. change (Z.to_nat 0) with 0%nat in H.
      destruct (partitions !! 0%nat) as [first|] eqn:E0; [|discriminate].
      exists first. split; [reflexivity|]. simpl in H.
      intros node Hnode. pose proof (forEach_ok_inv _ _ H node Hnode) as Hn. simpl in Hn.
      destruct (getFunction module_ (name node)) as [subF|]; [|discriminate].
      split; [eauto|]. intros Hl. rewrite Hl in Hn. discriminate.
  - intros [Hv Hd]. apply finalize_ok; assumption.
  - intros pre F post Hsplit Hpre HF. unfold finalize.
    rewrite Hsplit. rewrite forEach_first_failure.
    + rewrite HF. reflexivity.
    + intros G HG. rewrite (Hpre G HG). reflexivity.
Qed.

(** ** The unsplit path when the optimizer fails *)

Lemma createDAGWithoutPartition_loop_error (B : Backend) (backendName : string)
    (cctx : CompilationContext) (pre post : list Function) (F F' : Function) (e : GlowErr) :
  (forall G, G ∈ pre -> snd (optimizeFunction G B cctx) = None) ->
  optimizeFunction F B cctx = (F', Some e) ->
  createDAGWithoutPartition_loop false (Some B) backendName cctx (pre ++ F :: post) =
    (map (fun G => fst (optimizeFunction G B cctx)) pre ++ F' :: post, Err e).
Proof.
  intros Hpre HF. induction pre as [|G pre IH].
  - simpl. rewrite HF. reflexivity.
  - simpl. pose proof (Hpre G) as HG. destruct (optimizeFunction G B cctx) as [G' o].
    simpl in HG. rewrite HG by left. rewrite IH; [reflexivity|].
    intros G0 HG0. apply Hpre. right. exact HG0.
Qed.

(** X14.  When the Functions have not been optimized and the optimizer
    reports an error on one of them, [createDAGWithoutPartition] returns
    that error: the Functions before it stay as the optimizer left them,
    the one it failed on too, those after it are not touched, and neither
    host saturation nor [finalize] has run. *)
Theorem createDAGWithoutPartition_stops_at_optimizer_error
    (P : Partitioner) (backendName : string) (backendMap : gmap string BackendInfo)
    (cctx : CompilationContext) (B : Backend) (pre post : list Function)
    (F F' : Function) (e : GlowErr) :
  optimized_ P = false ->
  backend (backendInfoOf backendMap backendName) = Some B ->
  getFunctions (module_ P) = pre ++ F :: post ->
  (forall G, G ∈ pre -> snd (optimizeFunction G B cctx) = None) ->
  optimizeFunction F B cctx = (F', Some e) ->
  createDAGWithoutPartition backendName backendMap cctx P =
    (Err e,
     set_module_
       {| getFunctions := map (fun G => fst (optimizeFunction G B cctx)) pre ++ F' :: post;
          getConstantsSize := getConstantsSize (module_ P) |} P).
Proof.
  intros Hopt HB Hsplit Hpre HF. unfold createDAGWithoutPartition.
  rewrite Hopt, HB, Hsplit.
  rewrite (createDAGWithoutPartition_loop_error B backendName cctx pre post F F' e Hpre HF).
  reflexivity.
Qed.

(** ** The numbering of the backend-based partitions *)

Lemma at_last_inv {A} (l : list A) (x : A) :
  at_ l (Z.of_nat (length l) - 1) = Ok x -> exists l', l = l' ++ [x].
Proof.
  intros H. unfold at_ in H.
  destruct (Z.of_nat (length l) - 1 <? 0) eqn:E; [discriminate|].
  apply Z.ltb_ge in E.
  destruct (l !! Z.to_nat (Z.of_nat (length l) - 1)) as [y|] eqn:El; [|discriminate].
  inversion H; subst y. clear H.
  destruct l as [|a l] using rev_ind; [simpl in E; lia|]. clear IHl.
  rewrite length_app in El. simpl in El.
  replace (Z.to_nat (Z.of_nat (length l + 1) - 1)) with (length l) in El by lia.
  rewrite lookup_app_r in El by lia. rewrite Nat.sub_diag in El. simpl in El.
  inversion El; subst a. exists l. reflexivity.
Qed.

Lemma at_0_inv {A} (l : list A) (x : A) : at_ l 0 = Ok x -> exists l', l = x :: l'.
Proof.
  intros H. unfold at_ in H. simpl in H. destruct l as [|y l]; [discriminate|].
  inversion H; subst y. exists l. reflexivity.
Qed.

Lemma backendBasedMapping_Ok_inv (bm : gmap string BackendInfo) (md : Module)
    (f2b : gmap string string) (F : Function) (backends : list Backend)
    (cctx : CompilationContext) (mapping : NodeToFunctionMap)
    (f2b' : gmap string string) (md' : Module) :
  backendBasedMapping bm md f2b F backends cctx = Ok (mapping, f2b', md') ->
  exists n2b levels N0 lastLevel,
    assignBackends bm backends (getNodes F) ∅ = Ok n2b /\
    getBFSLevel F = levels ++ [N0 :: lastLevel] /\
    let st :=
      fold_left (colourStep cctx F n2b) (leavesFirst (getBFSLevel F))
        (colourStart cctx F md f2b (backendOfNode n2b N0)) in
    mapping = (if isProfile cctx then assignProfilingIDs (cs_mapping st) else cs_mapping st) /\
    f2b' = cs_funcToBackend st /\ md' = cs_module st.
Proof.
  unfold backendBasedMapping. intros H.
  destruct (assignBackends bm backends (getNodes F) ∅) as [n2b|e|u]; try discriminate.
  simpl in H.
  destruct (at_ (getBFSLevel F) (Z.of_nat (length (getBFSLevel F)) - 1))
    as [lastLevel|e|u] eqn:E1; try discriminate.
  simpl in H.
  destruct (at_ lastLevel 0) as [N0|e|u] eqn:E2; try discriminate.
  simpl in H.
  apply at_last_inv in E1 as [levels Hbfs]. apply at_0_inv in E2 as [rest ->].
  exists n2b, levels, N0, rest. split; [reflexivity|]. split; [exact Hbfs|].
  unfold colourStart, backendOfNode, assignProfilingIDs.
  destruct (recordPartition cctx (partName F 1) (default "" (n2b !! getNodeName N0))
              NodeToFunctionMap_empty f2b) as [m0 f0].
  simpl. inversion H; subst. auto.
Qed.

Lemma leavesFirst_head (levels : list (list Node)) (N0 : Node) (lastLevel : list Node) :
  exists rest, leavesFirst (levels ++ [N0 :: lastLevel]) = N0 :: rest.
Proof.
  unfold leavesFirst. rewrite reverse_app. simpl. eauto.
Qed.

Lemma recordPartition_fields (cctx : CompilationContext) (newF b : string)
    (m : NodeToFunctionMap) (f : gmap string string) :
  functions_ (fst (recordPartition cctx newF b m f)) = functions_ m ++ [newF] /\
  nodeToFunction_ (fst (recordPartition cctx newF b m f)) = nodeToFunction_ m /\
  logicalDeviceIDMap_ (fst (recordPartition cctx newF b m f)) = logicalDeviceIDMap_ m.
Proof. unfold recordPartition. destruct (isProfile cctx); simpl; auto. Qed.

Lemma colourStep_same (cctx : CompilationContext) (F : Function)
    (n2b : gmap string string) (st : ColourState) (N : Node) :
  backendOfNode n2b N = cs_backendName st ->
  colourStep cctx F n2b st N =
  {| cs_module := cs_module st; cs_backendName := cs_backendName st;
     cs_newF := cs_newF st; cs_color := cs_color st;
     cs_mapping := add (getNodeName N) (cs_newF st) (cs_mapping st);
     cs_funcToBackend := cs_funcToBackend st |}.
Proof.
  intros E. unfold colourStep. fold (backendOfNode n2b N).
  rewrite (bool_decide_eq_true_2 _ E). reflexivity.
Qed.

Lemma colourStep_change (cctx : CompilationContext) (F : Function)
    (n2b : gmap string string) (st : ColourState) (N : Node) :
  backendOfNode n2b N <> cs_backendName st ->
  let newF := partName F (cs_color st + 1) in
  let r := recordPartition cctx newF (backendOfNode n2b N) (cs_mapping st)
             (cs_funcToBackend st) in
  colourStep cctx F n2b st N =
  {| cs_module := createFunction newF (cs_module st);
     cs_backendName := backendOfNode n2b N;
     cs_newF := newF; cs_color := cs_color st + 1;
     cs_mapping := add (getNodeName N) newF (fst r);
     cs_funcToBackend := snd r |}.
Proof.
  intros E newF r. unfold colourStep. fold (backendOfNode n2b N).
  rewrite (bool_decide_eq_false_2 _ E). simpl. fold newF. fold r.
  destruct r as [m f]. reflexivity.
Qed.

Lemma countInv_step (cctx : CompilationContext) (F : Function) (md : Module)
    (n2b : gmap string string) (processed : list Node) (st : ColourState) (X : Node) :
  countInv F md processed st ->
  countInv F md (processed ++ [X]) (colourStep cctx F n2b st X).
Proof.
  intros (Hc & HnewF & Hfun & Hmod & Hlog).
  destruct (decide (backendOfNode n2b X = cs_backendName st)) as [E|E].
  - rewrite (colourStep_same _ _ _ _ _ E). unfold countInv. simpl.
    rewrite length_app. simpl length. split; [lia|]. auto.
  - rewrite (colourStep_change _ _ _ _ _ E).
    destruct (recordPartition_fields cctx (partName F (cs_color st + 1))
                (backendOfNode n2b X) (cs_mapping st) (cs_funcToBackend st))
      as (Rfun & Rnode & Rlog).
    unfold countInv. simpl. rewrite length_app, Rfun, Rlog. simpl length.
    split; [lia|]. split; [reflexivity|]. split; [|split; [|exact Hlog]].
    + rewrite seqZ_snoc by lia. rewrite map_app, Hfun. reflexivity.
    + rewrite seqZ_snoc by lia. rewrite !map_app, Hmod. simpl.
      rewrite <- app_assoc. reflexivity.
Qed.

Lemma countInv_start (cctx : CompilationContext) (F : Function) (md : Module)
    (f2b : gmap string string) (b0 : string) :
  countInv F md [] (colourStart cctx F md f2b b0).
Proof.
  destruct (recordPartition_fields cctx (partName F 1) b0 NodeToFunctionMap_empty f2b)
    as (Rfun & Rnode & Rlog).
  unfold countInv, colourStart. simpl. rewrite Rfun, Rlog. simpl.
  split; [lia|]. split; [reflexivity|]. split; [reflexivity|].
  split; [rewrite map_app; reflexivity | reflexivity].
Qed.

Lemma countInv_walk (cctx : CompilationContext) (F : Function) (md : Module)
    (n2b : gmap string string) (order : list Node) :
  forall processed st,
    countInv F md processed st ->
    countInv F md (processed ++ order) (fold_left (colourStep cctx F n2b) order st).
Proof.
  induction order as [|X order IH]; intros processed st Hinv.
  - rewrite app_nil_r. exact Hinv.
  - simpl. replace (processed ++ X :: order) with ((processed ++ [X]) ++ order)
      by (rewrite <- app_assoc; reflexivity).
    apply IH. apply countInv_step. exact Hinv.
Qed.

Lemma snoc_adjacent_cases {A} (processed pre post : list A) (X N M : A) :
  processed ++ [X] = pre ++ N :: M :: post ->
  (post = [] /\ M = X /\ processed = pre ++ [N]) \/
  (exists post', post = post' ++ [X] /\ processed = pre ++ N :: M :: post').
Proof.
  intros Heq. destruct post as [|y post _] using rev_ind.
  - left. change (pre ++ [N; M]) with (pre ++ [N] ++ [M]) in Heq.
    rewrite app_assoc in Heq. apply app_inj_tail in Heq as [-> ->]. auto.
  - right. exists post.
    change (pre ++ N :: M :: post ++ [y]) with (pre ++ (N :: M :: post) ++ [y]) in Heq.
    rewrite app_assoc in Heq. apply app_inj_tail in Heq as [-> ->]. auto.
Qed.

Lemma numberingInv_step (cctx : CompilationContext) (F : Function) (md : Module)
    (n2b : gmap string string) (b0 : string) (processed : list Node)
    (st : ColourState) (X : Node) :
  getNodeName X ∉ map getNodeName processed ->
  countInv F md processed st ->
  numberingInv F n2b b0 processed st ->
  numberingInv F n2b b0 (processed ++ [X]) (colourStep cctx F n2b st X).
Proof.
  intros Hfresh (Hc & HnewF & _) (Hlast & Hfirst & Hpairs).
  assert (Hne : forall N, N ∈ processed -> getNodeName X <> getNodeName N).
  { intros N HN Heq. apply Hfresh. rewrite Heq. apply list_elem_of_fmap. eauto. }
  destruct (decide (backendOfNode n2b X = cs_backendName st)) as [E|E].
  - rewrite (colourStep_same _ _ _ _ _ E). unfold numberingInv. simpl.
    rewrite last_snoc. split; [|split].
    + split; [symmetry; exact E|]. rewrite lookup_insert_eq, HnewF. reflexivity.
    + intros N rest Heq Hb. destruct processed as [|N' processed'].
      * simpl in Heq. inversion Heq; subst N rest. simpl in Hlast.
        destruct Hlast as [Hc1 _]. rewrite lookup_insert_eq, HnewF, Hc1. reflexivity.
      * simpl in Heq. inversion Heq; subst N' rest.
        rewrite lookup_insert_ne by (apply Hne; left).
        eapply Hfirst; [reflexivity | exact Hb].
    + intros pre N M post Heq.
      destruct (snoc_adjacent_cases _ _ _ _ _ _ Heq) as [(-> & -> & Hp)|(post' & -> & Hp)].
      * rewrite Hp, last_snoc in Hlast. destruct Hlast as [Hbk Hl].
        exists (cs_color st). split; [lia|].
        rewrite lookup_insert_eq.
        rewrite lookup_insert_ne by (apply Hne; rewrite Hp; apply elem_of_app; right; left).
        split; [exact Hl|].
        rewrite bool_decide_eq_true_2 by congruence. rewrite HnewF. reflexivity.
      * destruct (Hpairs _ _ _ _ Hp) as (c & Hc1 & HN & HM). exists c.
        split; [exact Hc1|].
        rewrite !lookup_insert_ne; [auto | |];
          apply Hne; rewrite Hp; apply elem_of_app; right; [right; left | left].
  - rewrite (colourStep_change _ _ _ _ _ E).
    destruct (recordPartition_fields cctx (partName F (cs_color st + 1))
                (backendOfNode n2b X) (cs_mapping st) (cs_funcToBackend st))
      as (Rfun & Rnode & Rlog).
    unfold numberingInv. simpl. rewrite last_snoc, Rnode.
    split; [|split].
    + split; [reflexivity | apply lookup_insert_eq].
    + intros N rest Heq Hb. destruct processed as [|N' processed'].
      * simpl in Heq. inversion Heq; subst N rest. simpl in Hlast.
        destruct Hlast as [_ Hb0]. congruence.
      * simpl in Heq. inversion Heq; subst N' rest.
        rewrite lookup_insert_ne by (apply Hne; left).
        eapply Hfirst; [reflexivity | exact Hb].
    + intros pre N M post Heq.
      destruct (snoc_adjacent_cases _ _ _ _ _ _ Heq) as [(-> & -> & Hp)|(post' & -> & Hp)].
      * rewrite Hp, last_snoc in Hlast. destruct Hlast as [Hbk Hl].
        exists (cs_color st). split; [lia|].
        rewrite lookup_insert_eq.
        rewrite lookup_insert_ne by (apply Hne; rewrite Hp; apply elem_of_app; right; left).
        split; [exact Hl|].
        rewrite bool_decide_eq_false_2 by congruence. reflexivity.
      * destruct (Hpairs _ _ _ _ Hp) as (c & Hc1 & HN & HM). exists c.
        split; [exact Hc1|].
        rewrite !lookup_insert_ne; [auto | |];
          apply Hne; rewrite Hp; apply elem_of_app; right; [right; left | left].
Qed.

Lemma numberingInv_walk (cctx : CompilationContext) (F : Function) (md : Module)
    (n2b : gmap string string) (b0 : string) (order : list Node) :
  forall processed st,
    NoDup (map getNodeName (processed ++ order)) ->
    countInv F md processed st ->
    numberingInv F n2b b0 processed st ->
    numberingInv F n2b b0 (processed ++ order)
      (fold_left (colourStep cctx F n2b) order st).
Proof.
  induction order as [|X order IH]; intros processed st Hnd Hcount Hinv.
  - rewrite app_nil_r. exact Hinv.
  - simpl. replace (processed ++ X :: order) with ((processed ++ [X]) ++ order) in *
      by (rewrite <- app_assoc; reflexivity).
    apply IH; [exact Hnd | apply countInv_step; exact Hcount |].
    apply (numberingInv_step cctx F md); [|exact Hcount | exact Hinv].
    rewrite !map_app in Hnd. apply NoDup_app in Hnd as [Hnd _].
    apply NoDup_app in Hnd as (_ & Hdisj & _).
    intros Hin. apply (Hdisj _ Hin). simpl. left.
Qed.

Lemma numberingInv_start (cctx : CompilationContext) (F : Function) (md : Module)
    (f2b : gmap string string) (n2b : gmap string string) (b0 : string) :
  numberingInv F n2b b0 [] (colourStart cctx F md f2b b0).
Proof.
  unfold numberingInv, colourStart. simpl. split; [auto|]. split.
  - intros N rest Heq. discriminate.
  - intros pre N M post Heq. destruct pre; discriminate.
Qed.

Lemma appendLogicalDeviceIDs_fields (l : list string) :
  forall (m : NodeToFunctionMap) (id : Z),
    let r :=
      fst (fold_left
             (fun '(m, logicalDeviceID) func =>
                (appendLogicalDeviceID func logicalDeviceID m, wrap64 (logicalDeviceID + 1)))
             l (m, id)) in
    functions_ r = functions_ m /\
    nodeToFunction_ r = nodeToFunction_ m /\
    backendName_ r = backendName_ m.
Proof.
  induction l as [|fn l IH]; intros m id; [simpl; auto|].
  simpl. destruct (IH (appendLogicalDeviceID fn id m) (wrap64 (id + 1))) as (H1 & H2 & H3).
  rewrite H1, H2, H3. auto.
Qed.

Lemma assignProfilingIDs_fields (m : NodeToFunctionMap) :
  functions_ (assignProfilingIDs m) = functions_ m /\
  nodeToFunction_ (assignProfilingIDs m) = nodeToFunction_ m /\
  backendName_ (assignProfilingIDs m) = backendName_ m.
Proof. apply appendLogicalDeviceIDs_fields. Qed.

(** X15.  Node names being distinct along the walk, the sub-Functions that
    [backendBasedPartition] creates are numbered from 1 in the order of the
    walk: the first node visited sits in [<F>_part1], and from one node to
    the next the number stays when both have the same backend and goes up
    by one when they differ.  So a backend that takes nodes in two runs
    separated by a node of another backend gets two sub-Functions. *)
Theorem backendBasedPartition_numbering
    (bm : gmap string BackendInfo) (md : Module) (f2b : gmap string string)
    (F : Function) (backends : list Backend) (cctx : CompilationContext)
    (mapping : NodeToFunctionMap) (f2b' : gmap string string) (md' : Module) :
  let walk := leavesFirst (getBFSLevel F) in
  NoDup (map getNodeName walk) ->
  backendBasedMapping bm md f2b F backends cctx = Ok (mapping, f2b', md') ->
  exists n2b count,
    assignBackends bm backends (getNodes F) ∅ = Ok n2b /\
    1 <= count <= 1 + Z.of_nat (length walk) /\
    functions_ mapping = map (partName F) (seqZ 1 count) /\
    map getName (getFunctions md') =
      map getName (getFunctions md) ++ map (partName F) (seqZ 1 count) /\
    (forall N rest,
       walk = N :: rest ->
       nodeToFunction_ mapping !! getNodeName N = Some (partName F 1)) /\
    (forall pre N M post,
       walk = pre ++ N :: M :: post ->
       exists c,
         1 <= c /\
         nodeToFunction_ mapping !! getNodeName N = Some (partName F c) /\
         nodeToFunction_ mapping !! getNodeName M =
           Some (partName F
                   (if bool_decide (backendOfNode n2b M = backendOfNode n2b N)
                    then c else c + 1))).
Proof.
  intros walk Hnd Hrun.
  apply backendBasedMapping_Ok_inv in Hrun
    as (n2b & levels & N0 & lastLevel & Hassign & Hbfs & Hmap & _ & Hmd).
  pose proof (countInv_walk cctx F md n2b walk []
                (colourStart cctx F md f2b (backendOfNode n2b N0))
                (countInv_start cctx F md f2b (backendOfNode n2b N0)))
    as (Hc & _ & Hfun & Hmod & _).
  pose proof (numberingInv_walk cctx F md n2b (backendOfNode n2b N0) walk []
                (colourStart cctx F md f2b (backendOfNode n2b N0)) Hnd
                (countInv_start cctx F md f2b (backendOfNode n2b N0))
                (numberingInv_start cctx F md f2b n2b (backendOfNode n2b N0)))
    as (_ & Hfirst & Hpairs).
  simpl app in *. fold walk in Hmap, Hmd.
  set (st := fold_left (colourStep cctx F n2b) walk
               (colourStart cctx F md f2b (backendOfNode n2b N0))) in *.
  assert (Hnode : nodeToFunction_ mapping = nodeToFunction_ (cs_mapping st)).
  { rewrite Hmap. destruct (isProfile cctx); [|reflexivity].
    apply assignProfilingIDs_fields. }
  assert (Hfuns : functions_ mapping = functions_ (cs_mapping st)).
  { rewrite Hmap. destruct (isProfile cctx); [|reflexivity].
    apply assignProfilingIDs_fields. }
  exists n2b, (cs_color st). split; [exact Hassign|]. split; [exact Hc|].
  split; [rewrite Hfuns; exact Hfun|]. split; [rewrite Hmd; exact Hmod|].
  rewrite Hnode. split; [|exact Hpairs].
  intros N rest Hwalk. apply (Hfirst N rest Hwalk).
  destruct (leavesFirst_head levels N0 lastLevel) as [rest' Hhead].
  unfold walk in Hwalk. rewrite Hbfs, Hhead in Hwalk. inversion Hwalk. reflexivity.
Qed.

(** ** Backend-based partition when profiling *)

Lemma profilingInv_walk (cctx : CompilationContext) (F : Function)
    (n2b : gmap string string) (order : list Node) :
  isProfile cctx = true ->
  forall st, profilingInv F st ->
             profilingInv F (fold_left (colourStep cctx F n2b) order st).
Proof.
  intros Hprof. induction order as [|X order IH]; intros st Hinv; [exact Hinv|].
  simpl. apply IH.
  destruct (decide (backendOfNode n2b X = cs_backendName st)) as [E|E].
  - rewrite (colourStep_same _ _ _ _ _ E). exact Hinv.
  - rewrite (colourStep_change _ _ _ _ _ E). unfold recordPartition. rewrite Hprof.
    intros i Hi. simpl in *.
    destruct (decide (partName F (cs_color st + 1) = partName F i)) as [Heq|Hne].
    + rewrite Heq, !lookup_insert_eq. auto.
    + rewrite !lookup_insert_ne by exact Hne. apply Hinv.
      assert (i <> cs_color st + 1) by congruence. lia.
Qed.

Lemma assignProfilingIDs_lookup (F : Function) (m0 : NodeToFunctionMap) (c : Z) :
  0 <= c ->
  logicalDeviceIDMap_ m0 = ∅ ->
  let r :=
    fold_left
      (fun '(m, logicalDeviceID) func =>
         (appendLogicalDeviceID func logicalDeviceID m, wrap64 (logicalDeviceID + 1)))
      (map (partName F) (seqZ 1 c)) (m0, 0) in
  snd r = wrap64 c /\
  forall i,
    logicalDeviceIDMap_ (fst r) !! partName F i =
    if bool_decide (1 <= i <= c) then Some [wrap64 (i - 1)] else None.
Proof.
  intros Hc Hempty. cbv zeta. revert c Hc. apply natlike_ind.
  - simpl. split; [reflexivity|]. intros i.
    rewrite Hempty, lookup_empty.
    rewrite bool_decide_eq_false_2 by lia. reflexivity.
  - intros x Hx [Hid Hlook]. rewrite <- Z.add_1_r. rewrite seqZ_snoc by lia.
    rewrite map_app, fold_left_app.
    destruct (fold_left _ (map (partName F) (seqZ 1 x)) (m0, 0)) as [m id].
    simpl in *. subst id. split.
    + unfold wrap64. rewrite Z.add_mod_idemp_l by lia. reflexivity.
    + intros i. destruct (decide (i = x + 1)) as [->|Hne].
      * rewrite lookup_insert_eq. rewrite Hlook.
        rewrite (bool_decide_eq_false_2 (1 <= x + 1 <= x)) by lia.
        rewrite bool_decide_eq_true_2 by lia. simpl.
        replace (x + 1 - 1) with x by lia. reflexivity.
      * rewrite lookup_insert_ne by (intros Heq; apply partName_inj in Heq; lia).
        rewrite Hlook. rewrite (bool_decide_ext (1 <= i <= x) (1 <= i <= x + 1)) by lia.
        reflexivity.
Qed.

(** X16.  When profiling, [backendBasedPartition] records every sub-Function
    it creates under the profiling backend, whatever backend takes the
    nodes, in the mapping and in [funcToBackend]; and it gives the
    sub-Functions the logical devices 0, 1, 2, ... (modulo 2^64) in the
    order of their creation, one each. *)
Theorem backendBasedPartition_profiling
    (bm : gmap string BackendInfo) (md : Module) (f2b : gmap string string)
    (F : Function) (backends : list Backend) (cctx : CompilationContext)
    (mapping : NodeToFunctionMap) (f2b' : gmap string string) (md' : Module) :
  isProfile cctx = true ->
  backendBasedMapping bm md f2b F backends cctx = Ok (mapping, f2b', md') ->
  exists count,
    1 <= count /\
    functions_ mapping = map (partName F) (seqZ 1 count) /\
    forall i, 1 <= i <= count ->
      backendName_ mapping !! partName F i = Some profilingBackend /\
      f2b' !! partName F i = Some profilingBackend /\
      logicalDeviceIDMap_ mapping !! partName F i = Some [wrap64 (i - 1)].
Proof.
  intros Hprof Hrun.
  apply backendBasedMapping_Ok_inv in Hrun
    as (n2b & levels & N0 & lastLevel & Hassign & Hbfs & Hmap & Hf2b & _).
  rewrite Hprof in Hmap.
  set (walk := leavesFirst (getBFSLevel F)) in *.
  set (st := fold_left (colourStep cctx F n2b) walk
               (colourStart cctx F md f2b (backendOfNode n2b N0))) in *.
  assert (Hinv : profilingInv F st).
  { apply profilingInv_walk; [exact Hprof|].
    intros i Hi. unfold colourStart, recordPartition. rewrite Hprof. simpl in *.
    assert (i = 1) as -> by lia. rewrite !lookup_insert_eq. auto. }
  pose proof (countInv_walk cctx F md n2b walk []
                (colourStart cctx F md f2b (backendOfNode n2b N0))
                (countInv_start cctx F md f2b (backendOfNode n2b N0)))
    as (Hc & _ & Hfun & _ & Hlog).
  simpl app in *. fold st in Hc, Hfun, Hlog.
  destruct (assignProfilingIDs_fields (cs_mapping st)) as (Afun & _ & Abk).
  exists (cs_color st). split; [lia|]. rewrite Hmap.
  split; [rewrite Afun; exact Hfun|].
  intros i Hi. destruct (Hinv i Hi) as [Hb Hf].
  split; [rewrite Abk; exact Hb|]. split; [rewrite Hf2b; exact Hf|].
  unfold assignProfilingIDs, getPartitions. rewrite Hfun.
  destruct (assignProfilingIDs_lookup F (cs_mapping st) (cs_color st)) as [_ Hlook];
    [lia | exact Hlog |].
  rewrite Hlook. rewrite bool_decide_eq_true_2 by exact Hi. reflexivity.
Qed.

(** ** The footprints and the numbering of the memory-driven cut *)

Lemma cutStep_overflow F availableMemory backendName st N :
  (getTotalMemSize
     (updateGraphMemInfoByAddingNode (cut_currentPartition st) (cut_graphMem st) N)
     >? availableMemory) = true ->
  let newF := partName F (cut_color st + 1) in
  let alone := updateGraphMemInfoByAddingNode ∅ GraphMemInfo_empty N in
  cutStep F availableMemory backendName st N =
  {| cut_module := createFunction newF (cut_module st);
     cut_color := cut_color st + 1; cut_newF := newF;
     cut_currentPartition := {[getNodeName N]} ∪ ∅;
     cut_graphMem := alone;
     cut_mapping :=
       setGraphMemInfo newF alone
         (add (getNodeName N) newF (createPartition newF backendName (cut_mapping st))) |}.
Proof. intros E newF alone. unfold cutStep. rewrite E. reflexivity. Qed.

Lemma cutStep_fits F availableMemory backendName st N :
  (getTotalMemSize
     (updateGraphMemInfoByAddingNode (cut_currentPartition st) (cut_graphMem st) N)
     >? availableMemory) = false ->
  let graphMem :=
    updateGraphMemInfoByAddingNode (cut_currentPartition st) (cut_graphMem st) N in
  cutStep F availableMemory backendName st N =
  {| cut_module := cut_module st; cut_color := cut_color st; cut_newF := cut_newF st;
     cut_currentPartition := {[getNodeName N]} ∪ cut_currentPartition st;
     cut_graphMem := graphMem;
     cut_mapping :=
       setGraphMemInfo (cut_newF st) graphMem
         (add (getNodeName N) (cut_newF st) (cut_mapping st)) |}.
Proof. intros E graphMem. unfold cutStep. rewrite E. reflexivity. Qed.

Lemma fitInv_step F availableMemory backendName module_ processed st X :
  getTotalMemSize (updateGraphMemInfoByAddingNode ∅ GraphMemInfo_empty X)
    <= availableMemory ->
  cutInv F module_ processed st ->
  fitInv F availableMemory processed st ->
  fitInv F availableMemory (processed ++ [X]) (cutStep F availableMemory backendName st X).
Proof.
  intros Halone (Hc & HnewF & _) (Hcost & Hnil & Hsome).
  assert (Hsnoc : processed ++ [X] <> []) by (destruct processed; discriminate).
  destruct (getTotalMemSize
              (updateGraphMemInfoByAddingNode (cut_currentPartition st) (cut_graphMem st) X)
              >? availableMemory) eqn:E.
  - assert (Hne : processed <> []).
    { intros ->. destruct (Hnil eq_refl) as (_ & Hcur & Hmem).
      rewrite Hcur, Hmem in E. apply Z.gtb_lt in E. lia. }
    rewrite (cutStep_overflow _ _ _ _ _ E). unfold fitInv. simpl.
    split; [|split; [intros Heq; contradiction|]].
    + intros fn g Hg.
      destruct (decide (partName F (cut_color st + 1) = fn)) as [<-|Hn].
      * rewrite lookup_insert_eq in Hg. inversion Hg; subst g. exact Halone.
      * rewrite lookup_insert_ne in Hg by exact Hn. eapply Hcost. exact Hg.
    + intros _ k Hk. apply lookup_insert_is_Some'.
      destruct (decide (k = cut_color st + 1)) as [->|Hn]; [left; reflexivity|].
      right. apply (Hsome Hne). lia.
  - rewrite (cutStep_fits _ _ _ _ _ E). unfold fitInv. simpl.
    split; [|split; [intros Heq; contradiction|]].
    + intros fn g Hg.
      destruct (decide (cut_newF st = fn)) as [<-|Hn].
      * rewrite lookup_insert_eq in Hg. inversion Hg; subst g.
        rewrite Z.gtb_ltb in E. apply Z.ltb_ge in E. exact E.
      * rewrite lookup_insert_ne in Hg by exact Hn. eapply Hcost. exact Hg.
    + intros _ k Hk. apply lookup_insert_is_Some'.
      destruct processed as [|N0 processed'].
      * destruct (Hnil eq_refl) as (Hc1 & _). left. rewrite HnewF. f_equal. lia.
      * right. apply Hsome; [discriminate | exact Hk].
Qed.

Lemma fitInv_walk F availableMemory backendName module_ (order : list Node) :
  (forall N, N ∈ order ->
     getTotalMemSize (updateGraphMemInfoByAddingNode ∅ GraphMemInfo_empty N)
       <= availableMemory) ->
  fitInv F availableMemory order (initialCut F availableMemory backendName module_ order).
Proof.
  induction order as [|N order IH] using rev_ind; intros Hfit.
  - unfold fitInv, initialCut, cutStart. simpl. split; [|split; [auto | congruence]].
    intros fn g Hg. rewrite lookup_empty in Hg. discriminate.
  - rewrite initialCut_snoc. apply (fitInv_step F availableMemory backendName module_).
    + apply Hfit. apply elem_of_app. right. left.
    + apply initialCut_inv.
    + apply IH. intros N' HN'. apply Hfit. apply elem_of_app. left. exact HN'.
Qed.

(** X17.  When every node of the walk fits the available memory on its own,
    every footprint that step 1 of [selectPartitions] records fits it too;
    and, the walk having a node, every sub-Function created has a footprint
    recorded, so none is left without a node. *)
Theorem selectPartitions_cut_fits
    (F : Function) (availableMemory : Z) (backendName : string) (module_ : Module) :
  let order := leavesFirst (getBFSLevel F) in
  let st := initialCut F availableMemory backendName module_ order in
  (forall N, N ∈ order ->
     getTotalMemSize (updateGraphMemInfoByAddingNode ∅ GraphMemInfo_empty N)
       <= availableMemory) ->
  (forall fn g, partitionCost_ (cut_mapping st) !! fn = Some g ->
                getTotalMemSize g <= availableMemory) /\
  (order <> [] ->
   forall k, 1 <= k <= cut_color st ->
     is_Some (partitionCost_ (cut_mapping st) !! partName F k)).
Proof.
  intros order st Hfit.
  destruct (fitInv_walk F availableMemory backendName module_ order Hfit)
    as (Hcost & _ & Hsome).
  split; [exact Hcost | exact Hsome].
Qed.

Lemma cutStep_nodeToFunction F availableMemory backendName st X :
  nodeToFunction_ (cut_mapping (cutStep F availableMemory backendName st X)) =
  <[getNodeName X := cut_newF (cutStep F availableMemory backendName st X)]>
    (nodeToFunction_ (cut_mapping st)).
Proof.
  unfold cutStep. destruct (getTotalMemSize _ >? availableMemory); reflexivity.
Qed.

Lemma cutNumberingInv_step F availableMemory backendName module_ processed st X :
  getNodeName X ∉ map getNodeName processed ->
  cutInv F module_ processed st ->
  cutNumberingInv F availableMemory processed st ->
  cutNumberingInv F availableMemory (processed ++ [X])
    (cutStep F availableMemory backendName st X).
Proof.
  intros Hfresh (Hc & HnewF & _) (Hlast & Hfirst & Hpairs).
  assert (Hne : forall N, N ∈ processed -> getNodeName X <> getNodeName N).
  { intros N HN Heq. apply Hfresh. rewrite Heq. apply list_elem_of_fmap. eauto. }
  set (st' := cutStep F availableMemory backendName st X).
  assert (Hmap : nodeToFunction_ (cut_mapping st') =
                 <[getNodeName X := cut_newF st']> (nodeToFunction_ (cut_mapping st)))
    by apply cutStep_nodeToFunction.
  assert (Hst' :
    ((getTotalMemSize
        (updateGraphMemInfoByAddingNode (cut_currentPartition st) (cut_graphMem st) X)
        >? availableMemory) = true /\
     cut_color st' = cut_color st + 1 /\ cut_newF st' = partName F (cut_color st + 1)) \/
    ((getTotalMemSize
        (updateGraphMemInfoByAddingNode (cut_currentPartition st) (cut_graphMem st) X)
        >? availableMemory) = false /\
     cut_color st' = cut_color st /\ cut_newF st' = partName F (cut_color st))).
  { subst st'. unfold cutStep.
    destruct (getTotalMemSize _ >? availableMemory); simpl; [left | right]; auto. }
  assert (Hcol : cut_newF st' = partName F (cut_color st') /\
                 cut_color st <= cut_color st' <= cut_color st + 1).
  { destruct Hst' as [(_ & -> & ->)|(_ & -> & ->)]; split; (reflexivity || lia). }
  destruct Hcol as [HnewF' Hcol].
  unfold cutNumberingInv. rewrite last_snoc, Hmap. split; [|split].
  - rewrite lookup_insert_eq, HnewF'. reflexivity.
  - intros N0 rest Heq. destruct processed as [|N' processed'].
    + simpl in Heq. inversion Heq; subst N0 rest. simpl in Hlast.
      destruct Hlast as (Hc1 & Hcur & Hmem).
      assert (Hk : cut_color st' = firstCut availableMemory X).
      { unfold firstCut. rewrite Hcur, Hmem in Hst'.
        destruct Hst' as [(-> & -> & _)|(-> & -> & _)]; lia. }
      rewrite lookup_insert_eq, HnewF', Hk. split; [reflexivity|].
      intros N HN. apply list_elem_of_singleton in HN. subst N.
      exists (firstCut availableMemory X). rewrite lookup_insert_eq.
      split; [lia | reflexivity].
    + simpl in Heq. inversion Heq; subst N' rest.
      destruct (Hfirst N0 processed' eq_refl) as [H0 Hall].
      rewrite lookup_insert_ne by (apply Hne; left). split; [exact H0|].
      intros N HN. change (N0 :: processed' ++ [X]) with ((N0 :: processed') ++ [X]) in HN.
      apply elem_of_app in HN as [HN|HN].
      * destruct (Hall N HN) as (k & Hk & Hl). exists k.
        rewrite lookup_insert_ne by (apply Hne; exact HN). split; [lia | exact Hl].
      * apply list_elem_of_singleton in HN. subst N.
        exists (cut_color st'). rewrite lookup_insert_eq, HnewF'. split; [|reflexivity].
        destruct (Hall N0) as (k & Hk & _); [left|]. lia.
  - intros pre N M post Heq.
    destruct (snoc_adjacent_cases _ _ _ _ _ _ Heq) as [(-> & -> & Hp)|(post' & -> & Hp)].
    + rewrite Hp, last_snoc in Hlast.
      exists (cut_color st). split; [lia|].
      rewrite lookup_insert_eq.
      rewrite lookup_insert_ne by (apply Hne; rewrite Hp; apply elem_of_app; right; left).
      split; [exact Hlast|].
      destruct Hst' as [(_ & _ & ->)|(_ & _ & ->)]; auto.
    + destruct (Hpairs _ _ _ _ Hp) as (c & Hc1 & HN & HM). exists c.
      split; [exact Hc1|].
      rewrite !lookup_insert_ne; [auto | |];
        apply Hne; rewrite Hp; apply elem_of_app; right; [right; left | left].
Qed.

Lemma cutNumberingInv_walk F availableMemory backendName module_ (order : list Node) :
  NoDup (map getNodeName order) ->
  cutNumberingInv F availableMemory order
    (initialCut F availableMemory backendName module_ order).
Proof.
  induction order as [|N order IH] using rev_ind; intros Hnd.
  - unfold cutNumberingInv, initialCut, cutStart. simpl. split; [auto|]. split.
    + intros N0 rest Heq. discriminate.
    + intros pre N M post Heq. destruct pre; discriminate.
  - rewrite initialCut_snoc. rewrite map_app in Hnd.
    apply NoDup_app in Hnd as (Hnd & Hdisj & _).
    apply (cutNumberingInv_step F availableMemory backendName module_).
    + intros Hin. apply (Hdisj _ Hin). simpl. left.
    + apply initialCut_inv.
    + apply IH. exact Hnd.
Qed.

(** X18.  Node names being distinct along the walk, step 1 of
    [selectPartitions] cuts the walk into runs: from a node to the next the
    number of the sub-Function stays or goes up by one.  The first node
    sits in [<F>_part1], unless it exceeds the available memory on its own:
    then it sits in [<F>_part2] and no node at all sits in [<F>_part1]. *)
Theorem selectPartitions_cut_is_contiguous
    (F : Function) (availableMemory : Z) (backendName : string) (module_ : Module) :
  let order := leavesFirst (getBFSLevel F) in
  let st := initialCut F availableMemory backendName module_ order in
  NoDup (map getNodeName order) ->
  (forall N0 rest,
     order = N0 :: rest ->
     nodeToFunction_ (cut_mapping st) !! getNodeName N0 =
       Some (partName F (firstCut availableMemory N0)) /\
     forall N, N ∈ order ->
       exists k, firstCut availableMemory N0 <= k <= cut_color st /\
                 nodeToFunction_ (cut_mapping st) !! getNodeName N = Some (partName F k)) /\
  (forall pre N M post,
     order = pre ++ N :: M :: post ->
     exists c,
       1 <= c /\
       nodeToFunction_ (cut_mapping st) !! getNodeName N = Some (partName F c) /\
       (nodeToFunction_ (cut_mapping st) !! getNodeName M = Some (partName F c) \/
        nodeToFunction_ (cut_mapping st) !! getNodeName M = Some (partName F (c + 1)))).
Proof.
  intros order st Hnd.
  destruct (cutNumberingInv_walk F availableMemory backendName module_ order Hnd)
    as (_ & Hfirst & Hpairs).
  split; [exact Hfirst | exact Hpairs].
Qed.

(** ** The heterogeneous flow on Modules that do not hold one Function *)

Lemma selectRepFunc_deref (P1 : Partitioner) :
  getFunctions (module_ P1) <> [] ->
  exists F,
    let P2 := set_F_ (Some (getName F)) (snd (selectRepFunc (module_ P1) (memSize_ P1))) P1 in
    selectRepFuncM P1 = (Ok tt, P2) /\
    derefF_ P2 = (Ok F, P2) /\
    F ∈ getFunctions (module_ P1).
Proof.
  intros Hfuncs.
  destruct (selectRepFunc_some (module_ P1) (memSize_ P1) Hfuncs) as (F0 & HF0 & Hrep).
  destruct (find_name_elem F0 _ HF0) as (F & Hfind & Hname & HF).
  exists F. cbv zeta. rewrite Hname. split; [|split; [|exact HF]].
  - unfold selectRepFuncM, modify.
    destruct (selectRepFunc (module_ P1) (memSize_ P1)) as [repF sz].
    simpl in Hrep. subst repF. reflexivity.
  - unfold derefF_. simpl. unfold getFunction. rewrite Hfind. reflexivity.
Qed.

(** X19.  On a Module without Functions the profiling flow and the
    load-balanced flow return the error that counts 0 functions and leave
    the Partitioner as it was; the heterogeneous flow, which checks the
    count later, has by then filled the backend map, found no
    representative Function and dereferences the null [F_]. *)
Theorem flows_on_empty_module (cctx : CompilationContext) (numDevices : Z)
    (P : Partitioner) :
  backends_ P = [] \/ length (backends_ P) = length (deviceInfo_ P) ->
  getFunctions (module_ P) = [] ->
  quantizationProfilingPartition cctx P =
    (Err (MkErr None (oneFunctionMsg 0 "In quantization profiling")), P) /\
  loadBalancedPartition cctx numDevices P =
    (Err (MkErr None (oneFunctionMsg 0 "Now in load-balanced")), P) /\
  exists P',
    heterogeneousPartition cctx P = (Undef NullDeref, P') /\
    F_ P' = None /\ memSize_ P' = 0 /\ module_ P' = module_ P.
Proof.
  intros Hbk Hfuncs.
  assert (Hcheck : forall flow,
            checkOneFunction flow P = (Err (MkErr None (oneFunctionMsg 0 flow)), P)).
  { intros flow. rewrite checkOneFunction_err; rewrite Hfuncs; [reflexivity | discriminate]. }
  split; [|split].
  - unfold quantizationProfilingPartition, bind. rewrite Hcheck. reflexivity.
  - unfold loadBalancedPartition, bind. rewrite Hcheck. reflexivity.
  - destruct (genBackendMapM_total P Hbk) as (bm & holder & backends & Hgen).
    exists (set_F_ None 0 (set_backendMap_ bm holder P)).
    split; [|repeat split].
    unfold heterogeneousPartition, bind. rewrite Hgen.
    unfold selectRepFuncM, modify, selectRepFunc. simpl. rewrite Hfuncs. reflexivity.
Qed.

(** X20.  With two Functions or more in the Module, the heterogeneous flow
    succeeds through the unsplit path only: unless [genBackendMap] returns
    one Backend whose memory exceeds the estimate of the representative
    Function, the flow returns the error that counts the Functions.  The
    Module is untouched and the backend map is the one [genBackendMap]
    filled; when one Backend was returned, the read of its memory has added
    a default entry under the Backend's name if that name was not a key. *)
Theorem heterogeneousPartition_several_functions
    (cctx : CompilationContext) (P : Partitioner)
    (bm : gmap string BackendInfo) (holder backends : list Backend) :
  genBackendMap (backends_ P) (deviceInfo_ P) (backendMap_ P) (backendHolder P) =
    Ok (bm, holder, backends) ->
  (2 <= length (getFunctions (module_ P)))%nat ->
  (forall b, backends = [b] ->
     memSize (backendInfoOf bm (getBackendName b)) <=
     snd (selectRepFunc (module_ P) (memSize_ P))) ->
  exists P',
    heterogeneousPartition cctx P =
      (Err (MkErr None (oneFunctionMsg (length (getFunctions (module_ P)))
                          "Now in heterogeneous")), P') /\
    backendMap_ P' =
      match backends with
      | [b] =>
          match bm !! getBackendName b with
          | Some _ => bm
          | None => <[getBackendName b := BackendInfo_default]> bm
          end
      | _ => bm
      end /\
    module_ P' = module_ P.
Proof.
  intros Hgen Hlen Hbig.
  set (P1 := set_backendMap_ bm holder P).
  assert (Hg : genBackendMapM P = (Ok backends, P1)).
  { unfold genBackendMapM. rewrite Hgen. reflexivity. }
  destruct (selectRepFunc_deref P1) as (F & Hs & Hd & _).
  { change (module_ P1) with (module_ P). intros Heq. rewrite Heq in Hlen. simpl in Hlen. lia. }
  cbv zeta in Hs, Hd.
  change (module_ P1) with (module_ P) in Hs, Hd.
  change (memSize_ P1) with (memSize_ P) in Hs, Hd.
  set (P2 := set_F_ (Some (getName F)) (snd (selectRepFunc (module_ P) (memSize_ P))) P1) in *.
  assert (Hcheck : forall Q,
    module_ Q = module_ P ->
    checkOneFunction "Now in heterogeneous" Q =
    (Err (MkErr None (oneFunctionMsg (length (getFunctions (module_ P)))
                        "Now in heterogeneous")), Q)).
  { intros Q HQ. rewrite <- HQ. apply (checkOneFunction_err "Now in heterogeneous" Q).
    rewrite HQ. lia. }
  unfold heterogeneousPartition, bind. rewrite Hg, Hs, Hd.
  destruct (length backends =? 1)%nat eqn:E; cbv beta.
  - apply Nat.eqb_eq in E.
    destruct backends as [|b [|b' backends']]; try discriminate.
    unfold lift, get, backendMapAt. change (at_ [b] 0) with (Ok b). cbv iota beta.
    change (backendMap_ P2) with bm. change (backendHolder P2) with holder.
    set (P3 := set_backendMap_ (withEntry (getBackendName b) bm) holder P2).
    change (memSize_ P3) with (snd (selectRepFunc (module_ P) (memSize_ P))).
    specialize (Hbig b eq_refl). apply Z.ltb_ge in Hbig. rewrite Hbig.
    rewrite (Hcheck P3) by reflexivity.
    exists P3. split; [reflexivity|]. split; reflexivity.
  - rewrite (Hcheck P2) by reflexivity.
    exists P2. split; [reflexivity|]. split; [|reflexivity].
    change (backendMap_ P2) with bm.
    destruct backends as [|b [|b' backends']]; try reflexivity. discriminate E.
Qed.

(** X21.  A Partitioner is good for one run.  Once the backend map holds
    the names of the devices, as it does after any flow has run,
    [genBackendMap] hands the heterogeneous flow no Backend; the flow then
    takes the backend-based path and, for a Module of one Function with a
    node, returns the error that no backend supports the node. *)
Theorem heterogeneousPartition_second_run
    (cctx : CompilationContext) (P : Partitioner) (F : Function)
    (N : Node) (rest : list Node) :
  (forall d, d ∈ deviceInfo_ P -> is_Some (backendMap_ P !! di_backendName d)) ->
  getFunctions (module_ P) = [F] ->
  getNodes F = N :: rest ->
  exists P',
    heterogeneousPartition cctx P =
      (Err (MkErr None "Node is not supported by any of the provided backends"), P') /\
    module_ P' = module_ P.
Proof.
  intros Hknown Hfuncs Hnodes.
  destruct (genBackendMap_loop_known (backends_ P) (deviceInfo_ P) 0 (backendMap_ P)
              (backendHolder P) [] 0 Hknown) as (bm & Hloop).
  set (P1 := set_backendMap_ bm (backendHolder P) P).
  assert (Hg : genBackendMapM P = (Ok [], P1)).
  { unfold genBackendMapM, genBackendMap. rewrite Hloop. reflexivity. }
  set (P2 := set_F_ (Some (getName F)) (estimate (memSize_ P) F) P1).
  assert (Hs : selectRepFuncM P1 = (Ok tt, P2)).
  { unfold selectRepFuncM, modify, selectRepFunc. simpl. rewrite Hfuncs. reflexivity. }
  assert (Hd : derefF_ P2 = (Ok F, P2)).
  { unfold derefF_, getFunction. simpl. rewrite Hfuncs. simpl.
    rewrite bool_decide_eq_true_2 by reflexivity. reflexivity. }
  exists P2. split; [|reflexivity].
  unfold heterogeneousPartition, bind. rewrite Hg, Hs, Hd.
  change (length (@nil Backend) =? 1)%nat with false. cbv iota beta.
  rewrite checkOneFunction_ok by (simpl; rewrite Hfuncs; reflexivity).
  unfold backendBasedPartition, backendBasedMapping. rewrite Hnodes. reflexivity.
Qed.

(** ** The partition map of a user-defined partition *)

Lemma at_outcome {A} (v : list A) (i : Z) :
  match at_ v i with
  | Ok x => 0 <= i /\ v !! Z.to_nat i = Some x
  | Err _ => False
  | Undef u => u = OutOfRange /\ (i < 0 \/ Z.of_nat (length v) <= i)
  end.
Proof.
  unfold at_. destruct (Z.ltb_spec i 0); [split; [reflexivity | left; lia]|].
  destruct (v !! Z.to_nat i) eqn:E; [split; [lia | reflexivity]|].
  split; [reflexivity|]. right. apply lookup_ge_None in E. lia.
Qed.

Lemma configCreate_outcome (cfg : PartitionConfig) (k : nat) :
  forall (i : nat) (st : ConfigState),
    let enough :=
      (k = 0)%nat \/
      ((i + k <= length (partitionNames cfg))%nat /\
       (i + k <= length (backendNames cfg))%nat) in
    let names := take k (drop i (partitionNames cfg)) in
    match foldOutcome (configCreateStep cfg) (seqZ (Z.of_nat i) (Z.of_nat k)) st with
    | Ok st' =>
        enough /\
        cf_funcList st' = cf_funcList st ++ names /\
        cf_unused st' = list_to_set (seqZ (Z.of_nat i) (Z.of_nat k)) ∪ cf_unused st /\
        cf_nodesSets st' = cf_nodesSets st /\
        cf_unMapped st' = cf_unMapped st /\
        functions_ (cf_partitionMap st') = functions_ (cf_partitionMap st) ++ names /\
        nodeToFunction_ (cf_partitionMap st') = nodeToFunction_ (cf_partitionMap st) /\
        map getName (getFunctions (cf_module st')) =
          map getName (getFunctions (cf_module st)) ++ names
    | Err _ => False
    | Undef u => u = OutOfRange /\ ~ enough
    end.
Proof.
  induction k as [|k IH]; intros i st enough names.
  - subst enough names. change (seqZ (Z.of_nat i) (Z.of_nat 0)) with (@nil Z).
    simpl. rewrite !app_nil_r.
    split; [left; reflexivity|]. split; [reflexivity|].
    split; [rewrite union_empty_l_L; reflexivity|]. auto.
  - rewrite seqZ_cons by lia.
    replace (Z.pred (Z.of_nat (S k))) with (Z.of_nat k) by lia.
    replace (Z.succ (Z.of_nat i)) with (Z.of_nat (S i)) by lia.
    simpl foldOutcome. unfold configCreateStep at 1.
    pose proof (at_outcome (partitionNames cfg) (Z.of_nat i)) as Hn.
    destruct (at_ (partitionNames cfg) (Z.of_nat i)) as [nm|e|u]; [|contradiction|].
    2:{ simpl. destruct Hn as [-> Hn]. split; [reflexivity|]. subst enough. lia. }
    destruct Hn as [_ Hn]. rewrite Nat2Z.id in Hn.
    pose proof (at_outcome (backendNames cfg) (Z.of_nat i)) as Hb.
    destruct (at_ (backendNames cfg) (Z.of_nat i)) as [bk|e|u]; [|contradiction|].
    2:{ simpl. destruct Hb as [-> Hb]. split; [reflexivity|]. subst enough. lia. }
    destruct Hb as [_ Hb]. rewrite Nat2Z.id in Hb.
    simpl obind.
    match goal with
    | |- context [foldOutcome _ _ ?st1] => specialize (IH (S i) st1)
    end.
    cbv zeta in IH.
    destruct (foldOutcome (configCreateStep cfg) (seqZ (Z.of_nat (S i)) (Z.of_nat k)) _)
      as [st'|e|u]; [|contradiction|].
    + destruct IH as (Hen & Hfl & Hun & Hns & Hum & Hfn & Hnf & Hmd).
      simpl in Hfl, Hun, Hns, Hum, Hfn, Hnf, Hmd.
      apply lookup_lt_Some in Hn as Hn'. apply lookup_lt_Some in Hb as Hb'.
      assert (Hnames : names = nm :: take k (drop (S i) (partitionNames cfg))).
      { subst names. rewrite (drop_S _ _ _ Hn). reflexivity. }
      rewrite Hnames.
      split; [subst enough; lia|].
      split; [rewrite Hfl, <- app_assoc; reflexivity|].
      split.
      { rewrite Hun. simpl. rewrite (assoc_L (∪)).
        rewrite (comm_L (∪) (list_to_set _) {[Z.of_nat i]}). reflexivity. }
      split; [exact Hns|]. split; [exact Hum|].
      split; [rewrite Hfn, <- app_assoc; reflexivity|].
      split; [exact Hnf|].
      rewrite Hmd, map_app, <- app_assoc. reflexivity.
    + destruct IH as [-> Hen]. split; [reflexivity|]. subst enough. lia.
Qed.

Lemma configMap_outcome (cfg : PartitionConfig) (nodes : list Node) :
  forall st : ConfigState,
    length (cf_nodesSets st) = length (cf_funcList st) ->
    let inRange :=
      forall node id,
        node ∈ nodes -> nodeToPartition cfg !! getNodeName node = Some id ->
        0 <= id < Z.of_nat (length (cf_funcList st)) in
    match foldOutcome (configMapStep cfg) nodes st with
    | Ok st' =>
        inRange /\
        cf_funcList st' = cf_funcList st /\
        length (cf_nodesSets st') = length (cf_funcList st) /\
        cf_unused st' =
          cf_unused st ∖
          list_to_set (omap (fun node => nodeToPartition cfg !! getNodeName node) nodes) /\
        cf_unMapped st' =
          cf_unMapped st ++
          map getNodeName
            (List.filter
               (fun node => bool_decide (nodeToPartition cfg !! getNodeName node = None))
               nodes) /\
        functions_ (cf_partitionMap st') = functions_ (cf_partitionMap st) /\
        cf_module st' = cf_module st /\
        (forall node id,
           node ∈ nodes -> nodeToPartition cfg !! getNodeName node = Some id ->
           nodeToFunction_ (cf_partitionMap st') !! getNodeName node =
             cf_funcList st !! Z.to_nat id) /\
        (forall k, nodeToPartition cfg !! k = None ->
           nodeToFunction_ (cf_partitionMap st') !! k =
             nodeToFunction_ (cf_partitionMap st) !! k) /\
        (forall k, k ∉ map getNodeName nodes ->
           nodeToFunction_ (cf_partitionMap st') !! k =
             nodeToFunction_ (cf_partitionMap st) !! k)
    | Err _ => False
    | Undef u => u = OutOfRange /\ ~ inRange
    end.
Proof.
  induction nodes as [|X nodes IH]; intros st Hlen inRange.
  - subst inRange. simpl. rewrite app_nil_r, difference_empty_L.
    split; [intros node id Hn; inversion Hn|]. split; [reflexivity|].
    split; [exact Hlen|]. repeat (split; [reflexivity|]).
    split; [intros node id Hn; inversion Hn|]. split; intros; reflexivity.
  - simpl foldOutcome. unfold configMapStep at 1.
    destruct (nodeToPartition cfg !! getNodeName X) as [id|] eqn:EX.
    + pose proof (at_outcome (cf_funcList st) id) as Hf.
      destruct (at_ (cf_funcList st) id) as [newF|e|u]; [|contradiction|].
      2:{ simpl. destruct Hf as [-> Hf]. split; [reflexivity|].
          intros Hr. specialize (Hr X id (list_elem_of_here _ _) EX). lia. }
      destruct Hf as [Hid0 Hf]. simpl obind.
      pose proof (at_outcome (cf_nodesSets st) id) as Hs. simpl in Hs.
      simpl cf_nodesSets.
      destruct (at_ (cf_nodesSets st) id) as [nodesSet|e|u]; [|contradiction|].
      2:{ exfalso. destruct Hs as [_ Hs]. apply lookup_lt_Some in Hf. lia. }
      simpl obind.
      match goal with
      | |- context [foldOutcome _ _ ?st1] => specialize (IH st1)
      end.
      simpl in IH. rewrite length_insert in IH. specialize (IH Hlen).
      destruct (foldOutcome (configMapStep cfg) nodes _) as [st'|e|u]; [|contradiction|].
      * destruct IH as (Hr & Hfl & Hns & Hun & Hum & Hfn & Hmd & Hmapped & Hnone & Hframe).
        apply lookup_lt_Some in Hf as Hidn.
        split.
        { intros node id' Hn Hc. apply elem_of_cons in Hn as [->|Hn].
          - rewrite EX in Hc. inversion Hc; subst id'. lia.
          - apply (Hr node id' Hn Hc). }
        split; [exact Hfl|]. split; [exact Hns|].
        split.
        { rewrite Hun. simpl. rewrite EX. simpl.
          rewrite difference_difference_l_L. reflexivity. }
        split.
        { rewrite Hum. simpl. rewrite EX.
          rewrite bool_decide_eq_false_2 by discriminate. reflexivity. }
        split; [exact Hfn|]. split; [exact Hmd|].
        split; [|split].
        -- intros node id' Hn Hc.
           destruct (decide (getNodeName node ∈ map getNodeName nodes)) as [Hin|Hin].
           ++ apply list_elem_of_fmap in Hin as (node' & Hname & Hn').
              rewrite Hname. apply (Hmapped node' id' Hn'). rewrite <- Hname. exact Hc.
           ++ rewrite (Hframe _ Hin).
              apply elem_of_cons in Hn as [->|Hn].
              ** rewrite EX in Hc. inversion Hc; subst id'.
                 rewrite lookup_insert_eq. symmetry. exact Hf.
              ** exfalso. apply Hin. apply list_elem_of_fmap. eauto.
        -- intros k Hk. rewrite (Hnone k Hk). apply lookup_insert_ne.
           intros Heq. rewrite Heq, Hk in EX. discriminate.
        -- intros k Hk. rewrite Hframe.
           ++ apply lookup_insert_ne. intros Heq. apply Hk. rewrite <- Heq. simpl. left.
           ++ intros Hin. apply Hk. simpl. right. exact Hin.
      * destruct IH as [-> Hr]. split; [reflexivity|].
        intros Hall. apply Hr. intros node id' Hn Hc. apply (Hall node id'); [right|]; assumption.
    + simpl obind.
      match goal with
      | |- context [foldOutcome _ _ ?st1] => specialize (IH st1)
      end.
      simpl in IH. specialize (IH Hlen).
      destruct (foldOutcome (configMapStep cfg) nodes _) as [st'|e|u]; [|contradiction|].
      * destruct IH as (Hr & Hfl & Hns & Hun & Hum & Hfn & Hmd & Hmapped & Hnone & Hframe).
        split.
        { intros node id' Hn Hc. apply elem_of_cons in Hn as [->|Hn].
          - rewrite EX in Hc. discriminate.
          - apply (Hr node id' Hn Hc). }
        split; [exact Hfl|]. split; [exact Hns|].
        split; [rewrite Hun; simpl; rewrite EX; reflexivity|].
        split.
        { rewrite Hum. simpl. rewrite EX.
          rewrite bool_decide_eq_true_2 by reflexivity. simpl.
          rewrite <- app_assoc. reflexivity. }
        split; [exact Hfn|]. split; [exact Hmd|].
        split; [|split; [exact Hnone|]].
        -- intros node id' Hn Hc. apply elem_of_cons in Hn as [->|Hn].
           ++ rewrite EX in Hc. discriminate.
           ++ apply (Hmapped node id' Hn Hc).
        -- intros k Hk. apply Hframe. intros Hin. apply Hk. simpl. right. exact Hin.
      * destruct IH as [-> Hr]. split; [reflexivity|].
        intros Hall. apply Hr. intros node id' Hn Hc. apply (Hall node id'); [right|]; assumption.
Qed.

Lemma configAdd_outcome (u : Z) (names : list string) :
  forall st : ConfigState,
    0 <= u < Z.of_nat (length (cf_funcList st)) ->
    length (cf_nodesSets st) = length (cf_funcList st) ->
    exists st',
      foldOutcome (fun st node => configAddNode u node st) names st = Ok st' /\
      functions_ (cf_partitionMap st') = functions_ (cf_partitionMap st) /\
      cf_module st' = cf_module st /\
      (forall k, k ∈ names ->
         nodeToFunction_ (cf_partitionMap st') !! k = cf_funcList st !! Z.to_nat u) /\
      (forall k, k ∉ names ->
         nodeToFunction_ (cf_partitionMap st') !! k =
           nodeToFunction_ (cf_partitionMap st) !! k).
Proof.
  induction names as [|X names IH]; intros st Hu Hlen.
  - exists st. simpl. repeat (split; [reflexivity|]).
    split; [intros k Hk; inversion Hk | intros; reflexivity].
  - simpl foldOutcome. unfold configAddNode at 1.
    destruct (at_in_range (cf_funcList st) u Hu) as (newF & -> & Hf).
    destruct (at_in_range (cf_nodesSets st) u) as (nodesSet & -> & _); [lia|].
    simpl obind.
    match goal with
    | |- context [foldOutcome _ _ ?st1] =>
        destruct (IH st1) as (st' & Hrun & Hfn & Hmd & Hin & Hout)
    end.
    { exact Hu. }
    { simpl. rewrite length_insert. exact Hlen. }
    simpl in Hfn, Hmd, Hin, Hout.
    exists st'. split; [exact Hrun|]. split; [exact Hfn|]. split; [exact Hmd|]. split.
    + intros k Hk. destruct (decide (k ∈ names)) as [Hkn|Hkn]; [apply Hin; exact Hkn|].
      rewrite (Hout k Hkn). apply elem_of_cons in Hk as [->|Hk]; [|contradiction].
      rewrite lookup_insert_eq. symmetry. exact Hf.
    + intros k Hk. rewrite Hout.
      * apply lookup_insert_ne. intros Heq. apply Hk. rewrite Heq. left.
      * intros Hkn. apply Hk. right. exact Hkn.
Qed.

Lemma configMapping_outcome (cfg : PartitionConfig) (F : Function) (module_ : Module) :
  let n := Z.to_nat (numOfPartitions cfg) in
  0 < numOfPartitions cfg \/ usableConfig cfg F ->
  match configMapping cfg F module_ with
  | Ok st =>
      usableConfig cfg F /\
      functions_ (cf_partitionMap st) = take n (partitionNames cfg) /\
      map getName (getFunctions (cf_module st)) =
        map getName (getFunctions module_) ++ take n (partitionNames cfg) /\
      exists u,
        (unMappedNodes cfg F <> [] -> u ∈ unusedPartitions cfg F) /\
        forall node, node ∈ getNodes F ->
          nodeToFunction_ (cf_partitionMap st) !! getNodeName node =
          partitionNames cfg !!
            Z.to_nat (default u (nodeToPartition cfg !! getNodeName node))
  | Err _ => False
  | Undef u => u = OutOfRange /\ ~ usableConfig cfg F
  end.
Proof.
  intros n Hpos. unfold configMapping.
  assert (Hseq : seqZ 0 (numOfPartitions cfg) = seqZ (Z.of_nat 0) (Z.of_nat n)).
  { subst n. destruct (Z.le_gt_cases 0 (numOfPartitions cfg)).
    - rewrite Z2Nat.id by lia. reflexivity.
    - rewrite !seqZ_nil; [reflexivity | lia | lia]. }
  rewrite Hseq.
  match goal with
  | |- context [foldOutcome (configCreateStep cfg) _ ?st0] =>
      pose proof (configCreate_outcome cfg n 0 st0) as Hc
  end.
  cbv zeta in Hc. rewrite drop_0 in Hc. simpl in Hc.
  destruct (foldOutcome (configCreateStep cfg) _ _) as [st1|e|u]; [|contradiction|].
  2:{ destruct Hc as [-> Hc]. split; [reflexivity|].
      intros (H1 & H2 & _). apply Hc. right. fold n in H1, H2. lia. }
  destruct Hc as (Hen & Hfl & Hun & Hns & Hum & Hfn & Hnf & Hmd).
  rewrite union_empty_r_L in Hun.
  assert (Hlenfl : length (cf_funcList st1) = n).
  { rewrite Hfl. destruct Hen as [Hen|[Hen _]].
    - rewrite Hen. reflexivity.
    - rewrite length_take. lia. }
  assert (Hlen1 : length (cf_nodesSets st1) = length (cf_funcList st1)).
  { rewrite Hns, Hlenfl. apply length_replicate. }
  assert (Hnz : Z.of_nat n = Z.max 0 (numOfPartitions cfg)) by (subst n; lia).
  simpl obind.
  pose proof (configMap_outcome cfg (getNodes F) st1 Hlen1) as Hm. cbv zeta in Hm.
  rewrite Hlenfl in Hm.
  destruct (foldOutcome (configMapStep cfg) (getNodes F) st1) as [st2|e|u];
    [|contradiction|].
  2:{ destruct Hm as [-> Hm]. split; [reflexivity|].
      intros (_ & _ & Hids & _). apply Hm. intros node id Hn Hc.
      specialize (Hids node id Hn Hc). lia. }
  destruct Hm as (Hr & Hfl2 & Hns2 & Hun2 & Hum2 & Hfn2 & Hmd2 & Hmapped & Hnone & _).
  rewrite Hum in Hum2. simpl in Hum2. fold (unMappedNodes cfg F) in Hum2.
  assert (Hunused : cf_unused st2 = unusedPartitions cfg F).
  { rewrite Hun2, Hun. unfold unusedPartitions. rewrite Hseq. reflexivity. }
  assert (Hnames : n = 0%nat \/
            (n <= length (partitionNames cfg))%nat /\ (n <= length (backendNames cfg))%nat).
  { destruct Hen as [Hen|[H1 H2]]; [left; exact Hen | right; split; lia]. }
  assert (Hids : forall node id,
            node ∈ getNodes F -> nodeToPartition cfg !! getNodeName node = Some id ->
            0 <= id < numOfPartitions cfg).
  { intros node id Hn Hc. specialize (Hr node id Hn Hc). lia. }
  assert (Henough : (n <= length (partitionNames cfg))%nat /\
                    (n <= length (backendNames cfg))%nat).
  { destruct Hnames as [Hz|Hok]; [|exact Hok]. rewrite Hz. split; lia. }
  assert (Hmappedlook : forall node id,
            node ∈ getNodes F -> nodeToPartition cfg !! getNodeName node = Some id ->
            cf_funcList st1 !! Z.to_nat id = partitionNames cfg !! Z.to_nat id).
  { intros node id Hn Hc. specialize (Hr node id Hn Hc).
    rewrite Hfl. simpl. apply lookup_take_lt. lia. }
  simpl obind.
  destruct (length (cf_unMapped st2) =? 0)%nat eqn:Eum.
  - apply Nat.eqb_eq in Eum. simpl negb. cbv iota.
    assert (Hnil : unMappedNodes cfg F = []).
    { rewrite Hum2, length_map in Eum. apply length_zero_iff_nil. exact Eum. }
    split.
    { split; [apply Henough|]. split; [apply Henough|]. split; [exact Hids|].
      left. exact Hnil. }
    split; [rewrite Hfn2, Hfn; reflexivity|].
    split; [rewrite Hmd2, Hmd; reflexivity|].
    exists 0. split; [intros Hne; contradiction|].
    intros node Hn.
    destruct (nodeToPartition cfg !! getNodeName node) as [id|] eqn:Ec.
    + simpl. rewrite (Hmapped node id Hn Ec). apply (Hmappedlook node id Hn Ec).
    + exfalso. assert (Hin : node ∈ unMappedNodes cfg F).
      { unfold unMappedNodes. apply list_elem_of_In, filter_In.
        split; [apply list_elem_of_In; exact Hn|]. rewrite Ec. reflexivity. }
      rewrite Hnil in Hin. inversion Hin.
  - apply Nat.eqb_neq in Eum. simpl negb. cbv iota.
    assert (Hnn : unMappedNodes cfg F <> []).
    { intros Hnil. apply Eum. rewrite Hum2, Hnil. reflexivity. }
    unfold unorderedBegin. rewrite Hunused.
    destruct (elements (unusedPartitions cfg F)) as [|u us] eqn:Eel.
    + simpl. split; [reflexivity|]. intros (_ & _ & _ & [Hnil|Hne]); [contradiction|].
      apply Hne. apply elements_empty_iff in Eel.
      apply leibniz_equiv. exact Eel.
    + simpl obind.
      assert (Huin : u ∈ unusedPartitions cfg F).
      { apply elem_of_elements. rewrite Eel. left. }
      assert (Hurange : 0 <= u < Z.of_nat (length (cf_funcList st2))).
      { rewrite Hfl2, Hlenfl. unfold unusedPartitions in Huin.
        apply elem_of_difference in Huin as [Huin _].
        apply elem_of_list_to_set, elem_of_seqZ in Huin. lia. }
      destruct (configAdd_outcome u (cf_unMapped st2) st2 Hurange)
        as (st3 & Hrun & Hfn3 & Hmd3 & Hin3 & Hout3).
      { rewrite Hns2, Hfl2, Hlenfl. reflexivity. }
      rewrite Hrun.
      split.
      { split; [apply Henough|]. split; [apply Henough|]. split; [exact Hids|].
        right. intros Hempty. rewrite Hempty in Huin. inversion Huin. }
      split; [rewrite Hfn3, Hfn2, Hfn; reflexivity|].
      split; [rewrite Hmd3, Hmd2, Hmd; reflexivity|].
      exists u. split; [intros _; exact Huin|].
      intros node Hn.
      destruct (nodeToPartition cfg !! getNodeName node) as [id|] eqn:Ec.
      * simpl. rewrite Hout3.
        -- rewrite (Hmapped node id Hn Ec). apply (Hmappedlook node id Hn Ec).
        -- rewrite Hum2. intros Hin. apply list_elem_of_fmap in Hin as (node' & Hname & Hn').
           unfold unMappedNodes in Hn'. apply list_elem_of_In, filter_In in Hn' as [_ Hn'].
           apply bool_decide_eq_true in Hn'. rewrite <- Hname, Ec in Hn'. discriminate.
      * simpl. rewrite Hin3.
        -- rewrite Hfl2, Hfl. simpl. apply lookup_take_lt.
           rewrite Hfl2, Hlenfl in Hurange. lia.
        -- rewrite Hum2. apply list_elem_of_fmap. exists node. split; [reflexivity|].
           unfold unMappedNodes. apply list_elem_of_In, filter_In.
           split; [apply list_elem_of_In; exact Hn|]. rewrite Ec. reflexivity.
Qed.

(** X22.  On a config that names a partition and a backend for each
    partition, maps nodes to partition IDs below the number of partitions
    only, and leaves a partition unused if it leaves a node unmapped,
    [partitionFromConfig] builds its partition map without fault: the
    partitions are created in the order of the config; every node the
    config maps sits in the partition the config gives it; every node it
    does not map sits in one and the same partition, to which the config
    maps no node. *)
Theorem configMapping_assigns_every_node
    (cfg : PartitionConfig) (F : Function) (module_ : Module) :
  usableConfig cfg F ->
  let n := Z.to_nat (numOfPartitions cfg) in
  exists st u,
    configMapping cfg F module_ = Ok st /\
    functions_ (cf_partitionMap st) = take n (partitionNames cfg) /\
    map getName (getFunctions (cf_module st)) =
      map getName (getFunctions module_) ++ take n (partitionNames cfg) /\
    (unMappedNodes cfg F <> [] -> u ∈ unusedPartitions cfg F) /\
    forall node, node ∈ getNodes F ->
      nodeToFunction_ (cf_partitionMap st) !! getNodeName node =
      partitionNames cfg !!
        Z.to_nat (default u (nodeToPartition cfg !! getNodeName node)).
Proof.
  intros Hok n.
  pose proof (configMapping_outcome cfg F module_ (or_intror Hok)) as H. cbv zeta in H.
  destruct (configMapping cfg F module_) as [st|e|u]; [|contradiction|].
  - destruct H as (_ & Hfn & Hmd & u & Hu & Hall). exists st, u. auto.
  - destruct H as [_ H]. contradiction.
Qed.

(** X23.  [partitionFromConfig] reports no error on a config it cannot use:
    when the names or the backend names are fewer than the partitions, when
    a node is mapped to a partition ID that is not below the number of
    partitions, or when a node is unmapped and every partition is used, the
    building of the partition map reads a vector out of range or an empty
    set, and the behaviour is undefined. *)
Theorem configMapping_unusable_config_is_undefined
    (cfg : PartitionConfig) (F : Function) (module_ : Module) :
  0 < numOfPartitions cfg ->
  ~ usableConfig cfg F ->
  configMapping cfg F module_ = Undef OutOfRange.
Proof.
  intros Hpos Hbad.
  pose proof (configMapping_outcome cfg F module_ (or_introl Hpos)) as H. cbv zeta in H.
  destruct (configMapping cfg F module_) as [st|e|u]; [|contradiction|].
  - destruct H as [H _]. contradiction.
  - destruct H as [-> _]. reflexivity.
Qed.

(** ** Device selection when the counter wraps *)

(** X25.  The counter is an [unsigned]: the call made at 2^32 - 1 sets it to
    0 and hands out the first entry of [deviceIDs].  The call before it
    hands out the entry at (2^32 - 1) mod size, which is the last entry
    only if the number of devices divides 2^32; otherwise the round is cut
    short at the wrap. *)
Theorem getNextDevice_wraps_to_first_entry (n : DAGNode) :
  deviceIDs n <> [] ->
  currentDeviceIdx n = 2 ^ 32 - 2 ->
  let size := Z.of_nat (length (deviceIDs n)) in
  exists d1 d2,
    getNextDevices 2 n = Ok ([d1; d2], set_currentDeviceIdx 0 n) /\
    deviceIDs n !! Z.to_nat ((2 ^ 32 - 1) mod size) = Some d1 /\
    deviceIDs n !! 0%nat = Some d2 /\
    ((2 ^ 32 - 1) mod size = size - 1 <-> 2 ^ 32 mod size = 0).
Proof.
  intros Hne Hidx size.
  assert (Hsize : 0 < size).
  { subst size. destruct (deviceIDs n); [congruence | simpl; lia]. }
  destruct (getNextDevice_step n Hne) as (d1 & Hd1 & Hl1); [lia|].
  rewrite Hidx in Hd1, Hl1. replace (2 ^ 32 - 2 + 1) with (2 ^ 32 - 1) in Hd1, Hl1 by lia.
  destruct (deviceIDs n) as [|d2 rest] eqn:E; [congruence|].
  exists d1, d2. split; [|split; [exact Hl1|split; [reflexivity|]]].
  - simpl. rewrite Hd1. simpl. unfold getNextDevice. simpl. rewrite E.
    change (wrap32 (2 ^ 32 - 1 + 1)) with 0. rewrite Z.mod_0_l by (simpl; lia).
    reflexivity.
  - pose proof (Z.div_mod (2 ^ 32) size) as Hdm.
    pose proof (Z.mod_pos_bound (2 ^ 32) size Hsize) as Hr.
    pose proof (Z.mod_pos_bound (2 ^ 32 - 1) size Hsize) as Hr'.
    specialize (Hdm ltac:(lia)).
    split.
    + intros H.
      destruct (Z.eq_dec (2 ^ 32 mod size) 0) as [Hz|Hnz]; [exact Hz|].
      exfalso.
      assert (Hm : (2 ^ 32 - 1) mod size = 2 ^ 32 mod size - 1).
      { symmetry. apply (Z.mod_unique _ _ (2 ^ 32 / size)); lia. }
      lia.
    + intros Hz. symmetry. apply (Z.mod_unique _ _ (2 ^ 32 / size - 1)); lia.
Qed.

(** ** The node sets that [partitionsAdjust] hands to its passes *)

(** X26.  [partitionsAdjust] hands the communication pass, and through it the
    combining pass, the node set of each partition: a node is in the set of
    a partition exactly when the mapping puts it there, and a partition to
    which no node is mapped has no set at all. *)
Theorem partitionsAdjust_node_sets
    (partitions : NodeToFunctionMap) (availableMemory : Z) (module_ : Module) :
  (forall N F,
     N ∈ default ∅ (nodeSetsOf partitions !! F) <->
     nodeToFunction_ partitions !! N = Some F) /\
  (forall F,
     is_Some (nodeSetsOf partitions !! F) ->
     exists N, nodeToFunction_ partitions !! N = Some F) /\
  partitionsAdjust partitions availableMemory module_ =
    (let '(partitions1, nodesSet1, module1) :=
       optimizeCommunicationCost partitions (nodeSetsOf partitions) module_
         availableMemory in
     let '(partitions2, _, module2) :=
       partitionsCombine partitions1 nodesSet1 module1 availableMemory in
     (partitions2, module2)).
Proof.
  split; [|split; [|reflexivity]].
  - unfold nodeSetsOf.
    apply (map_fold_weak_ind
             (fun (acc : gmap string (gset string)) (m : gmap string string) =>
                forall N F, N ∈ default ∅ (acc !! F) <-> m !! N = Some F)).
    + intros N F. rewrite !lookup_empty. simpl. split; [intros H; inversion H | discriminate].
    + intros i x m r Hi IH N F.
      destruct (decide (F = x)) as [->|HF].
      * rewrite lookup_insert_eq. simpl. rewrite elem_of_union, elem_of_singleton, IH.
        destruct (decide (N = i)) as [->|HN].
        -- rewrite lookup_insert_eq. split; [reflexivity | left; reflexivity].
        -- rewrite lookup_insert_ne by congruence.
           split; [intros [?|?]; [contradiction | assumption] | right; assumption].
      * rewrite lookup_insert_ne by congruence. rewrite IH.
        destruct (decide (N = i)) as [->|HN].
        -- rewrite lookup_insert_eq, Hi. split; [discriminate | congruence].
        -- rewrite lookup_insert_ne by congruence. reflexivity.
  - unfold nodeSetsOf.
    apply (map_fold_weak_ind
             (fun (acc : gmap string (gset string)) (m : gmap string string) =>
                forall F, is_Some (acc !! F) -> exists N, m !! N = Some F)).
    + intros F [s Hs]. rewrite lookup_empty in Hs. discriminate.
    + intros i x m r Hi IH F HF.
      destruct (decide (F = x)) as [->|Hne].
      * exists i. apply lookup_insert_eq.
      * rewrite lookup_insert_ne in HF by congruence.
        destruct (IH F HF) as [N HN]. exists N.
        rewrite lookup_insert_ne; [exact HN|]. intros <-. rewrite Hi in HN. discriminate.
Qed.

End Flows.

(** * Concrete instances *)

(** ** Host saturation: eight devices, two logical devices *)

Lemma saturateHost_spec_witness :
  saturateHost exEightDevices 2 [exTwoPartDAG] =
  Ok [{| root := root exTwoPartDAG;
         nodes := [exPart "main_part1" [0; 2; 4; 6]; exPart "main_part2" [1; 3; 5; 7]] |}].
Proof.
  destruct (saturateHost_spec exEightDevices 2 [exTwoPartDAG]) as [_ H].
  - lia.
  - vm_compute. reflexivity.
  - intros network node L Hn Hnode HL.
    elem_cases Hn. elem_cases Hnode; elem_cases HL; vm_compute; split; discriminate.
  - destruct H as [H _]; [vm_compute; discriminate|]. exact H.
Defined.

(** C4, as stated, fails for the root: with two devices and one logical
    device the root holds one logical device before and after, not 2/1 = 2
    of them, while the entry of [nodes] is extended. *)
Lemma saturateHost_root_counterexample :
  exists dag',
    saturateHost [exDevice "A" 1000; exDevice "A" 1000] 1 [wholeFunctionDAG "main" "A"] =
      Ok [dag'] /\
    logicalDevices (root (wholeFunctionDAG "main" "A")) = [0] /\
    logicalDevices (root dag') = [0] /\
    logicalDevices (root dag') <> [0; 1] /\
    map logicalDevices (nodes dag') = [[0; 1]].
Proof.
  eexists. split; [vm_compute; reflexivity|]. repeat split. discriminate.
Qed.

(** ** The backend map: devices A (100 bytes), B, A (999 bytes) *)

Lemma genBackendMap_first_device_wins_witness :
  exists backendMap holder backends info,
    genBackendMap exKinds exBackend [] exMixedDevices ∅ [] = Ok (backendMap, holder, backends) /\
    backendMap !! "A" = Some info /\ num info = 2 /\ memSize info = 100.
Proof.
  destruct (genBackendMap_first_device_wins exKinds exBackend [] exMixedDevices
              [] [exDevice "B" 50; exDevice "A" 999] (exDevice "A" 100) ∅ [])
    as (backendMap & holder & backends & info & Hrun & Hl & Hcase).
  - left. reflexivity.
  - vm_compute. reflexivity.
  - reflexivity.
  - intros d' Hd'. inversion Hd'.
  - rewrite lookup_empty in Hcase. destruct Hcase as (Hnum & Hmem & _).
    exists backendMap, holder, backends, info.
    split; [exact Hrun|]. split; [exact Hl|]. split; [exact Hnum | exact Hmem].
Defined.

(** C10, as stated, fails on a map that already holds the name, as
    [backendMap_] does when a flow runs a second time on a Partitioner:
    after the second call the entry of "A" counts 4 devices where there
    are 2. *)
Lemma genBackendMap_second_call_counterexample :
  exists bm1 h1 bs1 bm2 h2 bs2 info,
    genBackendMap exKinds exBackend [] [exDevice "A" 100; exDevice "A" 999] ∅ [] =
      Ok (bm1, h1, bs1) /\
    genBackendMap exKinds exBackend [] [exDevice "A" 100; exDevice "A" 999] bm1 h1 =
      Ok (bm2, h2, bs2) /\
    bm2 !! "A" = Some info /\
    num info = 4 /\
    countName "A" [exDevice "A" 100; exDevice "A" 999] = 2%nat /\
    num info <> Z.of_nat (countName "A" [exDevice "A" 100; exDevice "A" 999]).
Proof.
  eexists _, _, _, _, _, _, _.
  split; [vm_compute; reflexivity|]. split; [vm_compute; reflexivity|].
  split; [vm_compute; reflexivity|]. split; [reflexivity|]. split; [reflexivity|].
  vm_compute. discriminate.
Qed.

(** ** Choice of the flow *)

Lemma partition_mode_selection_witness :
  partition exKinds exBackend exOptimize exVerify exBFS exDoPartitioning "CPU" true false
    exHeterogeneousSteps exLoadBalancedSteps exFromConfigSteps 0
    CompilationContext_default
    (exPartitioner [exDevice "A" 1000; exDevice "A" 1000] exModule) =
  loadBalancedPartition exKinds exBackend exOptimize exVerify exBFS exDoPartitioning "CPU"
    false exHeterogeneousSteps exLoadBalancedSteps CompilationContext_default 0
    (exPartitioner [exDevice "A" 1000; exDevice "A" 1000] exModule) /\
  loadBalancedPartition exKinds exBackend exOptimize exVerify exBFS exDoPartitioning "CPU"
    false exHeterogeneousSteps exLoadBalancedSteps CompilationContext_default 0
    (exPartitioner [exDevice "A" 1000; exDevice "B" 1000] exModule) =
  heterogeneousPartition exKinds exBackend exOptimize exVerify exBFS exDoPartitioning "CPU"
    false exHeterogeneousSteps CompilationContext_default
    (exPartitioner [exDevice "A" 1000; exDevice "B" 1000] exModule).
Proof.
  split.
  - refine (proj1 (proj2 (proj2
              (partition_mode_selection exKinds exBackend exOptimize exVerify exBFS
                 exDoPartitioning "CPU" true false exHeterogeneousSteps exLoadBalancedSteps
                 exFromConfigSteps 0
                 (exPartitioner [exDevice "A" 1000; exDevice "A" 1000] exModule)
                 CompilationContext_default))) _ _ _ _).
    + simpl. lia.
    + simpl. discriminate.
    + intros d1 d2 H1 H2. simpl in H1, H2. elem_cases H1; elem_cases H2; reflexivity.
    + reflexivity.
  - refine (proj1 (proj2 (proj2 (proj2 (proj2
              (partition_mode_selection exKinds exBackend exOptimize exVerify exBFS
                 exDoPartitioning "CPU" true false exHeterogeneousSteps exLoadBalancedSteps
                 exFromConfigSteps 0
                 (exPartitioner [exDevice "A" 1000; exDevice "B" 1000] exModule)
                 CompilationContext_default)))) _ 0) _).
    + intros Hsame. specialize (Hsame (exDevice "A" 1000) (exDevice "B" 1000)).
      simpl in Hsame. discriminate Hsame; repeat constructor.
    + reflexivity.
Defined.

(** C3, as stated, fails in its last sentence: with devices of two backend
    names and a Module of two Functions, [loadBalancedPartition] returns its
    own error without running [heterogeneousPartition], whose result differs
    and which would have filled the backend map. *)
Lemma loadBalancedPartition_delegation_counterexample :
  multiBackendNames_ (exPartitioner [exDevice "A" 1000; exDevice "B" 1000] exTwoFunctions)
    = true /\
  loadBalancedPartition exKinds exBackend exOptimize exVerify exBFS exDoPartitioning "CPU"
    false exHeterogeneousSteps exLoadBalancedSteps CompilationContext_default 0
    (exPartitioner [exDevice "A" 1000; exDevice "B" 1000] exTwoFunctions) <>
  heterogeneousPartition exKinds exBackend exOptimize exVerify exBFS exDoPartitioning "CPU"
    false exHeterogeneousSteps CompilationContext_default
    (exPartitioner [exDevice "A" 1000; exDevice "B" 1000] exTwoFunctions) /\
  backendMap_
    (snd (loadBalancedPartition exKinds exBackend exOptimize exVerify exBFS
            exDoPartitioning "CPU" false exHeterogeneousSteps exLoadBalancedSteps
            CompilationContext_default 0
            (exPartitioner [exDevice "A" 1000; exDevice "B" 1000] exTwoFunctions)))
    !! "A" = None /\
  is_Some
    (backendMap_
       (snd (heterogeneousPartition exKinds exBackend exOptimize exVerify exBFS
               exDoPartitioning "CPU" false exHeterogeneousSteps CompilationContext_default
               (exPartitioner [exDevice "A" 1000; exDevice "B" 1000] exTwoFunctions)))
       !! "A").
Proof.
  split; [reflexivity|]. split; [|split].
  - intros H. apply (f_equal fst) in H. vm_compute in H. discriminate H.
  - reflexivity.
  - vm_compute. eauto.
Qed.

(** ** CompilationContext::verify on a well-formed profiling context *)

Lemma verify_spec_witness : verify exWellFormed = Ok tt.
Proof.
  apply (proj1 (verify_spec exWellFormed)). split.
  - intros H. discriminate H.
  - unfold quantOk. simpl. split; [eauto|]. split; [eauto | reflexivity].
Defined.

(** ** The user-defined flow on a name that is not in the Module *)

(** C9: the Module holds "main" only and the configuration asks for
    "missing".  [partition], through [partitionFromConfig], does not return
    an error: it reads the name of the Function through a null pointer. *)
Lemma partitionFromConfig_missing_function_undefined :
  getFunction exModule "missing" = None /\
  fst (partition exKinds exBackend exOptimize exVerify exBFS exDoPartitioning "CPU" false
         false exHeterogeneousSteps exLoadBalancedSteps exFromConfigSteps 0
         CompilationContext_default
         (Partitioner_withConfig exModule [exDevice "A" 1000] false true exMissingConfig))
    = Undef NullDeref /\
  isErr (fst (partitionFromConfig exKinds exBackend exFromConfigSteps exMissingConfig
                (Partitioner_withConfig exModule [exDevice "A" 1000] false true
                   exMissingConfig)))
    = false.
Proof. repeat split. Qed.

(** ** Backend-based partition of the chain over backends A and B *)

Lemma backendBasedPartition_first_accepting_backend_witness :
  (exists nodeToBackendName,
     assignBackends exBackendMap [exBackend "A"; exBackend "B"] (getNodes exChain) ∅ =
       Ok nodeToBackendName /\
     nodeToBackendName !! "conv" = Some "A" /\
     nodeToBackendName !! "add" = Some "B" /\
     nodeToBackendName !! "relu" = Some "A") /\
  backendBasedPartition exBFS exDoPartitioning "CPU" ∅ exChainSoftMax
    [exBackend "A"; exBackend "B"] CompilationContext_default exHeteroPartitioner =
  (Err (MkErr None "Node is not supported by any of the provided backends"),
   exHeteroPartitioner).
Proof.
  split.
  - destruct (backendBasedPartition_first_accepting_backend exBFS
                exDoPartitioning "CPU" exHeteroPartitioner ∅ exChain
                [exBackend "A"; exBackend "B"] CompilationContext_default)
      as [_ Hok].
    + apply (bool_decide_unpack _). vm_compute. exact I.
    + destruct Hok as (m & bm' & Hm & _).
      * intros N HN. simpl in HN. elem_cases HN.
        -- apply findBackend_accepted with (b := "A"). reflexivity.
        -- apply findBackend_accepted with (b := "B"). reflexivity.
        -- apply findBackend_accepted with (b := "A"). reflexivity.
      * exists m. split; [exact Hm|].
        assert (E : Ok m = assignBackends exBackendMap [exBackend "A"; exBackend "B"]
                             (getNodes exChain) ∅) by (symmetry; exact Hm).
        vm_compute in E. injection E as ->. repeat split.
  - destruct (backendBasedPartition_first_accepting_backend exBFS
                exDoPartitioning "CPU" exHeteroPartitioner ∅ exChainSoftMax
                [exBackend "A"; exBackend "B"] CompilationContext_default)
      as [Herr _].
    + apply (bool_decide_unpack _). vm_compute. exact I.
    + destruct Herr as (bm' & Hadd & Herr).
      * exists (exNode "softmax" SoftMaxNodeKind). split; [simpl; repeat constructor|].
        intros B HB. elem_cases HB; intros (_ & [Hempty|Hin] & _).
        -- vm_compute in Hempty. discriminate Hempty.
        -- apply (bool_decide_pack _) in Hin. vm_compute in Hin. exact Hin.
        -- vm_compute in Hempty. discriminate Hempty.
        -- apply (bool_decide_pack _) in Hin. vm_compute in Hin. exact Hin.
      * apply (entriesAdded_defaultsAdded _ [exBackend "A"; exBackend "B"]) in Hadd;
          [|auto].
        apply defaultsAdded_known in Hadd.
        2:{ intros B HB. elem_cases HB; vm_compute; eauto. }
        rewrite Hadd in Herr. exact Herr.
Defined.

(** ** Memory-driven partition of the chain with room for one node *)


(** ** One device of 1 GiB and a Module of 140 bytes *)

Lemma heterogeneousPartition_single_backend_fits_witness :
  (exists P',
     heterogeneousPartition exKinds exBackend exOptimize exVerify exBFS exDoPartitioning
       "CPU" false exHeterogeneousSteps CompilationContext_default
       (Partitioner_withConfig exModule [exDevice "A" 1073741824] false false
          PartitionConfig_default) =
     (Ok [unsplitDAG "main" "A" [0]], P') /\
     map getName (getFunctions (module_ P')) = ["main"]) /\
  (exists P',
     heterogeneousPartition exKinds exBackend exOptimize exVerify exBFS exDoPartitioning
       "CPU" false exHeterogeneousSteps CompilationContext_default
       (Partitioner_withBackends exModule [exDevice "A" 1073741824; exDevice "A" 1073741824]
          [exBackendLowers "A"; exBackendLowers "A"] true false) =
     (Ok [unsplitDAG "main" "A" [0; 1]], P') /\
     map getName (getFunctions (module_ P')) = ["main"]).
Proof.
  split.
  - destruct (heterogeneousPartition_single_backend_fits exKinds exBackend exOptimize
                exVerify exBFS exDoPartitioning "CPU" false exHeterogeneousSteps
                (Partitioner_withConfig exModule [exDevice "A" 1073741824] false false
                   PartitionConfig_default)
                (exDevice "A" 1073741824) [] (exBackend "A")
                CompilationContext_default) as (P' & Hrun & Hnames).
    + reflexivity.
    + left. repeat split.
    + reflexivity.
    + reflexivity.
    + intros d Hd. inversion Hd.
    + vm_compute. reflexivity.
    + discriminate.
    + vm_compute. reflexivity.
    + intros _ F HF. exists F. repeat split.
    + intros H. discriminate H.
    + exists P'. split; [exact Hrun | exact Hnames].
  - destruct (heterogeneousPartition_single_backend_fits exKinds exBackend exOptimize
                exVerify exBFS exDoPartitioning "CPU" false exHeterogeneousSteps
                (Partitioner_withBackends exModule
                   [exDevice "A" 1073741824; exDevice "A" 1073741824]
                   [exBackendLowers "A"; exBackendLowers "A"] true false)
                (exDevice "A" 1073741824) [exDevice "A" 1073741824] (exBackendLowers "A")
                CompilationContext_default) as (P' & Hrun & Hnames).
    + reflexivity.
    + right. eexists. reflexivity.
    + reflexivity.
    + reflexivity.
    + intros d Hd. elem_cases Hd. reflexivity.
    + vm_compute. reflexivity.
    + discriminate.
    + vm_compute. reflexivity.
    + intros _ F HF. exists F. repeat split.
    + intros H. discriminate H.
    + exists P'. split; [exact Hrun | exact Hnames].
Defined.

(** C8, as stated, fails under saturation: with two devices of the one
    backend and [saturateHost_] set, the child of the unsplit Function holds
    logical devices [0; 1], not [0]. *)
Lemma heterogeneousPartition_saturated_counterexample :
  exists dag P',
    heterogeneousPartition exKinds exBackend exOptimize exVerify exBFS exDoPartitioning
      "CPU" false exHeterogeneousSteps CompilationContext_default
      (Partitioner_withConfig exModule [exDevice "A" 1073741824; exDevice "A" 1073741824]
         true true PartitionConfig_default) = (Ok [dag], P') /\
    logicalDevices (root dag) = [0] /\
    map logicalDevices (nodes dag) = [[0; 1]] /\
    map logicalDevices (nodes dag) <> [[0]].
Proof.
  eexists _, _. split; [vm_compute; reflexivity|]. repeat split. discriminate.
Qed.

(** ** A full round over two devices *)

Lemma getNextDevice_full_cycle_witness :
  getNextDevices 2 twoDeviceNode = Ok ([20; 10], set_currentDeviceIdx 2 twoDeviceNode) /\
  [20; 10] ≡ₚ [10; 20].
Proof.
  apply (getNextDevice_full_cycle twoDeviceNode); [discriminate | simpl; lia | simpl; lia].
Defined.

(** ** The estimate of the chain: 100 bytes of constants and one Placeholder of 40 *)

Lemma estimate_counts_each_placeholder_once_witness :
  estimate 100 exChain = 140 /\ 100 <= estimate 100 exChain.
Proof.
  apply (estimate_counts_each_placeholder_once 100 exChain).
  - lia.
  - intros r Hr. simpl in Hr. elem_cases Hr; simpl; lia.
  - vm_compute. reflexivity.
Defined.

(** ** The backend map when Backends are handed in *)

Lemma genBackendMap_uses_given_backends_witness :
  exists backendMap,
    genBackendMap exKinds exBackend [exBackend "A"; exBackend "B"; exBackendLowers "A"]
      exMixedDevices ∅ [] =
    Ok (backendMap, [], [exBackend "A"; exBackend "B"]).
Proof.
  destruct (genBackendMap_uses_given_backends exKinds exBackend
              [exBackend "A"; exBackend "B"; exBackendLowers "A"] exMixedDevices ∅ [])
    as (backendMap & Hrun & _).
  - discriminate.
  - reflexivity.
  - exists backendMap. exact Hrun.
Defined.

Lemma genBackendMap_again_returns_no_backends_witness :
  exists backendMap1 backendMap2 info,
    genBackendMap exKinds exBackend [] exMixedDevices ∅ [] =
      Ok (backendMap1, [exBackend "A"; exBackend "B"], [exBackend "A"; exBackend "B"]) /\
    genBackendMap exKinds exBackend [] exMixedDevices backendMap1
      [exBackend "A"; exBackend "B"] =
      Ok (backendMap2, [exBackend "A"; exBackend "B"], []) /\
    backendMap2 !! "A" = Some info /\ num info = 4.
Proof.
  destruct (genBackendMap_loop_created exKinds exBackend exMixedDevices 0 ∅ [] [])
    as (backendMap1 & Hrun1 & _).
  destruct (genBackendMap_again_returns_no_backends exKinds exBackend [] exMixedDevices ∅
              backendMap1 [] _ _ Hrun1) as (backendMap2 & Hrun2 & Hnum).
  assert (E : Ok (backendMap1, [exBackend "A"; exBackend "B"], [exBackend "A"; exBackend "B"]) =
              genBackendMap exKinds exBackend [] exMixedDevices ∅ [])
    by (symmetry; exact Hrun1).
  vm_compute in E. injection E as E.
  eexists backendMap1, backendMap2, _. split; [exact Hrun1|]. split; [exact Hrun2|].
  split.
  - apply Hnum. rewrite E. reflexivity.
  - reflexivity.
Defined.

Lemma genBackendMap_too_few_backends_witness :
  genBackendMap exKinds exBackend [exBackend "A"] exMixedDevices ∅ [] = Undef OutOfRange.
Proof.
  apply (genBackendMap_too_few_backends exKinds exBackend [exBackend "A"] exMixedDevices
           [exDevice "A" 100] [exDevice "A" 999] (exDevice "B" 50)).
  - discriminate.
  - reflexivity.
  - simpl. lia.
  - reflexivity.
  - intros H. apply (bool_decide_pack _) in H. vm_compute in H. exact H.
Defined.

(** ** Saturation of eight devices: the first partition holds 0, 2, 4 and 6 *)

Lemma saturateHost_no_collision_witness :
  NoDup [0; 2; 4; 6] /\
  forall x, x ∈ [0; 2; 4; 6] -> 0 <= x < 8 /\ x mod 2 ∈ [0].
Proof.
  apply (saturateHost_no_collision exEightDevices 2 [exTwoPartDAG]
           [{| root := root exTwoPartDAG;
               nodes := [exPart "main_part1" [0; 2; 4; 6];
                         exPart "main_part2" [1; 3; 5; 7]] |}]
           0 0 exTwoPartDAG
           {| root := root exTwoPartDAG;
              nodes := [exPart "main_part1" [0; 2; 4; 6];
                        exPart "main_part2" [1; 3; 5; 7]] |}
           (exPart "main_part1" [0]) (exPart "main_part1" [0; 2; 4; 6])).
  - lia.
  - vm_compute. reflexivity.
  - vm_compute. reflexivity.
  - reflexivity.
  - reflexivity.
  - reflexivity.
  - reflexivity.
  - simpl. repeat constructor. intros H. inversion H.
  - intros L HL. simpl in HL. elem_cases HL. lia.
Defined.

(** ** The unsplit path when the optimizer fails on the second Function *)

Lemma createDAGWithoutPartition_stops_at_optimizer_error_witness :
  fst (createDAGWithoutPartition (exOptimizeFailsOn "aux") exVerify false "A" exBackendMap
         CompilationContext_default exUnoptimized) =
  Err (MkErr None "optimizer failure").
Proof.
  rewrite (createDAGWithoutPartition_stops_at_optimizer_error (exOptimizeFailsOn "aux")
             exVerify false exUnoptimized "A" exBackendMap CompilationContext_default
             (exBackend "A") [exChain] [] {| getName := "aux"; getNodes := [] |}
             {| getName := "aux"; getNodes := [] |} (MkErr None "optimizer failure")).
  - reflexivity.
  - reflexivity.
  - reflexivity.
  - reflexivity.
  - intros G HG. elem_cases HG. reflexivity.
  - reflexivity.
Defined.

(** ** Backend-based partition of the chain: A, B, A gives three sub-Functions *)

Lemma backendBasedPartition_numbering_witness :
  exists mapping funcToBackend module',
    backendBasedMapping exBFS "CPU" exBackendMap exModule ∅ exChain
      [exBackend "A"; exBackend "B"] CompilationContext_default =
      Ok (mapping, funcToBackend, module') /\
    nodeToFunction_ mapping !! "conv" = Some "main_part1".
Proof.
  assert (Hok : exists r,
            backendBasedMapping exBFS "CPU" exBackendMap exModule ∅ exChain
              [exBackend "A"; exBackend "B"] CompilationContext_default = Ok r)
    by (eexists; vm_compute; reflexivity).
  destruct Hok as [[[mapping funcToBackend] module'] Hrun].
  exists mapping, funcToBackend, module'. split; [exact Hrun|].
  destruct (backendBasedPartition_numbering exBFS "CPU" exBackendMap exModule ∅ exChain
              [exBackend "A"; exBackend "B"] CompilationContext_default
              mapping funcToBackend module')
    as (n2b & count & _ & _ & _ & _ & Hfirst & _).
  - apply (bool_decide_unpack _). vm_compute. exact I.
  - exact Hrun.
  - exact (Hfirst (exNode "conv" ConvolutionNodeKind)
             [exNode "add" AddNodeKind; exNode "relu" ReluNodeKind] eq_refl).
Defined.

Lemma backendBasedPartition_profiling_witness :
  exists mapping funcToBackend module',
    backendBasedMapping exBFS "CPU" exBackendMap exModule ∅ exChain
      [exBackend "A"; exBackend "B"] exWellFormed =
      Ok (mapping, funcToBackend, module') /\
    backendName_ mapping !! "main_part1" = Some "CPU" /\
    logicalDeviceIDMap_ mapping !! "main_part1" = Some [0].
Proof.
  assert (Hok : exists r,
            backendBasedMapping exBFS "CPU" exBackendMap exModule ∅ exChain
              [exBackend "A"; exBackend "B"] exWellFormed = Ok r)
    by (eexists; vm_compute; reflexivity).
  destruct Hok as [[[mapping funcToBackend] module'] Hrun].
  exists mapping, funcToBackend, module'. split; [exact Hrun|].
  destruct (backendBasedPartition_profiling exBFS "CPU" exBackendMap exModule ∅ exChain
              [exBackend "A"; exBackend "B"] exWellFormed mapping funcToBackend module')
    as (count & Hcount & _ & Hall).
  - reflexivity.
  - exact Hrun.
  - destruct (Hall 1) as (Hb & _ & Hl); [lia|]. split; [exact Hb | exact Hl].
Defined.

(** ** Memory-driven cuts of the chain, each node taking 10 bytes *)

Lemma selectPartitions_cut_fits_witness :
  exists g,
    partitionCost_
      (cut_mapping (initialCut exUpdate exChain 25 "A" exModule (leavesFirst (exBFS exChain))))
      !! "main_part1" = Some g /\
    getTotalMemSize g <= 25.
Proof.
  destruct (selectPartitions_cut_fits exBFS exUpdate exChain 25 "A" exModule)
    as [Hfit Hsome].
  - intros N HN. vm_compute. discriminate.
  - destruct (Hsome ltac:(discriminate) 1) as [g Hg]; [vm_compute; split; discriminate|].
    exists g. split; [exact Hg | exact (Hfit _ g Hg)].
Defined.

Lemma selectPartitions_cut_is_contiguous_witness :
  nodeToFunction_
    (cut_mapping (initialCut exUpdate exChain 5 "A" exModule (leavesFirst (exBFS exChain))))
    !! "conv" = Some "main_part2".
Proof.
  refine (proj1 (proj1 (selectPartitions_cut_is_contiguous exBFS exUpdate exChain 5 "A"
                          exModule _)
                   (exNode "conv" ConvolutionNodeKind)
                   [exNode "add" AddNodeKind; exNode "relu" ReluNodeKind] eq_refl)).
  apply (bool_decide_unpack _). vm_compute. exact I.
Defined.

(** ** The flows on unusual Modules *)

Lemma flows_on_empty_module_witness :
  exists P',
    heterogeneousPartition exKinds exBackend exOptimize exVerify exBFS exDoPartitioning
      "CPU" false exHeterogeneousSteps CompilationContext_default
      (exPartitioner [exDevice "A" 1000] exEmptyModule) = (Undef NullDeref, P').
Proof.
  destruct (flows_on_empty_module exKinds exBackend exOptimize exVerify exBFS
              exDoPartitioning "CPU" false exHeterogeneousSteps exLoadBalancedSteps
              CompilationContext_default 0 (exPartitioner [exDevice "A" 1000] exEmptyModule))
    as (_ & _ & P' & Hrun & _).
  - left. reflexivity.
  - reflexivity.
  - exists P'. exact Hrun.
Defined.

Lemma heterogeneousPartition_several_functions_witness :
  exists P',
    heterogeneousPartition exKinds exBackend exOptimize exVerify exBFS exDoPartitioning
      "CPU" false exHeterogeneousSteps CompilationContext_default
      (exPartitioner [exDevice "A" 1000; exDevice "B" 1000] exTwoFunctions) =
    (Err (MkErr None (oneFunctionMsg 2 "Now in heterogeneous")), P').
Proof.
  destruct (genBackendMap_loop_created exKinds exBackend
              [exDevice "A" 1000; exDevice "B" 1000] 0 ∅ [] []) as (bm & Hgen & _).
  destruct (heterogeneousPartition_several_functions exKinds exBackend exOptimize exVerify
              exBFS exDoPartitioning "CPU" false exHeterogeneousSteps
              CompilationContext_default
              (exPartitioner [exDevice "A" 1000; exDevice "B" 1000] exTwoFunctions)
              bm _ _ Hgen) as (P' & Hrun & _).
  - simpl. lia.
  - intros b Hb. discriminate Hb.
  - exists P'. exact Hrun.
Defined.

Lemma heterogeneousPartition_second_run_witness :
  exists P',
    heterogeneousPartition exKinds exBackend exOptimize exVerify exBFS exDoPartitioning
      "CPU" false exHeterogeneousSteps CompilationContext_default exHeteroPartitioner =
    (Err (MkErr None "Node is not supported by any of the provided backends"), P').
Proof.
  destruct (heterogeneousPartition_second_run exKinds exBackend exOptimize exVerify exBFS
              exDoPartitioning "CPU" false exHeterogeneousSteps CompilationContext_default
              exHeteroPartitioner exChain (exNode "conv" ConvolutionNodeKind)
              [exNode "add" AddNodeKind; exNode "relu" ReluNodeKind]) as (P' & Hrun & _).
  - intros d Hd. simpl in Hd. elem_cases Hd; vm_compute; eauto.
  - reflexivity.
  - reflexivity.
  - exists P'. exact Hrun.
Defined.

(** ** User-defined partitions of the chain *)

Lemma configMapping_assigns_every_node_witness :
  exists st,
    configMapping exConfig exChain exModule = Ok st /\
    nodeToFunction_ (cf_partitionMap st) !! "conv" = Some "p0" /\
    functions_ (cf_partitionMap st) = ["p0"; "p1"].
Proof.
  destruct (configMapping_assigns_every_node exConfig exChain exModule)
    as (st & u & Hrun & Hfun & _ & _ & Hall).
  - split; [simpl; lia|]. split; [simpl; lia|]. split.
    + intros node id Hn Hid. simpl in Hn. elem_cases Hn; vm_compute in Hid;
        try discriminate Hid; injection Hid as <-; simpl; lia.
    + right. intros Hempty.
      assert (H1 : 1 ∈ unusedPartitions exConfig exChain)
        by (apply (bool_decide_unpack _); vm_compute; exact I).
      rewrite Hempty in H1. inversion H1.
  - exists st. split; [exact Hrun|]. split; [|exact Hfun].
    apply (Hall (exNode "conv" ConvolutionNodeKind)). simpl. left.
Defined.

Lemma configMapping_unusable_config_is_undefined_witness :
  configMapping exConfigOutOfRange exChain exModule = Undef OutOfRange.
Proof.
  apply (configMapping_unusable_config_is_undefined exConfigOutOfRange exChain exModule).
  - simpl. lia.
  - intros (_ & _ & Hids & _).
    specialize (Hids (exNode "conv" ConvolutionNodeKind) 5).
    assert (0 <= 5 < 2) as [_ H]; [|lia].
    apply Hids; [simpl; left | reflexivity].
Defined.

(** ** Three devices at the wrap of the counter: the same device twice *)

Lemma getNextDevice_wraps_to_first_entry_witness :
  getNextDevices 2 threeDeviceNode = Ok ([10; 10], set_currentDeviceIdx 0 threeDeviceNode).
Proof.
  destruct (getNextDevice_wraps_to_first_entry threeDeviceNode)
    as (d1 & d2 & Hrun & H1 & H2 & _).
  - discriminate.
  - reflexivity.
  - vm_compute in H1. vm_compute in H2. injection H1 as <-. injection H2 as <-. exact Hrun.
Defined.
